(** * A shallow embedding of the XRT / CED batch record pipelines

    The repository holds two Python programs built on one design:

    - [dataCED.py]: reads a semicolon-delimited file, inserts every row
      into the CEDE_INTERFACE table through one pyodbc connection, and
      writes the rows that were accepted and rejected to two artifacts;
    - [dataXRT.py]: reads a comma-delimited file, sends every row to a
      SOAP service, and writes, uploads and moves the two artifacts.

    Python values are modelled by an inductive type, Python exceptions by
    an inductive type of exception classes, and every call that leaves the
    program (file system, S3, database driver, SOAP client) by an
    operation that is logged in a trace and whose failure is decided by an
    oracle over the history of the run.

    What the model leaves out or simplifies:
    - configuration loading, logging and printing, which change nothing
      that the programs compute;
    - bytes: a file is the table of its fields after tokenising, with the
      detected encoding kept beside it as a label; quoting, blank lines and
      the renaming of duplicate header names by pandas are not modelled,
      and a data line with more fields than the header is a parse error;
    - regular expressions: the three patterns of [sanitize_error_message]
      are matched on ASCII text;
    - the S3 listing returns every key under the prefix in one page. *)

From Stdlib Require Import String Ascii List Bool Arith PeanoNat Lia.
From Stdlib Require Sorted OrderedTypeEx.
Import ListNotations.
Local Open Scope list_scope.
Local Open Scope string_scope.

(* ===================================================================== *)
(** * Python strings and values *)
(* ===================================================================== *)

Module Py.

(** The three kinds of cell value that occur in the data frames of the
    two programs: a [str], the float [nan] that pandas uses for a missing
    cell, and [None]. *)
Inductive value : Type :=
| PStr (s : string)
| PNaN
| PNone.

Definition value_eqb (a b : value) : bool :=
  match a, b with
  | PStr s, PStr t => String.eqb s t
  | PNaN, PNaN => true
  | PNone, PNone => true
  | _, _ => false
  end.

(** [str(v)] *)
Definition str (v : value) : string :=
  match v with
  | PStr s => s
  | PNaN => "nan"
  | PNone => "None"
  end.

(** [isinstance(v, float)]: [nan] is the only numeric value around. *)
Definition is_numeric (v : value) : bool :=
  match v with PNaN => true | _ => false end.

(** [sep.join(parts)] *)
Fixpoint join (sep : string) (parts : list string) : string :=
  match parts with
  | [] => ""
  | [p] => p
  | p :: rest => p ++ sep ++ join sep rest
  end.

(** [s.startswith(p)] *)
Fixpoint startswith (p s : string) : bool :=
  match p, s with
  | EmptyString, _ => true
  | String a p', String b s' => Ascii.eqb a b && startswith p' s'
  | String _ _, EmptyString => false
  end.

(** [s.endswith(p)] *)
Definition endswith (p s : string) : bool :=
  Nat.leb (String.length p) (String.length s) &&
  String.eqb (substring (String.length s - String.length p) (String.length p) s) p.

(** [s.replace(old, new)] for a non-empty [old]: scanning from the left,
    every non-overlapping occurrence of [old] is replaced.  [skip] counts
    the characters of a matched occurrence that are still to be dropped. *)
Fixpoint replace_from (old new s : string) (skip : nat) : string :=
  match s with
  | EmptyString => EmptyString
  | String c s' =>
      match skip with
      | S k => replace_from old new s' k
      | O =>
          if startswith old s
          then new ++ replace_from old new s' (String.length old - 1)
          else String c (replace_from old new s' 0)
      end
  end.

(** With an empty [old] Python puts [new] before every character and at
    the end. *)
Fixpoint intersperse (new s : string) : string :=
  match s with
  | EmptyString => new
  | String c s' => new ++ String c (intersperse new s')
  end.

Definition replace (old new s : string) : string :=
  match old with
  | EmptyString => intersperse new s
  | _ => replace_from old new s 0
  end.

(** [s.replace(old, new, 1)]: only the leftmost occurrence. *)
Fixpoint replace_first (old new s : string) : string :=
  match s with
  | EmptyString => match old with EmptyString => new | _ => EmptyString end
  | String c s' =>
      if startswith old s
      then new ++ substring (String.length old) (String.length s) s
      else String c (replace_first old new s')
  end.

(** [s.split(sep)] for a non-empty [sep]; [cur] is the piece being
    collected. *)
Fixpoint split_from (sep s cur : string) (skip : nat) : list string :=
  match s with
  | EmptyString => [cur]
  | String c s' =>
      match skip with
      | S k => split_from sep s' cur k
      | O =>
          if startswith sep s
          then cur :: split_from sep s' EmptyString (String.length sep - 1)
          else split_from sep s' (cur ++ String c EmptyString) 0
      end
  end.

Definition split (sep s : string) : list string := split_from sep s EmptyString 0.

(** [s.split(sep)[0]]; a split never returns the empty list. *)
Definition split_head (sep s : string) : string := hd EmptyString (split sep s).

(** Index of the rightmost occurrence of [sep] in [s]. *)
Fixpoint rfind (sep s : string) : option nat :=
  match s with
  | EmptyString => None
  | String c s' =>
      match rfind sep s' with
      | Some i => Some (S i)
      | None => if startswith sep s then Some 0 else None
      end
  end.

(** [s.rsplit(sep, 1)]: at most one split, at the rightmost [sep]. *)
Definition rsplit1 (sep s : string) : list string :=
  match rfind sep s with
  | Some i =>
      [substring 0 i s;
       substring (i + String.length sep) (String.length s) s]
  | None => [s]
  end.

(** [Path(p).name] for a key that does not end with a slash. *)
Definition basename (p : string) : string := last (rsplit1 "/" p) p.

(** [sorted(set(xs))] on strings: duplicates removed, code-point order. *)
Fixpoint insert_sorted (x : string) (xs : list string) : list string :=
  match xs with
  | [] => [x]
  | y :: ys =>
      if String.eqb x y then xs
      else if String.ltb x y then x :: xs
      else y :: insert_sorted x ys
  end.

Definition sorted_set (xs : list string) : list string :=
  fold_right insert_sorted [] xs.

Definition mem (x : string) (xs : list string) : bool :=
  existsb (String.eqb x) xs.

End Py.

Import Py.

(* ===================================================================== *)
(** * Exceptions *)
(* ===================================================================== *)

(** What [client.wsdl.types.deserialize(fault.detail[0])['explanation']]
    finds in a SOAP fault: an explanation text, or nothing to subscript
    (the expression itself then raises). *)
Inductive FaultDetail : Type :=
| Explanation (text : string)
| NoExplanation.

(** The exception classes that the two programs raise, catch or let pass.
    A constructor stands for the class and its subclasses:
    [ValueError] also for pandas' [EmptyDataError] and [ParserError] and
    for [UnicodeDecodeError], [OSError] also for [FileNotFoundError],
    [RequestsConnectionError] also for [ConnectTimeout] and [SSLError].
    [OtherException] is any class that no handler names apart from
    [except Exception] (zeep's [TransportError], boto3's
    [S3UploadFailedError], [KeyError], [TypeError], ...). *)
Inductive exn : Type :=
| ValueError (msg : string)
| PyodbcError (msg : string)
| ClientError (msg : string)
| OSError (msg : string)
| ZeepFault (detail : FaultDetail)
| RequestsTimeout
| RequestsConnectionError
| S3OperationError (msg : string)
| WebServiceError (msg : string)
| FileProcessingError (msg : string)
| OtherException (cls msg : string).

(* ===================================================================== *)
(** * The world outside the program *)
(* ===================================================================== *)

(** The local directory triplet. *)
Inductive Dir : Type := Pending | Processed | ErrorDir.

Definition Dir_eqb (a b : Dir) : bool :=
  match a, b with
  | Pending, Pending | Processed, Processed | ErrorDir, ErrorDir => true
  | _, _ => false
  end.

(** A delimited file after tokenising: one list of fields per non-blank
    line, quoting removed.  The text encoding is kept beside it. *)
Definition Table : Type := list (list string).

Record File : Type := mkFile { f_encoding : string; f_table : Table }.

Definition LocalPath : Type := (Dir * string)%type.

Definition LocalPath_eqb (p q : LocalPath) : bool :=
  Dir_eqb (fst p) (fst q) && String.eqb (snd p) (snd q).

(** Every call that leaves the program. *)
Inductive Op : Type :=
| FsMkdir (d : Dir)
| FsRead (p : LocalPath)
| FsWrite (p : LocalPath) (f : File)
| FsUnlink (p : LocalPath)
| FsMove (p : LocalPath) (dest : Dir)
| S3List (prefix : string)
| S3Download (key : string) (p : LocalPath)
| S3Upload (p : LocalPath) (key : string)
| S3Delete (key : string)
| DbConnect
| DbExecute (data : list value)
| DbCommit
| DbExit (clean : bool)
| WsClient
| WsImport (csv_record : string).

(** An attempted operation and how it ended: [None] for a normal return,
    [Some e] when it raised [e]. *)
Definition Event : Type := (Op * option exn)%type.

Definition Oracle : Type := list Event -> Op -> option exn.

Record World : Type := mkWorld {
  oracle : Oracle;
  trace : list Event;                      (* oldest first *)
  fs : list (LocalPath * File);            (* local files *)
  s3 : list (string * File);               (* objects of the bucket, by key *)
  db_pending : list (list value);          (* rows of the open transaction *)
  db_committed : list (list value)         (* rows made durable *)
}.

Definition with_trace (w : World) (t : list Event) : World :=
  mkWorld (oracle w) t (fs w) (s3 w) (db_pending w) (db_committed w).
Definition with_fs (w : World) (x : list (LocalPath * File)) : World :=
  mkWorld (oracle w) (trace w) x (s3 w) (db_pending w) (db_committed w).
Definition with_s3 (w : World) (x : list (string * File)) : World :=
  mkWorld (oracle w) (trace w) (fs w) x (db_pending w) (db_committed w).
Definition with_db (w : World) (p c : list (list value)) : World :=
  mkWorld (oracle w) (trace w) (fs w) (s3 w) p c.

Fixpoint fs_lookup (p : LocalPath) (l : list (LocalPath * File)) : option File :=
  match l with
  | [] => None
  | (q, f) :: l' => if LocalPath_eqb p q then Some f else fs_lookup p l'
  end.

Definition fs_remove (p : LocalPath) (l : list (LocalPath * File)) :=
  filter (fun e => negb (LocalPath_eqb p (fst e))) l.

Definition fs_store (p : LocalPath) (f : File) (l : list (LocalPath * File)) :=
  (p, f) :: fs_remove p l.

Fixpoint s3_lookup (k : string) (l : list (string * File)) : option File :=
  match l with
  | [] => None
  | (q, f) :: l' => if String.eqb k q then Some f else s3_lookup k l'
  end.

Definition s3_remove (k : string) (l : list (string * File)) :=
  filter (fun e => negb (String.eqb k (fst e))) l.

Definition s3_store (k : string) (f : File) (l : list (string * File)) :=
  (k, f) :: s3_remove k l.

(* ===================================================================== *)
(** * The monad of the programs: state and exceptions *)
(* ===================================================================== *)

Inductive Result (A : Type) : Type :=
| Ok (a : A)
| Raise (e : exn).
Arguments Ok {A} a.
Arguments Raise {A} e.

(** The state survives an exception: what was done before a [raise] stays
    done. *)
Definition M (A : Type) : Type := World -> Result A * World.

Definition ret {A} (a : A) : M A := fun w => (Ok a, w).

Definition raise {A} (e : exn) : M A := fun w => (Raise e, w).

Definition bind {A B} (c : M A) (k : A -> M B) : M B :=
  fun w =>
    match c w with
    | (Ok a, w') => k a w'
    | (Raise e, w') => (Raise e, w')
    end.

Notation "x <- c ;; k" := (bind c (fun x => k))
  (at level 61, c at next level, right associativity).
Notation "c ;;; k" := (bind c (fun _ => k))
  (at level 61, right associativity).

(** [try: c  except <classes>: h]. The handler table [h] answers [None] for
    a class that no [except] clause names: the exception goes on. *)
Definition try_except {A} (c : M A) (h : exn -> option (M A)) : M A :=
  fun w =>
    match c w with
    | (Ok a, w') => (Ok a, w')
    | (Raise e, w') =>
        match h e with
        | Some handler => handler w'
        | None => (Raise e, w')
        end
    end.

Definition lift {A} (r : Result A) : M A := fun w => (r, w).

(** One operation: the oracle decides first, then the state ([check]); the
    attempt is logged with its verdict, and [effect] applies on a normal
    return only. *)
Definition perform (op : Op) (check : World -> option exn)
    (effect : World -> World) : M unit :=
  fun w =>
    let verdict :=
      match oracle w (trace w) op with
      | Some e => Some e
      | None => check w
      end in
    let w' := with_trace w (trace w ++ [(op, verdict)])%list in
    match verdict with
    | Some e => (Raise e, w')
    | None => (Ok tt, effect w')
    end.

Definition no_check : World -> option exn := fun _ => None.
Definition no_effect : World -> World := fun w => w.

(** [for x in xs: body(x)] *)
Fixpoint for_each {A} (xs : list A) (body : A -> M unit) : M unit :=
  match xs with
  | [] => ret tt
  | x :: rest => body x ;;; for_each rest body
  end.

(** ** File system and bucket *)

Definition path_exists (p : LocalPath) : M bool :=
  fun w => (Ok (match fs_lookup p (fs w) with Some _ => true | None => false end), w).

Definition missing_file (p : LocalPath) (w : World) : option exn :=
  match fs_lookup p (fs w) with
  | Some _ => None
  | None => Some (OSError ("No such file or directory: " ++ snd p))
  end.

Definition fs_mkdir (d : Dir) : M unit := perform (FsMkdir d) no_check no_effect.

(** Opening and reading a local file. *)
Definition fs_read (p : LocalPath) : M File :=
  perform (FsRead p) (missing_file p) no_effect ;;;
  fun w =>
    match fs_lookup p (fs w) with
    | Some f => (Ok f, w)
    | None => (Raise (OSError ("No such file or directory: " ++ snd p)), w)
    end.

Definition fs_write (p : LocalPath) (f : File) : M unit :=
  perform (FsWrite p f) no_check (fun w => with_fs w (fs_store p f (fs w))).

(** [Path.unlink()] *)
Definition fs_unlink (p : LocalPath) : M unit :=
  perform (FsUnlink p) (missing_file p) (fun w => with_fs w (fs_remove p (fs w))).

(** [shutil.move(src, dest_dir / src.name)] *)
Definition fs_move (p : LocalPath) (dest : Dir) : M unit :=
  perform (FsMove p dest) (missing_file p)
    (fun w =>
       match fs_lookup p (fs w) with
       | Some f => with_fs w (fs_store (dest, snd p) f (fs_remove p (fs w)))
       | None => w
       end).

(** [list_objects_v2(Bucket, Prefix)]: the keys under the prefix. *)
Definition s3_list_objects (prefix : string) : M (list string) :=
  perform (S3List prefix) no_check no_effect ;;;
  fun w => (Ok (filter (startswith prefix) (map fst (s3 w))), w).

Definition missing_key (k : string) (w : World) : option exn :=
  match s3_lookup k (s3 w) with
  | Some _ => None
  | None => Some (ClientError ("404 Not Found: " ++ k))
  end.

Definition s3_download (key : string) (p : LocalPath) : M unit :=
  perform (S3Download key p) (missing_key key)
    (fun w =>
       match s3_lookup key (s3 w) with
       | Some f => with_fs w (fs_store p f (fs w))
       | None => w
       end).

Definition s3_upload (p : LocalPath) (key : string) : M unit :=
  perform (S3Upload p key) (missing_file p)
    (fun w =>
       match fs_lookup p (fs w) with
       | Some f => with_s3 w (s3_store key f (s3 w))
       | None => w
       end).

(** [delete_object] answers normally for a key that is not there. *)
Definition s3_delete (key : string) : M unit :=
  perform (S3Delete key) no_check (fun w => with_s3 w (s3_remove key (s3 w))).

(** ** Database driver (pyodbc, autocommit off) *)

Definition db_connect : M unit :=
  perform DbConnect no_check (fun w => with_db w [] (db_committed w)).

(** [cursor.execute(statement, data)]: a statement that raises leaves the
    open transaction as it was. *)
Definition db_execute (data : list value) : M unit :=
  perform (DbExecute data) no_check
    (fun w => with_db w (db_pending w ++ [data])%list (db_committed w)).

(** [connection.commit()] *)
Definition db_commit : M unit :=
  perform DbCommit no_check
    (fun w => with_db w [] (db_committed w ++ db_pending w)%list).

(** Leaving [with pyodbc.connect(...) as connection]: pyodbc ends the
    transaction, by a commit after a clean body and by a rollback after
    an exception. *)
Definition db_exit (clean : bool) : M unit :=
  perform (DbExit clean) no_check
    (fun w =>
       if clean then with_db w [] (db_committed w ++ db_pending w)%list
       else with_db w [] (db_committed w)).

Definition with_connection {A} (body : M A) : M A :=
  db_connect ;;;
  fun w =>
    match body w with
    | (Ok a, w1) =>
        match db_exit true w1 with
        | (Ok _, w2) => (Ok a, w2)
        | (Raise e, w2) => (Raise e, w2)
        end
    | (Raise e, w1) =>
        match db_exit false w1 with
        | (Ok _, w2) => (Raise e, w2)
        | (Raise e', w2) => (Raise e', w2)
        end
    end.

(** ** SOAP client *)

(** [Client(wsdl_url, transport=...)]: the service definition is fetched. *)
Definition ws_client : M unit := perform WsClient no_check no_effect.

(** The call of [client.service.importCSVRecords] with the record. *)
Definition ws_importCSVRecords (csv_record : string) : M unit :=
  perform (WsImport csv_record) no_check no_effect.

(* ===================================================================== *)
(** * pandas: reading and writing delimited files *)
(* ===================================================================== *)

Module Pandas.

(** Column labels: names from a header row, positions with [header=None]. *)
Inductive Label : Type :=
| Name (s : string)
| Pos (n : nat).

Record DataFrame : Type := mkFrame {
  columns : list Label;
  rows : list (list value)
}.

(** The tokens that [read_csv] takes for a missing value by default. *)
Definition na_values : list string :=
  [""; "#N/A"; "#N/A N/A"; "#NA"; "-1.#IND"; "-1.#QNAN"; "-NaN"; "-nan";
   "1.#IND"; "1.#QNAN"; "<NA>"; "N/A"; "NA"; "NULL"; "NaN"; "None";
   "n/a"; "nan"; "null"].

(** With [dtype=str] a cell is its text, or [nan] for a missing-value
    token. *)
Definition read_cell (tok : string) : value :=
  if mem tok na_values then PNaN else PStr tok.

(** A line with fewer fields than the frame is wide is filled with
    [nan]; one with more fields is a [ParserError]. *)
Definition fit (width : nat) (line : list string) : Result (list value) :=
  if Nat.ltb width (List.length line)
  then Raise (ValueError "Error tokenizing data")
  else Ok (map read_cell line ++ repeat PNaN (width - List.length line))%list.

Fixpoint fit_all (width : nat) (lines : Table) : Result (list (list value)) :=
  match lines with
  | [] => Ok []
  | l :: ls =>
      match fit width l with
      | Raise e => Raise e
      | Ok r =>
          match fit_all width ls with
          | Raise e => Raise e
          | Ok rs => Ok (r :: rs)
          end
      end
  end.

(** [pd.read_csv(path, dtype=str, ...)] on the tokens of the file, with
    the first line as header or with [header=None]. *)
Definition read_csv (header : bool) (t : Table) : Result DataFrame :=
  match t with
  | [] => Raise (ValueError "No columns to parse from file")
  | first :: body =>
      if header
      then match fit_all (List.length first) body with
           | Raise e => Raise e
           | Ok rs => Ok (mkFrame (map Name first) rs)
           end
      else match fit_all (List.length first) t with
           | Raise e => Raise e
           | Ok rs => Ok (mkFrame (map Pos (seq 0 (List.length first))) rs)
           end
  end.

(** [dataframe.replace({np.nan: None})] *)
Definition nan_to_none (v : value) : value :=
  match v with PNaN => PNone | _ => v end.

Definition replace_nan_none (df : DataFrame) : DataFrame :=
  mkFrame (columns df) (map (map nan_to_none) (rows df)).

(** [row[col]] on a row of the frame. *)
Fixpoint row_get (cols : list Label) (row : list value) (col : string)
  : option value :=
  match cols, row with
  | Name c :: cols', v :: row' =>
      if String.eqb c col then Some v else row_get cols' row' col
  | _ :: cols', _ :: row' => row_get cols' row' col
  | _, _ => None
  end.

(** [pd.DataFrame(records)] on a list of lists: every record becomes a
    row, short ones are filled up with missing cells. *)
Definition width_of (records : list (list value)) : nat :=
  fold_right (fun r m => Nat.max (List.length r) m) 0 records.

Definition frame_of_records (records : list (list value)) : list (list value) :=
  let w := width_of records in
  map (fun r => r ++ repeat PNone (w - List.length r))%list records.

(** A cell as [to_csv] writes it: missing cells as the empty field. *)
Definition write_cell (v : value) : string :=
  match v with
  | PStr s => s
  | PNaN | PNone => ""
  end.

(** [pd.DataFrame(records).to_csv(path, header=False, index=False,
    encoding=encoding)] *)
Definition to_csv (p : LocalPath) (records : list (list value))
    (encoding : string) : M unit :=
  fs_write p (mkFile encoding (map (map write_cell) (frame_of_records records))).

End Pandas.
Import Pandas.

(** [detect_file_encoding]: the file is opened and read, the detected
    encoding is returned. Both programs define it the same way. *)
Definition detect_file_encoding (p : LocalPath) : M string :=
  f <- fs_read p ;; ret (f_encoding f).

(** [pd.read_csv] on a local path. *)
Definition pd_read_csv (p : LocalPath) (header : bool) : M DataFrame :=
  f <- fs_read p ;; lift (read_csv header (f_table f)).

(* ===================================================================== *)
(** * dataCED.py *)
(* ===================================================================== *)

Module CED.

(** ** Configuration (the defaults of [Config]) *)

Definition s3_pending_folder : string := "prod/inbound/cede_interface/pending/".
Definition s3_processed_folder : string := "prod/inbound/cede_interface/processed/".
Definition s3_error_folder : string := "prod/inbound/cede_interface/error/".

Definition COLUMNS_TO_USE : list string := [
  "PID"; "STATUS"; "IMPORT_TS"; "BATCH_NAME"; "CREATION_TS"; "RECORD_TYPE";
  "RECORD_UNIQUE_ID"; "PRIM_SYS"; "ACCESS_CODE"; "BASE_COMPANY"; "EC";
  "CURRENCY"; "DTL_AMT"; "AS_AT"; "OCC_YR"; "UW_YEAR"; "AC_YEAR";
  "AC_REF_PERIOD"; "AC_START_DATE"; "AC_END_DATE"; "DATE_OF_BOOKING";
  "BOOKING_YEAR"; "BOOKING_YEAR_2"; "BOOKING_YEAR_3"; "BOOKING_PERIOD";
  "BOOKING_PERIOD2"; "BOOKING_PERIOD3"; "DTL_COMMENT"; "CEDE";
  "WS_IDENTIFIER"; "WS_TITLE"; "IS_ESTIMATE"; "UDF_TXT1"; "UDF_TXT2";
  "UDF_TXT3"; "POLICY_ID"; "POLICY_TITLE"; "POLICY_FORMER_ID"; "IP_START";
  "IP_END"; "ORIGINAL_IP_START"; "ORIGINAL_IP_END"; "AUTOMATIC_PROT_ASS";
  "REASON_FOR_MANPROT"; "SECTION_EXT_ID"; "SECTION_NAME"; "ATT_FROM";
  "ATT_TO"; "SEC_CURRENCY"; "MAIN_LIMIT"; "MAIN_LIMIT_TYPE"; "TOTAL_GROSS_P";
  "SHARE_PCT"; "COUNTRY"; "COUNTRY_GRP"; "STATE"; "STATE_GRP"; "MCOB"; "COB";
  "SCOB"; "ADDL_CLASS_1"; "ADDL_CLASS_2"; "ADDL_CLASS_3"; "ADDL_CLASS_4";
  "ADDL_CLASS_5"; "ADDL_CLASS_6"; "ADDL_CLASS_7"; "ADDL_CLASS_8";
  "ADDL_CLASS_9"; "ADDL_CLASS_10"; "ADDL_CLASS_11"; "REP_UNIT_1";
  "REP_UNIT_2"; "REP_UNIT_3"; "ORIGIN_OF_BUS"; "PERIL"; "CLAIM_ID";
  "HL_LOSS_ID"; "HL_LOSS_NAME"; "DOL_BEGIN"; "DOL_END"; "INCL_IN_REC_ORDER";
  "ACC_AS_OF_DATE"; "CAUSE_OF_LOSS"; "CONSEQUENCE_OF_LOSS"; "CLAIM_NAME";
  "RISKNAME"; "CLAIM_UDF_TXT1"; "CLAIM_UDF_TXT2"; "CLAIM_UDF_TXT3";
  "PC_LIMIT_INFO1"; "PC_LIMIT_INFO1_TYPE"; "PC_LIMIT_INFO2";
  "PC_LIMIT_INFO2_TYPE"; "PC_DECL_ID"; "PC_DECL_NAME"; "PC_DECL_ATT_FROM";
  "PC_DECL_ATT_TO"; "PC_DECL_MAIN_L"; "PC_DECL_CURR"; "PC_INSURED_ID";
  "PC_INSURED_NAME"; "PC_RUG"; "PC_RUG_NAME"; "PC_RUG_SEQUENT"; "PC_IO_ID";
  "PC_IO_NAME"; "PC_IO_TYPE"; "PC_CLAIM_BASIS"; "LF_TRANS_TYPE"; "LF_SAR";
  "LF_XTRA_MORTAL_PCT"; "LF_OTHER_XTRA_PREM"; "LF_CALC_BASIS"; "LF_AGE";
  "LF_RETIREMENT_AGE"; "LF_SMOKER_STATUS"; "LF_OCCUPATION_CLS";
  "LF_RISK_CLASS"; "LF_DISABILITY_CLS"; "LF_ESCALATION"; "LF_IAB_IDENTIFIER";
  "LF_IAB_BEGIN_DATE"; "LF_IO_PERSON_ID"; "LF_IO_PERSON_NAME"; "LF_IO_ALIAS";
  "LF_IO_DT_OF_BIRTH"; "LF_IO_BIRTH_COUNTRY"; "LF_IO_NATIONALITY";
  "LF_IO_PERSON_STATUS"; "LF_IO_GENDER"; "REASON_FOR_CHANGE";
  "CLAIM_ADVISED_DT"; "AUTO_LGT_CL_PT_ASS"; "REA_LGT_CL_MANPT"; "UDF_PCT1";
  "UDF_PCT2"; "UDF_PCT3"; "UDF_PCT4"; "UDF_TXT4"; "FSK_UDF_REF_DATA";
  "FRK_UDF_REF_DATA"; "UDF_AMT1_AMT"; "FK_UDF_AMT1_CY"; "UDF_AMT2_AMT";
  "FK_UDF_AMT2_CY"; "UDF_AMT3_AMT"; "FK_UDF_AMT3_CY"; "UDF_AMT4_AMT";
  "FK_UDF_AMT4_CY"; "UDF_AMT5_AMT"; "FK_UDF_AMT5_CY"; "CLMS_TRIG_DT";
  "CLAIMS_TRIG"; "CLAIMANT"; "PC_ASSISTANCE_KEY"; "PC_NUM_OF_INSRD_OBJ";
  "CLAIM_STATUS"; "HL_DOL_BEGIN"; "HL_DOL_END"; "PC_RUG_PROP_GRP";
  "PC_RUG_AUTOMATIC_PROT_ASS"; "PC_RUG_TOP_LOCATION";
  "PC_RUG_REASON_FOR_MANPROT"; "PC_ACCU_EXCL"; "PC_PA_INHERIT_EXCL";
  "CLAIM_SHORT_DESC"; "FK_ORDER"; "FK_LIGHT_DETAIL"; "VERSION"
]%string.

Definition INSERT_COLUMN_ORDER : list string := [
  "IMPORT_TS"; "CREATION_TS"; "RECORD_TYPE"; "DTL_AMT"; "AS_AT"; "OCC_YR";
  "UW_YEAR"; "AC_YEAR"; "AC_START_DATE"; "AC_END_DATE"; "DATE_OF_BOOKING";
  "BOOKING_YEAR"; "BOOKING_YEAR_2"; "BOOKING_YEAR_3"; "CEDE"; "IS_ESTIMATE";
  "IP_START"; "IP_END"; "ORIGINAL_IP_START"; "ORIGINAL_IP_END";
  "AUTOMATIC_PROT_ASS"; "ATT_FROM"; "ATT_TO"; "MAIN_LIMIT"; "TOTAL_GROSS_P";
  "SHARE_PCT"; "DOL_BEGIN"; "DOL_END"; "INCL_IN_REC_ORDER"; "ACC_AS_OF_DATE";
  "PC_LIMIT_INFO1"; "PC_LIMIT_INFO2"; "PC_DECL_ATT_FROM"; "PC_DECL_ATT_TO";
  "PC_DECL_MAIN_L"; "PC_RUG_SEQUENT"; "LF_SAR"; "LF_XTRA_MORTAL_PCT";
  "LF_OTHER_XTRA_PREM"; "LF_AGE"; "LF_RETIREMENT_AGE"; "LF_IAB_BEGIN_DATE";
  "LF_IO_DT_OF_BIRTH"; "CLAIM_ADVISED_DT"; "AUTO_LGT_CL_PT_ASS"; "UDF_PCT1";
  "UDF_PCT2"; "UDF_PCT3"; "UDF_PCT4"; "FSK_UDF_REF_DATA"; "UDF_AMT1_AMT";
  "FK_UDF_AMT1_CY"; "UDF_AMT2_AMT"; "FK_UDF_AMT2_CY"; "UDF_AMT3_AMT";
  "FK_UDF_AMT3_CY"; "UDF_AMT4_AMT"; "FK_UDF_AMT4_CY"; "UDF_AMT5_AMT";
  "FK_UDF_AMT5_CY"; "CLMS_TRIG_DT"; "PC_NUM_OF_INSRD_OBJ"; "HL_DOL_BEGIN";
  "HL_DOL_END"; "PC_RUG_PROP_GRP"; "PC_RUG_AUTOMATIC_PROT_ASS";
  "PC_RUG_TOP_LOCATION"; "PC_ACCU_EXCL"; "PC_PA_INHERIT_EXCL"; "VERSION";
  "PID"; "STATUS"; "BATCH_NAME"; "RECORD_UNIQUE_ID"; "PRIM_SYS";
  "ACCESS_CODE"; "BASE_COMPANY"; "EC"; "CURRENCY"; "AC_REF_PERIOD";
  "BOOKING_PERIOD"; "BOOKING_PERIOD2"; "BOOKING_PERIOD3"; "DTL_COMMENT";
  "WS_IDENTIFIER"; "WS_TITLE"; "UDF_TXT1"; "UDF_TXT2"; "UDF_TXT3";
  "POLICY_ID"; "POLICY_TITLE"; "POLICY_FORMER_ID"; "REASON_FOR_MANPROT";
  "SECTION_EXT_ID"; "SECTION_NAME"; "SEC_CURRENCY"; "MAIN_LIMIT_TYPE";
  "COUNTRY"; "COUNTRY_GRP"; "STATE"; "STATE_GRP"; "MCOB"; "COB"; "SCOB";
  "ADDL_CLASS_1"; "ADDL_CLASS_2"; "ADDL_CLASS_3"; "ADDL_CLASS_4";
  "ADDL_CLASS_5"; "ADDL_CLASS_6"; "ADDL_CLASS_7"; "ADDL_CLASS_8";
  "ADDL_CLASS_9"; "ADDL_CLASS_10"; "ADDL_CLASS_11"; "REP_UNIT_1";
  "REP_UNIT_2"; "REP_UNIT_3"; "ORIGIN_OF_BUS"; "PERIL"; "CLAIM_ID";
  "HL_LOSS_ID"; "HL_LOSS_NAME"; "CAUSE_OF_LOSS"; "CONSEQUENCE_OF_LOSS";
  "CLAIM_NAME"; "RISKNAME"; "CLAIM_UDF_TXT1"; "CLAIM_UDF_TXT2";
  "CLAIM_UDF_TXT3"; "PC_LIMIT_INFO1_TYPE"; "PC_LIMIT_INFO2_TYPE";
  "PC_DECL_ID"; "PC_DECL_NAME"; "PC_DECL_CURR"; "PC_INSURED_ID";
  "PC_INSURED_NAME"; "PC_RUG"; "PC_RUG_NAME"; "PC_IO_ID"; "PC_IO_NAME";
  "PC_IO_TYPE"; "PC_CLAIM_BASIS"; "LF_TRANS_TYPE"; "LF_CALC_BASIS";
  "LF_SMOKER_STATUS"; "LF_OCCUPATION_CLS"; "LF_RISK_CLASS";
  "LF_DISABILITY_CLS"; "LF_ESCALATION"; "LF_IAB_IDENTIFIER";
  "LF_IO_PERSON_ID"; "LF_IO_PERSON_NAME"; "LF_IO_ALIAS";
  "LF_IO_BIRTH_COUNTRY"; "LF_IO_NATIONALITY"; "LF_IO_PERSON_STATUS";
  "LF_IO_GENDER"; "REASON_FOR_CHANGE"; "REA_LGT_CL_MANPT"; "UDF_TXT4";
  "FRK_UDF_REF_DATA"; "CLAIMS_TRIG"; "CLAIMANT"; "PC_ASSISTANCE_KEY";
  "CLAIM_STATUS"; "PC_RUG_REASON_FOR_MANPROT"; "CLAIM_SHORT_DESC";
  "FK_ORDER"; "FK_LIGHT_DETAIL"
]%string.

(** ** Utility functions *)

(** The INSERT statement, with one question mark per column. *)
Definition build_insert_statement : string :=
  let columns := join ", " INSERT_COLUMN_ORDER in
  let placeholders := join ", " (repeat "?" (List.length INSERT_COLUMN_ORDER)) in
  "INSERT INTO CEDE_INTERFACE (" ++ columns ++ ") VALUES (" ++ placeholders ++ ")".

Definition lower (c : ascii) : ascii :=
  let n := nat_of_ascii c in
  if Nat.leb 65 n && Nat.leb n 90 then ascii_of_nat (n + 32) else c.

(** Prefix test under [re.IGNORECASE], on ASCII letters. *)
Fixpoint istartswith (p s : string) : bool :=
  match p, s with
  | EmptyString, _ => true
  | String a p', String b s' => Ascii.eqb (lower a) (lower b) && istartswith p' s'
  | String _ _, EmptyString => false
  end.

(** The characters that end a redacted run: white space, semicolon and
    the two quote characters. *)
Definition stop_char (c : ascii) : bool :=
  let n := nat_of_ascii c in
  (Nat.leb 9 n && Nat.leb n 13) || (Nat.leb 28 n && Nat.leb n 32)
  || Nat.eqb n 59 || Nat.eqb n 39 || Nat.eqb n 34.

Fixpoint run_length (s : string) : nat :=
  match s with
  | EmptyString => 0
  | String c s' => if stop_char c then 0 else S (run_length s')
  end.

Fixpoint drop (n : nat) (s : string) : string :=
  match n, s with
  | S k, String _ s' => drop k s'
  | _, _ => s
  end.

(** Length of the match at the front of [s] of the pattern: the literal
    [lit], then one of [=] and [:] when [sep], then one or more
    characters that do not end a run. *)
Definition match_at (lit : string) (sep : bool) (s : string) : option nat :=
  if istartswith lit s then
    let rest := drop (String.length lit) s in
    if sep then
      match rest with
      | String c r =>
          if Ascii.eqb c "="%char || Ascii.eqb c ":"%char then
            match run_length r with
            | O => None
            | n => Some (String.length lit + 1 + n)
            end
          else None
      | EmptyString => None
      end
    else
      match run_length rest with
      | O => None
      | n => Some (String.length lit + n)
      end
  else None.

(** [re.sub(pattern, repl, s, flags=re.IGNORECASE)] for such a pattern. *)
Fixpoint sub_from (lit : string) (sep : bool) (repl s : string) (skip : nat)
  : string :=
  match s with
  | EmptyString => EmptyString
  | String c s' =>
      match skip with
      | S k => sub_from lit sep repl s' k
      | O =>
          match match_at lit sep s with
          | Some n => repl ++ sub_from lit sep repl s' (n - 1)
          | None => String c (sub_from lit sep repl s' 0)
          end
      end
  end.

Definition re_sub (lit : string) (sep : bool) (repl s : string) : string :=
  sub_from lit sep repl s 0.

(** [sanitize_error_message], on [str(error)]. *)
Definition sanitize_error_message (error_str : string) : string :=
  let s0 := replace "\" "/" error_str in
  let s1 := re_sub "C:/" false "[PATH]" s0 in
  let s2 := re_sub "password" true "password=[REDACTED]" s1 in
  re_sub "pwd" true "pwd=[REDACTED]" s2.

(** [repr] of a list of plain names, as an f-string prints it. *)
Definition repr_list (xs : list string) : string :=
  "[" ++ join ", " (map (fun x => "'" ++ x ++ "'") xs) ++ "]".

Definition missing_columns (df : DataFrame) (required_columns : list string)
  : list string :=
  sorted_set
    (filter (fun c => negb (existsb
               (fun l => match l with Name n => String.eqb n c | Pos _ => false end)
               (columns df)))
            required_columns).

Definition validate_csv_columns (df : DataFrame) (required_columns : list string)
  : M unit :=
  match missing_columns df required_columns with
  | [] => ret tt
  | missing =>
      raise (ValueError ("CSV file is missing required columns: "
                         ++ repr_list missing))
  end.

(** ** S3Manager *)

Definition reraise_ClientError {A} (c : M A) : M A :=
  try_except c
    (fun e => match e with ClientError _ => Some (raise e) | _ => None end).

Definition list_pending_files : M (list string) :=
  reraise_ClientError
    (keys <- s3_list_objects s3_pending_folder ;;
     ret (filter (fun key => negb (endswith "/" key)) keys)).

Definition download_file (s3_key : string) (local_path : LocalPath) : M unit :=
  reraise_ClientError (s3_download s3_key local_path).

Definition upload_file (local_path : LocalPath) (s3_key : string) : M unit :=
  reraise_ClientError (s3_upload local_path s3_key).

Definition delete_file (s3_key : string) : M unit :=
  reraise_ClientError (s3_delete s3_key).

Fixpoint download_each (pending_files : list string)
    (downloaded : list (LocalPath * string)) : M (list (LocalPath * string)) :=
  match pending_files with
  | [] => ret downloaded
  | s3_key :: rest =>
      let filename := basename s3_key in
      let local_path := (Pending, filename) in
      download_file s3_key local_path ;;;
      download_each rest (downloaded ++ [(local_path, s3_key)])%list
  end.

Definition download_all_pending_files : M (list (LocalPath * string)) :=
  pending_files <- list_pending_files ;;
  match pending_files with
  | [] => ret []
  | _ => fs_mkdir Pending ;;; download_each pending_files []
  end.

Definition upload_result_file (local_path : LocalPath) (is_error : bool) : M unit :=
  let filename := snd local_path in
  let s3_key :=
    if is_error then s3_error_folder ++ filename
    else s3_processed_folder ++ filename in
  upload_file local_path s3_key.

(** ** DatabaseProcessor *)

(** [None] on success, the sanitized message on a [pyodbc.Error]. *)
Definition execute_insert (data : list value) : M (option string) :=
  try_except
    (db_execute data ;;; ret None)
    (fun e => match e with
              | PyodbcError msg => Some (ret (Some (sanitize_error_message msg)))
              | _ => None
              end).

(** [tuple(row[col] for col in INSERT_COLUMN_ORDER)] *)
Fixpoint build_data (cols : list Label) (row : list value) (order : list string)
  : M (list value) :=
  match order with
  | [] => ret []
  | col :: rest =>
      match row_get cols row col with
      | None => raise (OtherException "KeyError" col)
      | Some v => vs <- build_data cols row rest ;; ret (v :: vs)
      end
  end.

(** The loop over [dataframe.iterrows()], with the two lists it fills. *)
Fixpoint insert_rows (cols : list Label) (todo : list (list value))
    (successful_records failed_records : list (list value))
  : M (list (list value) * list (list value)) :=
  match todo with
  | [] => ret (successful_records, failed_records)
  | row :: rest =>
      data <- build_data cols row INSERT_COLUMN_ORDER ;;
      error <- execute_insert data ;;
      match error with
      | Some msg =>
          insert_rows cols rest successful_records
            (failed_records ++ [row ++ [PStr msg]])%list
      | None =>
          insert_rows cols rest (successful_records ++ [row])%list failed_records
      end
  end.

(** The names of the two artifacts, as the writers and [main] compute
    them. *)
Definition error_filename (original_filename : string) : string :=
  replace "." "_error." original_filename.

Definition success_filename (original_filename : string) : string :=
  replace "." "_ok." original_filename.

(** The two writers put the header at the front of the list they are
    given; the list is the caller's, so they return it as they leave
    it. *)
Definition _write_error_file (original_filename : string)
    (records : list (list value)) (encoding : string) : M (list (list value)) :=
  match records with
  | [] => ret records
  | _ =>
      let error_path := (ErrorDir, error_filename original_filename) in
      let records' := (map PStr (COLUMNS_TO_USE ++ ["ERROR"])%list) :: records in
      to_csv error_path records' encoding ;;;
      ret records'
  end.

Definition _write_success_file (original_filename : string)
    (records : list (list value)) (encoding : string) : M (list (list value)) :=
  match records with
  | [] => ret records
  | _ =>
      let success_path := (Processed, success_filename original_filename) in
      let records' := (map PStr COLUMNS_TO_USE) :: records in
      to_csv success_path records' encoding ;;;
      ret records'
  end.

Definition reraise_PyodbcError {A} (c : M A) : M A :=
  try_except c
    (fun e => match e with PyodbcError _ => Some (raise e) | _ => None end).

(** The body of [process_file] up to the end of the [try] block: the two
    lists as the loop leaves them. *)
Definition submit_batch (df : DataFrame)
  : M (list (list value) * list (list value)) :=
  reraise_PyodbcError
    (with_connection
       (groups <- insert_rows (columns df) (rows df) [] [] ;;
        db_commit ;;;
        ret groups)).

Definition process_file (file_path : LocalPath) : M bool :=
  let file_name := snd file_path in
  encoding <- detect_file_encoding file_path ;;
  dataframe <- pd_read_csv file_path true ;;
  validate_csv_columns dataframe INSERT_COLUMN_ORDER ;;;
  let dataframe := replace_nan_none dataframe in
  groups <- submit_batch dataframe ;;
  let '(successful_records, failed_records) := groups in
  failed_records <- _write_error_file file_name failed_records encoding ;;
  _write_success_file file_name successful_records encoding ;;;
  ret (Nat.eqb (List.length failed_records) 0).

(** ** Main execution *)

(** The four [except] clauses of the loop body: report and [continue]. *)
Definition per_file_handler (e : exn) : option (M unit) :=
  match e with
  | ValueError _ => Some (ret tt)
  | PyodbcError _ => Some (ret tt)
  | ClientError _ => Some (ret tt)
  | OSError _ => Some (ret tt)
  | _ => None
  end.

(** [if path.exists(): s3_manager.upload_result_file(path, is_error)] *)
Definition upload_if_exists (p : LocalPath) (is_error : bool) : M unit :=
  present <- path_exists p ;;
  if present then upload_result_file p is_error else ret tt.

(** The [try] block of the loop body, without its handlers. *)
Definition handle_file (local_path : LocalPath) (s3_key : string) : M unit :=
  process_file local_path ;;;
  let success_path := (Processed, success_filename (snd local_path)) in
  upload_if_exists success_path false ;;;
  let error_path := (ErrorDir, error_filename (snd local_path)) in
  upload_if_exists error_path true ;;;
  delete_file s3_key ;;;
  fs_unlink local_path.

Definition loop_body (item : LocalPath * string) : M unit :=
  try_except (handle_file (fst item) (snd item)) per_file_handler.

Definition main : M unit :=
  try_except
    (downloaded_files <- download_all_pending_files ;;
     match downloaded_files with
     | [] => ret tt
     | _ => for_each downloaded_files loop_body
     end)
    (fun _ => Some (ret tt)).

End CED.

(* ===================================================================== *)
(** * dataXRT.py *)
(* ===================================================================== *)

Module XRT.

(** ** Configuration: the three prefixes of the bucket *)

Record AppConfig : Type := mkConfig {
  s3_pending_folder : string;
  s3_error_folder : string;
  s3_processed_folder : string
}.

Definition default_config : AppConfig :=
  mkConfig "noprod/inbound/exchange_rate/pending/"
           "noprod/inbound/exchange_rate/error/"
           "noprod/inbound/exchange_rate/processed/".

(** ** S3Handler *)

(** [except ClientError as error: raise S3OperationError(msg) from error] *)
Definition as_S3OperationError {A} (msg : string) (c : M A) : M A :=
  try_except c
    (fun e => match e with
              | ClientError _ => Some (raise (S3OperationError msg))
              | _ => None
              end).

Definition nonempty (s : string) : bool :=
  match s with EmptyString => false | _ => true end.

Definition list_files (folder_prefix : string) : M (list string) :=
  as_S3OperationError ("Failed to list files in " ++ folder_prefix)
    (keys <- s3_list_objects folder_prefix ;;
     ret (filter nonempty
            (map (replace_first folder_prefix "")
               (filter (fun key => negb (String.eqb key folder_prefix)
                                   && negb (endswith "/" key)) keys)))).

Definition download_file (s3_folder filename : string) (local_dir : Dir)
  : M LocalPath :=
  as_S3OperationError ("Failed to download " ++ filename)
    (fs_mkdir local_dir ;;;
     let local_path := (local_dir, filename) in
     let s3_key := s3_folder ++ filename in
     s3_download s3_key local_path ;;;
     ret local_path).

Definition upload_file (local_path : LocalPath) (s3_folder : string) : M string :=
  as_S3OperationError ("Failed to upload " ++ snd local_path)
    (let s3_key := s3_folder ++ snd local_path in
     s3_upload local_path s3_key ;;;
     ret s3_key).

Definition delete_file (s3_folder filename : string) : M unit :=
  as_S3OperationError ("Failed to delete " ++ filename ++ " from S3")
    (let s3_key := s3_folder ++ filename in
     s3_delete s3_key).

(** ** File operations *)

(** [except Exception as error: raise FileProcessingError(msg) from error] *)
Definition as_FileProcessingError {A} (msg : string) (c : M A) : M A :=
  try_except c (fun _ => Some (raise (FileProcessingError msg))).

Definition move_file (source_path : LocalPath) (dest_dir : Dir)
  : M (option LocalPath) :=
  as_FileProcessingError ("Failed to move " ++ snd source_path)
    (fs_mkdir dest_dir ;;;
     let dest_path := (dest_dir, snd source_path) in
     present <- path_exists source_path ;;
     if present
     then fs_move source_path dest_dir ;;; ret (Some dest_path)
     else ret None).

Definition delete_local_file (file_path : LocalPath) : M unit :=
  as_FileProcessingError ("Failed to delete " ++ snd file_path)
    (present <- path_exists file_path ;;
     if present then fs_unlink file_path else ret tt).

(** ** Web service *)

Definition connection_failed : string :=
  "SICS server connection attempt has failed. Please try again.".

(** The [except] clauses of [call_exchange_rate_service]. In the first
    one the name [client] is read: it is bound only once the client has
    been built, and the fault has to carry an explanation. *)
Definition service_handler (client_bound : bool) (e : exn)
  : option (M (option string)) :=
  match e with
  | ZeepFault detail =>
      if client_bound then
        match detail with
        | Explanation text => Some (ret (Some text))
        | NoExplanation => Some (raise (OtherException "TypeError" "fault.detail"))
        end
      else Some (raise (OtherException "UnboundLocalError" "client"))
  | RequestsTimeout | RequestsConnectionError => Some (ret (Some connection_failed))
  | _ => None
  end.

(** [None] on success, the error message otherwise. *)
Definition call_exchange_rate_service (csv_record : string) : M (option string) :=
  built <- try_except (ws_client ;;; ret None)
             (fun e => match service_handler false e with
                       | Some h => Some (r <- h ;; ret (Some r))
                       | None => None
                       end) ;;
  match built with
  | Some answer => ret answer
  | None =>
      try_except (ws_importCSVRecords csv_record ;;; ret None)
        (service_handler true)
  end.

(** ** Exchange rate processing *)

Record ProcessingResult : Type := mkResult {
  success_count : nat;
  error_count : nat;
  success_file : option LocalPath;
  error_file : option LocalPath
}.

(** The output file name of [_save_and_upload_results]. *)
Definition output_filename (original_filename suffix : string) : string :=
  match rsplit1 "." original_filename with
  | [base; ext] => base ++ suffix ++ "." ++ ext
  | _ => original_filename ++ suffix
  end.

Definition _save_and_upload_results (records : list (list value))
    (original_filename suffix : string) (local_pending_dir local_dest_dir : Dir)
    (s3_folder : string) (encoding : string) : M (option LocalPath) :=
  let output_path := (local_pending_dir, output_filename original_filename suffix) in
  to_csv output_path records encoding ;;;
  upload_file output_path s3_folder ;;;
  move_file output_path local_dest_dir.

(** [if error_message:] a message counts when it is a non-empty text. *)
Definition truthy (m : option string) : bool :=
  match m with
  | Some s => nonempty s
  | None => false
  end.

(** The loop over [df.iterrows()], with the two lists it fills. *)
Fixpoint submit_rows (todo : list (list value))
    (success_records error_records : list (list value))
  : M (list (list value) * list (list value)) :=
  match todo with
  | [] => ret (success_records, error_records)
  | row :: rest =>
      let csv_record := join "," (map str row) in
      error_message <- call_exchange_rate_service csv_record ;;
      if truthy error_message then
        let text := match error_message with Some s => s | None => "" end in
        let error_row := (row ++ [PStr (split_head ". " text)])%list in
        submit_rows rest success_records (error_records ++ [error_row])%list
      else
        submit_rows rest (success_records ++ [row])%list error_records
  end.

(** One of the two blocks [if records: ...] that save and upload a group:
    the count and the final path that the block stores in the result, and
    the defaults of [ProcessingResult] when the group is empty. *)
Definition save_group (records : list (list value))
    (original_filename suffix : string) (local_dest_dir : Dir)
    (s3_folder : string) (encoding : string) : M (nat * option LocalPath) :=
  match records with
  | [] => ret (0, None)
  | _ =>
      f <- _save_and_upload_results records original_filename suffix
             Pending local_dest_dir s3_folder encoding ;;
      ret (List.length records, f)
  end.

Definition process_exchange_rate_file (file_path : LocalPath) (config : AppConfig)
  : M ProcessingResult :=
  as_FileProcessingError ("Failed to process " ++ snd file_path)
    (encoding <- detect_file_encoding file_path ;;
     df <- pd_read_csv file_path false ;;
     groups <- submit_rows (rows df) [] [] ;;
     let '(success_records, error_records) := groups in
     errors <- save_group error_records (snd file_path) "_error" ErrorDir
                 (s3_error_folder config) encoding ;;
     successes <- save_group success_records (snd file_path) "_ok" Processed
                    (s3_processed_folder config) encoding ;;
     ret (mkResult (fst successes) (fst errors) (snd successes) (snd errors))).

(** ** Main processing pipeline *)

Fixpoint download_each (config : AppConfig) (files_to_process : list string)
    (downloaded_files : list (string * LocalPath))
  : M (list (string * LocalPath)) :=
  match files_to_process with
  | [] => ret downloaded_files
  | filename :: rest =>
      local_path <- download_file (s3_pending_folder config) filename Pending ;;
      download_each config rest (downloaded_files ++ [(filename, local_path)])%list
  end.

(** The body of the loop over the downloaded files. *)
Definition handle_file (config : AppConfig) (item : string * LocalPath) : M unit :=
  let '(filename, local_path) := item in
  process_exchange_rate_file local_path config ;;;
  delete_file (s3_pending_folder config) filename ;;;
  delete_local_file local_path.

(** [except Exception as error: ...; raise] *)
Definition report_and_reraise {A} (c : M A) : M A :=
  try_except c (fun e => Some (raise e)).

Definition run_exchange_rate_pipeline (config : AppConfig) : M unit :=
  report_and_reraise
    (files_to_process <- list_files (s3_pending_folder config) ;;
     match files_to_process with
     | [] => ret tt
     | _ =>
         downloaded_files <- download_each config files_to_process [] ;;
         for_each downloaded_files (handle_file config)
     end).

End XRT.

(* ===================================================================== *)
(** * The vocabulary of the claims *)
(* ===================================================================== *)

(** The definitions that the statements and their proofs use: the sink
    variants and the partition of a batch, what the operations log, the
    shape of traces and artifacts, and the concrete files, oracles and
    worlds of the examples. The lemmas and theorems follow. *)

Local Open Scope list_scope.

(** A name part without a dot: a base name, or an extension. *)
Fixpoint no_dot (s : string) : bool :=
  match s with
  | EmptyString => true
  | String c s' => negb (Ascii.eqb c "."%char) && no_dot s'
  end.

(** The text before the leftmost occurrence of [sep]. *)
Fixpoint until (sep s : string) : string :=
  match s with
  | EmptyString => EmptyString
  | String c s' =>
      if startswith sep s then EmptyString else String c (until sep s')
  end.

(** The verdict on an operation: the oracle first, then the state. *)
Definition verdict (op : Op) (check : World -> option exn) (w : World) : option exn :=
  match oracle w (trace w) op with
  | Some e => Some e
  | None => check w
  end.

Definition logged (op : Op) (v : option exn) (w : World) : World :=
  with_trace w (trace w ++ [(op, v)]).

(** [w'] is a later state of the run that was in [w]: the oracle is the
    same, and the trace has grown by events that all satisfy [P]. *)
Definition later (P : Event -> Prop) (w w' : World) : Prop :=
  oracle w' = oracle w
  /\ exists evs, trace w' = trace w ++ evs /\ Forall P evs.

(** A state change that touches neither the oracle nor the trace. *)
Definition silent (effect : World -> World) : Prop :=
  forall w, oracle (effect w) = oracle w /\ trace (effect w) = trace w.

(** The oracle of [w] raises exceptions of [H] only. *)
Definition tame (H : exn -> Prop) (w : World) : Prop :=
  forall tr op e, oracle w tr op = Some e -> H e.

(** From a world whose oracle is tame, the computation logs events of [P]
    only and lets exceptions of [H] only out. *)
Definition obeys (H : exn -> Prop) (P : Event -> Prop) {A} (c : M A) : Prop :=
  forall w, tame H w ->
    later P w (snd (c w)) /\ (forall e, fst (c w) = Raise e -> H e).

(** The two sink variants. *)
Inductive Variant : Type := BulkInsert | RemoteCall.

(** The record loop of a variant, started on two empty groups. *)
Definition submit_all (v : Variant) (cols : list Label) (batch : list (list value))
  : M (list (list value) * list (list value)) :=
  match v with
  | BulkInsert => CED.insert_rows cols batch [] []
  | RemoteCall => XRT.submit_rows batch [] []
  end.

(** The partition that the specification describes: the batch is walked
    in order with one outcome per record, [None] for a success and
    [Some reason] for a failure; a record goes to the success group as it
    is, or to the failure group with the reason appended. *)
Fixpoint partition_by (batch : list (list value)) (outcomes : list (option string))
  : list (list value) * list (list value) :=
  match batch, outcomes with
  | row :: rest, o :: os =>
      let (successes, failures) := partition_by rest os in
      match o with
      | None => (row :: successes, failures)
      | Some reason => (successes, (row ++ [PStr reason]) :: failures)
      end
  | _, _ => ([], [])
  end.

(** A batch of two exchange rates and a service that is out of reach for
    the second one. *)
Definition two_rates : list (list value) :=
  [[PStr "USD"; PStr "EUR"; PStr "0.92"]; [PStr "GBP"; PStr "EUR"; PStr "1.17"]].

Definition gbp_times_out : Oracle :=
  fun _ op =>
    match op with
    | WsImport r => if startswith "GBP" r then Some RequestsTimeout else None
    | _ => None
    end.

Definition empty_world (o : Oracle) : World := mkWorld o [] [] [] [] [].

(** Submitting one record to the sink of a variant: the insert of the
    bulk variant, the service call of the remote variant on the record
    joined into one line. *)
Definition submit (v : Variant) (record : list value) : M (option string) :=
  match v with
  | BulkInsert => CED.execute_insert record
  | RemoteCall => XRT.call_exchange_rate_service (join "," (map str record))
  end.

(** The exceptions that the [except] clauses around an operation of the
    sink turn into an outcome. *)
Definition caught (v : Variant) (op : Op) (e : exn) : Prop :=
  match v, op with
  | BulkInsert, _ => exists msg, e = PyodbcError msg
  | RemoteCall, WsImport _ =>
      e = RequestsTimeout \/ e = RequestsConnectionError
      \/ exists text, e = ZeepFault (Explanation text)
  | RemoteCall, _ => e = RequestsTimeout \/ e = RequestsConnectionError
  end.

Definition transport_failure (e : exn) : Prop :=
  e = RequestsTimeout \/ e = RequestsConnectionError.

(** A service that answers with an HTTP error page: zeep raises its
    [TransportError], which is neither a fault nor a [requests] error. *)
Definition http_500 : Oracle :=
  fun _ op =>
    match op with
    | WsImport _ => Some (OtherException "zeep.exceptions.TransportError" "500")
    | _ => None
    end.

(** A service that answers with a SOAP fault that has no detail element:
    [fault.detail] is [None]. *)
Definition fault_without_detail : Oracle :=
  fun _ op =>
    match op with
    | WsImport _ => Some (ZeepFault NoExplanation)
    | _ => None
    end.

(** What the loop of the remote variant makes of the answer of the service
    call: no reason for [None] and for the empty message, the text before
    the first [". "] otherwise. *)
Definition recorded_reason (answer : option string) : option string :=
  match answer with
  | Some msg => if XRT.nonempty msg then Some (split_head ". " msg) else None
  | None => None
  end.

(** [answers] are the answers of the service call to the records of the
    batch, one after the other, in a run from [w] to [w']. *)
Inductive answered : list (list value) -> list (option string) -> World -> World -> Prop :=
  | answered_nil w : answered [] [] w w
  | answered_cons row rest a answers w w1 w2 :
    XRT.call_exchange_rate_service (join "," (map str row)) w = (Ok a, w1) ->
    answered rest answers w1 w2 ->
    answered (row :: rest) (a :: answers) w w2.

(** The values of a row in the order of the INSERT statement, when the
    row has them all. *)
Fixpoint project (cols : list Label) (row : list value) (order : list string)
  : option (list value) :=
  match order with
  | [] => Some []
  | col :: rest =>
      match row_get cols row col, project cols row rest with
      | Some v, Some vs => Some (v :: vs)
      | _, _ => None
      end
  end.

Definition data_of (cols : list Label) (row : list value) : list value :=
  match project cols row CED.INSERT_COLUMN_ORDER with
  | Some data => data
  | None => []
  end.

(** The outcome that [execute_insert] makes of the verdict on a
    statement. *)
Definition outcome_of (v : option exn) : option string :=
  match v with
  | Some (PyodbcError msg) => Some (CED.sanitize_error_message msg)
  | _ => None
  end.

(** The statements that went through. *)
Fixpoint accepted (datas : list (list value)) (verdicts : list (option exn))
  : list (list value) :=
  match datas, verdicts with
  | d :: ds, None :: vs => d :: accepted ds vs
  | _ :: ds, Some _ :: vs => accepted ds vs
  | _, _ => []
  end.

Definition connection_level (op : Op) : Prop :=
  op = DbConnect \/ op = DbCommit \/ exists clean, op = DbExit clean.

(** A frame with the columns of the table and two rows; the driver rejects
    the row whose PID is BAD. *)
Definition cede_frame : DataFrame :=
  mkFrame (map Name CED.COLUMNS_TO_USE)
    [map (fun _ => PStr "1") CED.COLUMNS_TO_USE;
     map (fun c => if String.eqb c "PID" then PStr "BAD" else PNone)
       CED.COLUMNS_TO_USE].

Definition rejects_bad_pid : Oracle :=
  fun _ op =>
    match op with
    | DbExecute data =>
        if existsb (value_eqb (PStr "BAD")) data
        then Some (PyodbcError "Conversion failed; pwd=secret")
        else None
    | _ => None
    end.

(** The required columns that the first line of a file does not have. *)
Definition header_lacks (required : list string) (f : File) : list string :=
  filter (fun c => negb (mem c (hd [] (f_table f)))) required.

(** The operations of the two sinks. *)
Definition sink_op (op : Op) : bool :=
  match op with
  | DbConnect | DbExecute _ | DbCommit | DbExit _ | WsClient | WsImport _ => true
  | _ => false
  end.

(** The message names the column: it has the name between quotes. *)
Definition names (msg c : string) : Prop :=
  exists pre post, msg = (pre ++ "'" ++ c ++ "'" ++ post)%string.

(** Processing the file at [p] fails with a schema error that names the
    missing columns; nothing comes back, and no operation of a sink is
    among the operations of the run. *)
Definition rejected {A} (process : LocalPath -> M A) (p : LocalPath) (w : World)
  (missing : list string) : Prop :=
  exists msg w' evs,
  process p w = (Raise (ValueError msg), w')
  /\ (forall c, In c missing -> names msg c)
  /\ trace w' = trace w ++ evs
  /\ Forall (fun ev => sink_op (fst ev) = false) evs.

(** A file of the remote variant with a header that lacks the column
    AMOUNT, and a world in which nothing fails. *)
Definition no_failure : Oracle := fun _ _ => None.

Definition id_only : File := mkFile "utf-8" [["ID"]; ["1"]].

Definition id_only_world : World :=
  mkWorld no_failure [] [((Pending, "rates.csv"), id_only)] [] [] [].

(** No restriction on exceptions or on events. *)
Definition any_exn : exn -> Prop := fun _ => True.
Definition any_event : Event -> Prop := fun _ => True.

(** The first operation of writing the group [records] is the write of a
    file that begins with the header row, the column list (and empty
    fields after it when a record is wider), and has one line per record
    after it. *)
Definition header_first_at {X} (header : list string)
  (write : list (list value) -> M X) (records : list (list value)) (w : World)
  : Prop :=
  exists p f v rest pad body,
  trace (snd (write records w)) = trace w ++ (FsWrite p f, v) :: rest
  /\ f_table f = (header ++ pad) :: body
  /\ Forall (fun cell => cell = EmptyString) pad
  /\ List.length body = List.length records.

(** The first operation of writing the group is the write of a file whose
    lines are the records, and nothing else. *)
Definition headerless_at {X} (write : list (list value) -> M X)
  (records : list (list value)) (w : World) : Prop :=
  exists p f v rest,
  trace (snd (write records w)) = trace w ++ (FsWrite p f, v) :: rest
  /\ f_table f = map (map write_cell) (frame_of_records records).

(** An event of the database that carries no [nan]. *)
Definition clean_event (ev : Event) : Prop :=
  match fst ev with
  | DbExecute data => Forall (fun v => v <> PNaN) data
  | _ => True
  end.

(** An exchange rate file with one line whose second field is empty. *)
Definition rate_with_gap : File := mkFile "utf-8" [["USD"; ""; "0.92"]].

Definition gap_world : World :=
  mkWorld no_failure [] [((Pending, "rates.csv"), rate_with_gap)] [] [] [].

(** The exception classes that the loop of dataCED.py catches per file. *)
Definition handled (e : exn) : Prop := CED.per_file_handler e <> None.

(** The body ran for every item, one after the other, and returned. *)
Inductive ran_each {A} (body : A -> M unit) : list A -> World -> World -> Prop :=
  | ran_nil w : ran_each body [] w w
  | ran_cons x rest w w1 w2 :
    body x w = (Ok tt, w1) ->
    ran_each body rest w1 w2 ->
    ran_each body (x :: rest) w w2.

(** The loop over the files of a variant, for files with these names in
    the pending prefix and the pending directory. *)
Definition process_all (v : Variant) (config : XRT.AppConfig) (filenames : list string)
  : M unit :=
  match v with
  | BulkInsert =>
    for_each (map (fun n => ((Pending, n), CED.s3_pending_folder ++ n)%string) filenames)
      CED.loop_body
  | RemoteCall =>
    for_each (map (fun n => (n, (Pending, n))) filenames) (XRT.handle_file config)
  end.

(** Two pending files; the first cannot be opened. *)
Definition one_rate : File := mkFile "utf-8" [["USD"; "EUR"; "0.92"]].

Definition first_unreadable : Oracle :=
  fun _ op =>
  match op with
  | FsRead p =>
      if LocalPath_eqb p (Pending, "a.csv")
      then Some (OSError "Permission denied: a.csv")
      else None
  | _ => None
  end.

Definition two_files_world : World :=
  mkWorld first_unreadable []
  [((Pending, "a.csv"), one_rate); ((Pending, "b.csv"), one_rate)]
  [("noprod/inbound/exchange_rate/pending/a.csv", one_rate);
   ("noprod/inbound/exchange_rate/pending/b.csv", one_rate)] [] [].






(** Reading, validating and submitting: the part of [process_file] before
    the two writers. *)
Definition ced_front (p : LocalPath)
  : M (string * (list (list value) * list (list value))) :=
  encoding <- detect_file_encoding p ;;
  dataframe <- pd_read_csv p true ;;
  CED.validate_csv_columns dataframe CED.INSERT_COLUMN_ORDER ;;;
  groups <- CED.submit_batch (replace_nan_none dataframe) ;;
  ret (encoding, groups).

Definition ced_writers (name : string)
    (x : string * (list (list value) * list (list value))) : M bool :=
  let '(encoding, (successful_records, failed_records)) := x in
  failed_records <- CED._write_error_file name failed_records encoding ;;
  CED._write_success_file name successful_records encoding ;;;
  ret (Nat.eqb (List.length failed_records) 0).







(** Handling one file in a variant: the body of the loop of the pipeline
    for the file [name] of the pending directory. In dataCED.py the key of
    the object comes with the file, in dataXRT.py it is the pending prefix
    followed by the name. *)
Definition handle (v : Variant) (config : XRT.AppConfig) (name key : string) : M unit :=
  match v with
  | BulkInsert => CED.handle_file (Pending, name) key
  | RemoteCall => XRT.handle_file config (name, (Pending, name))
  end.



(* ===================================================================== *)
(** * The vocabulary of the further properties *)
(* ===================================================================== *)

(** Notions used by the properties of the code that are proved after
    the claims: of the validation, the sanitizing of messages, the
    names of the artifacts, the local and remote files, and the order
    of the events of a run. *)

(** The number of occurrences of a character in a text. *)
Fixpoint count_char (c : ascii) (s : string) : nat :=
  match s with
  | EmptyString => 0
  | String a s' => (if Ascii.eqb a c then 1 else 0) + count_char c s'
  end.

(** Strictly before, in the order of the code points. *)
Definition str_lt (a b : string) : Prop := String.ltb a b = true.

(** The character occurs in the text. *)
Fixpoint has_char (c : ascii) (s : string) : bool :=
  match s with
  | EmptyString => false
  | String a s' => Ascii.eqb a c || has_char c s'
  end.







(** A file of the bulk variant with the columns of the table and two
    records; the second one has nothing but a PID, which the driver
    rejects. *)
Definition cede_file : File :=
  mkFile "utf-8"
    [CED.COLUMNS_TO_USE;
     map (fun _ => "1") CED.COLUMNS_TO_USE;
     map (fun c => if String.eqb c "PID" then "BAD" else "") CED.COLUMNS_TO_USE].

Definition cede_world : World :=
  mkWorld rejects_bad_pid [] [((Pending, "cede.csv"), cede_file)]
    [("prod/inbound/cede_interface/pending/cede.csv", cede_file)] [] [].

(** An insert that the driver rejected with a [pyodbc.Error]. *)
Definition rejection (ev : Event) : bool :=
  match ev with
  | (DbExecute _, Some (PyodbcError _)) => true
  | _ => false
  end.

Definition quiet (ev : Event) : Prop := rejection ev = false.

(** The local files other than [p] and [q] are in [w'] as they were in
    [w]. *)
Definition others_kept (p q : LocalPath) (w w' : World) : Prop :=
  forall r, r <> p -> r <> q -> fs_lookup r (fs w') = fs_lookup r (fs w).

(** The file that [to_csv] writes for a group of records. *)
Definition artifact (records : list (list value)) (encoding : string) : File :=
  mkFile encoding (map (map write_cell) (frame_of_records records)).



(** The keys that [list_pending_files] of dataCED.py keeps: those under
    the pending prefix that do not end with a slash. *)
Definition pending_keys (w : World) : list string :=
  filter (fun key => negb (endswith "/" key))
    (filter (startswith CED.s3_pending_folder) (map fst (s3 w))).

(** A bucket with two pending files and the marker of the folder. *)
Definition two_pending : World :=
  mkWorld no_failure [] []
    [("noprod/inbound/exchange_rate/pending/", mkFile "utf-8" []);
     ("noprod/inbound/exchange_rate/pending/a.csv", one_rate);
     ("noprod/inbound/exchange_rate/processed/old_ok.csv", one_rate);
     ("noprod/inbound/exchange_rate/pending/b.csv", one_rate);
     ("prod/inbound/cede_interface/pending/", mkFile "utf-8" []);
     ("prod/inbound/cede_interface/pending/x/a.csv", one_rate);
     ("prod/inbound/cede_interface/pending/b.csv", one_rate)] [] [].

(** The operations of the first phase of a run: listing the pending
    prefix, creating the local pending directory, downloading. *)
Definition fetch_op (op : Op) : bool :=
  match op with
  | S3List _ | S3Download _ _ | FsMkdir Pending => true
  | _ => false
  end.

Definition fetch_event (ev : Event) : Prop := fetch_op (fst ev) = true.

(** The operations of processing a file and cleaning up after it. *)
Definition work_event (ev : Event) : Prop := fetch_op (fst ev) = false.

Definition succeeded (ev : Event) : Prop := snd ev = None.

(** The computation logs operations of the first phase only, and when it
    returns, none of them has failed. *)
Definition fetches {A} (c : M A) : Prop :=
  forall w,
    oracle (snd (c w)) = oracle w
    /\ exists evs,
         trace (snd (c w)) = trace w ++ evs
         /\ Forall fetch_event evs
         /\ (forall a, fst (c w) = Ok a -> Forall succeeded evs).

(** The run of a variant, from the listing of the pending prefix on. *)
Definition pipeline (v : Variant) (config : XRT.AppConfig) : M unit :=
  match v with
  | BulkInsert => CED.main
  | RemoteCall => XRT.run_exchange_rate_pipeline config
  end.

(** The events of one attempt to submit a record: in the bulk variant the
    one insert of the values of the row; in the remote variant the
    building of a client and, when that went well, the one call with the
    record joined into a line. *)
Definition attempt (v : Variant) (cols : list Label) (row : list value)
  (evs : list Event) : Prop :=
  match v with
  | BulkInsert =>
      exists data o,
      project cols row CED.INSERT_COLUMN_ORDER = Some data
      /\ evs = [(DbExecute data, o)]
  | RemoteCall =>
      (exists e, evs = [(WsClient, Some e)])
      \/ (exists o, evs = [(WsClient, None); (WsImport (join "," (map str row)), o)])
  end.

(* ===================================================================== *)
(** * Lemmas and theorems *)
(* ===================================================================== *)

Local Open Scope string_scope.

(* ===================================================================== *)
(** * Facts about strings *)
(* ===================================================================== *)

Section StringFacts.

Lemma sapp_nil_r (s : string) : s ++ "" = s.
Proof. induction s as [|c s IH]; simpl; [reflexivity | now rewrite IH]. Qed.

Lemma sapp_assoc (a b c : string) : (a ++ b) ++ c = a ++ (b ++ c).
Proof. induction a as [|x a IH]; simpl; [reflexivity | now rewrite IH]. Qed.

Lemma slength_app (a b : string) :
  String.length (a ++ b) = String.length a + String.length b.
Proof. induction a as [|x a IH]; simpl; [reflexivity | now rewrite IH]. Qed.

Lemma startswith_app (p s : string) : startswith p (p ++ s) = true.
Proof.
  induction p as [|x p IH]; simpl; [reflexivity|].
  now rewrite Ascii.eqb_refl, IH.
Qed.

Lemma startswith_inv (p s : string) :
  startswith p s = true -> exists r, s = p ++ r.
Proof.
  revert s; induction p as [|x p IH]; intros s H.
  - now exists s.
  - destruct s as [|y s]; simpl in H; [discriminate|].
    apply andb_true_iff in H as [Hxy Hp].
    apply Ascii.eqb_eq in Hxy; subst y.
    destruct (IH _ Hp) as [r ->]. now exists r.
Qed.

Lemma substring_all (s : string) (m : nat) :
  String.length s <= m -> substring 0 m s = s.
Proof.
  revert m; induction s as [|c s IH]; intros [|m] H; simpl in *;
    try reflexivity; try lia.
  rewrite IH; [reflexivity | lia].
Qed.

Lemma substring_prefix (a b : string) :
  substring 0 (String.length a) (a ++ b) = a.
Proof.
  induction a as [|c a IH]; simpl.
  - now destruct b.
  - now rewrite IH.
Qed.

Lemma substring_skip (a b : string) (n m : nat) :
  substring (String.length a + n) m (a ++ b) = substring n m b.
Proof. induction a as [|c a IH]; simpl; [reflexivity | exact IH]. Qed.

End StringFacts.

(* ===================================================================== *)
(** * Artifact names *)
(* ===================================================================== *)

Section Naming.

Lemma rfind_no_dot (s : string) : no_dot s = true -> rfind "." s = None.
Proof.
  induction s as [|c s IH]; cbn [no_dot rfind]; [reflexivity|].
  intros H. apply andb_true_iff in H as [Hc Hs].
  rewrite (IH Hs). cbn [startswith]. rewrite Ascii.eqb_sym.
  apply negb_true_iff in Hc. now rewrite Hc.
Qed.

Lemma rfind_last_dot (base ext : string) :
  no_dot ext = true ->
  rfind "." (base ++ "." ++ ext) = Some (String.length base).
Proof.
  intros H. change ("." ++ ext) with (String "."%char ext).
  induction base as [|c base IH].
  - cbn [append rfind]. now rewrite (rfind_no_dot _ H).
  - cbn [append rfind String.length]. now rewrite IH.
Qed.

(** [rsplit('.', 1)] cuts at the last dot, so the suffix is put once,
    before the extension, however many dots the base has. *)
Lemma output_filename_inserts_once (base ext suffix : string) :
  no_dot ext = true ->
  XRT.output_filename (base ++ "." ++ ext) suffix = base ++ suffix ++ "." ++ ext.
Proof.
  intros H. unfold XRT.output_filename, rsplit1.
  rewrite (rfind_last_dot base ext H).
  rewrite substring_prefix, substring_skip.
  cbn [String.length append substring].
  rewrite substring_all; [reflexivity|].
  rewrite slength_app. cbn [String.length]. lia.
Qed.

Lemma replace_dot_from (new s : string) :
  replace_from "." new s 0
  = match s with
    | EmptyString => EmptyString
    | String c s' =>
        if Ascii.eqb c "."%char then new ++ replace_from "." new s' 0
        else String c (replace_from "." new s' 0)
    end.
Proof.
  destruct s as [|c s]; [reflexivity|].
  cbn [replace_from startswith String.length Nat.sub].
  rewrite Ascii.eqb_sym. destruct (Ascii.eqb c "."%char); reflexivity.
Qed.

Lemma replace_no_dot (new s : string) :
  no_dot s = true -> replace "." new s = s.
Proof.
  unfold replace. induction s as [|c s IH]; [reflexivity|].
  intros H. simpl in H. apply andb_true_iff in H as [Hc Hs].
  rewrite replace_dot_from. apply negb_true_iff in Hc. rewrite Hc.
  now rewrite (IH Hs).
Qed.

Lemma replace_dot_app (new a b : string) :
  replace "." new (a ++ b) = replace "." new a ++ replace "." new b.
Proof.
  unfold replace. induction a as [|c a IH]; [reflexivity|].
  cbn [append]. rewrite (replace_dot_from new (String c (a ++ b))),
    (replace_dot_from new (String c a)).
  destruct (Ascii.eqb c "."%char); rewrite IH.
  - now rewrite sapp_assoc.
  - reflexivity.
Qed.

(** [replace('.', suffix + '.')] is right for a name with one dot ... *)
Lemma ced_name_one_dot (base ext : string) :
  no_dot base = true -> no_dot ext = true ->
  CED.success_filename (base ++ "." ++ ext) = base ++ "_ok." ++ ext
  /\ CED.error_filename (base ++ "." ++ ext) = base ++ "_error." ++ ext.
Proof.
  intros Hb He. unfold CED.success_filename, CED.error_filename.
  rewrite !replace_dot_app, !(replace_no_dot _ base Hb), !(replace_no_dot _ ext He).
  split; reflexivity.
Qed.

(** ... and puts the suffix before every dot of a name with two. *)
Lemma ced_name_two_dots (a b ext : string) :
  no_dot a = true -> no_dot b = true -> no_dot ext = true ->
  CED.success_filename (a ++ "." ++ b ++ "." ++ ext)
  = a ++ "_ok." ++ b ++ "_ok." ++ ext.
Proof.
  intros Ha Hb He. unfold CED.success_filename.
  rewrite !replace_dot_app.
  rewrite (replace_no_dot _ a Ha), (replace_no_dot _ b Hb), (replace_no_dot _ ext He).
  reflexivity.
Qed.

End Naming.

(** C7. The derived artifact names of dataCED.py at the input file name
    [data.2024.csv]: the claim asks for [data.2024_ok.csv] and
    [data.2024_error.csv], the suffix once and before the extension; the
    code puts the suffix before each of the two dots. dataXRT.py gives the
    names of the claim. *)
Theorem C7_ced_suffix_before_every_dot :
  CED.success_filename "data.2024.csv" = "data_ok.2024_ok.csv"
  /\ CED.error_filename "data.2024.csv" = "data_error.2024_error.csv"
  /\ CED.success_filename "data.2024.csv" <> "data.2024" ++ "_ok" ++ "." ++ "csv"
  /\ CED.error_filename "data.2024.csv" <> "data.2024" ++ "_error" ++ "." ++ "csv"
  /\ XRT.output_filename "data.2024.csv" "_ok" = "data.2024_ok.csv"
  /\ XRT.output_filename "data.2024.csv" "_error" = "data.2024_error.csv".
Proof.
  repeat split; try reflexivity; vm_compute; discriminate.
Qed.

(* ===================================================================== *)
(** * The first sentence of a message *)
(* ===================================================================== *)

Section FirstSentence.

Lemma split_from_hd (sep s cur : string) :
  hd EmptyString (split_from sep s cur 0) = cur ++ until sep s.
Proof.
  revert cur; induction s as [|c s IH]; intros cur.
  - cbn. now rewrite sapp_nil_r.
  - cbn [split_from until]. destruct (startswith sep (String c s)).
    + cbn. now rewrite sapp_nil_r.
    + rewrite IH, sapp_assoc. reflexivity.
Qed.

Lemma split_head_until (sep s : string) : split_head sep s = until sep s.
Proof. unfold split_head, split. now rewrite split_from_hd. Qed.

Lemma until_prefix (sep s : string) :
  exists rest, s = until sep s ++ rest
               /\ (rest = EmptyString \/ startswith sep rest = true).
Proof.
  induction s as [|c s IH].
  - exists EmptyString. now split; [|left].
  - cbn [until]. destruct (startswith sep (String c s)) eqn:E.
    + exists (String c s). split; [reflexivity | now right].
    + destruct IH as [rest [Hs Hr]]. exists rest. split; [|exact Hr].
      cbn [append]. now rewrite <- Hs.
Qed.

Lemma until_leftmost (sep s pre post : string) :
  s = pre ++ sep ++ post -> String.length (until sep s) <= String.length pre.
Proof.
  revert pre; induction s as [|c s IH]; intros pre H.
  - cbn. lia.
  - cbn [until]. destruct (startswith sep (String c s)) eqn:E; [cbn; lia|].
    destruct pre as [|x pre].
    + cbn [append] in H. rewrite H, startswith_app in E. discriminate.
    + cbn [append] in H. injection H as -> H.
      cbn [String.length]. apply le_n_S. now apply IH.
Qed.

End FirstSentence.

(* ===================================================================== *)
(** * Reasoning about runs *)
(* ===================================================================== *)

Local Open Scope list_scope.

Lemma bind_run {A B} (c : M A) (k : A -> M B) (w : World) :
  bind c k w = match c w with
               | (Ok a, w') => k a w'
               | (Raise e, w') => (Raise e, w')
               end.
Proof. reflexivity. Qed.

Lemma bind_ok {A B} (c : M A) (k : A -> M B) (w w' : World) (a : A) :
  c w = (Ok a, w') -> bind c k w = k a w'.
Proof. intros H. now rewrite bind_run, H. Qed.

Lemma bind_raise {A B} (c : M A) (k : A -> M B) (w w' : World) (e : exn) :
  c w = (Raise e, w') -> bind c k w = (Raise e, w').
Proof. intros H. now rewrite bind_run, H. Qed.

Lemma try_run {A} (c : M A) (h : exn -> option (M A)) (w : World) :
  try_except c h w = match c w with
                     | (Ok a, w') => (Ok a, w')
                     | (Raise e, w') =>
                         match h e with
                         | Some handler => handler w'
                         | None => (Raise e, w')
                         end
                     end.
Proof. reflexivity. Qed.

Lemma perform_run (op : Op) check effect (w : World) :
  perform op check effect w
  = match verdict op check w with
    | Some e => (Raise e, logged op (verdict op check w) w)
    | None => (Ok tt, effect (logged op None w))
    end.
Proof.
  unfold perform, verdict, logged.
  destruct (oracle w (trace w) op); [reflexivity|].
  destruct (check w); reflexivity.
Qed.

Section Later.

Lemma later_refl P w : later P w w.
Proof. split; [reflexivity|]. exists []. now rewrite app_nil_r. Qed.

Lemma later_trans P w1 w2 w3 :
  later P w1 w2 -> later P w2 w3 -> later P w1 w3.
Proof.
  intros [O1 [e1 [T1 F1]]] [O2 [e2 [T2 F2]]]. split; [congruence|].
  exists (e1 ++ e2). split.
  - now rewrite T2, T1, app_assoc.
  - now apply Forall_app.
Qed.

Lemma later_weaken (P Q : Event -> Prop) w w' :
  (forall ev, P ev -> Q ev) -> later P w w' -> later Q w w'.
Proof.
  intros HPQ [O [evs [T F]]]. split; [exact O|].
  exists evs. split; [exact T|]. eapply Forall_impl; eauto.
Qed.

Lemma later_perform P op check effect w :
  silent effect ->
  (forall v, P (op, v)) ->
  later P w (snd (perform op check effect w)).
Proof.
  intros Hs HP. rewrite perform_run.
  destruct (verdict op check w) as [e|]; cbn [snd].
  - split; [reflexivity|]. exists [(op, Some e)]. split; [reflexivity|].
    constructor; [apply HP | constructor].
  - destruct (Hs (logged op None w)) as [Ho Ht]. split; [exact Ho|].
    exists [(op, None)]. split; [exact Ht|].
    constructor; [apply HP | constructor].
Qed.

End Later.

(** ** Which operations a computation performs, which exceptions it lets out *)

Section Obeys.

Variable H : exn -> Prop.      (* the exceptions that may come out *)
Variable P : Event -> Prop.    (* the events that may be logged *)

Lemma tame_later w w' : later P w w' -> tame H w -> tame H w'.
Proof. intros [O _] T tr op e. rewrite O. apply T. Qed.

Lemma obeys_ret {A} (a : A) : obeys H P (ret a).
Proof. intros w _. split; [apply later_refl | discriminate]. Qed.

Lemma obeys_raise {A} (e : exn) : H e -> obeys H P (@raise A e).
Proof.
  intros He w _. split; [apply later_refl|].
  cbn. intros e' [= <-]. exact He.
Qed.

Lemma obeys_lift {A} (r : Result A) :
  (forall e, r = Raise e -> H e) -> obeys H P (lift r).
Proof. intros Hr w _. split; [apply later_refl | exact Hr]. Qed.

Lemma obeys_state {A} (f : World -> A) : obeys H P (fun w => (Ok (f w), w)).
Proof. intros w _. split; [apply later_refl | discriminate]. Qed.

(** The continuation has to behave on the values that [c] can return. *)
Lemma obeys_bind {A B} (c : M A) (k : A -> M B) :
  obeys H P c ->
  (forall a, (exists w w', c w = (Ok a, w')) -> obeys H P (k a)) ->
  obeys H P (bind c k).
Proof.
  intros Hc Hk w T. rewrite bind_run.
  destruct (Hc w T) as [L R].
  destruct (c w) as [[a|e] w1] eqn:E; cbn [fst snd] in *.
  - destruct (Hk a (ex_intro _ w (ex_intro _ w1 E)) w1 (tame_later _ _ L T))
      as [L2 R2].
    split; [eapply later_trans; eauto | exact R2].
  - split; [exact L|]. intros e' [= <-]. now apply R.
Qed.

Lemma obeys_try {A} (c : M A) (h : exn -> option (M A)) :
  obeys H P c ->
  (forall e handler, h e = Some handler ->
     (exists w w', c w = (Raise e, w')) -> obeys H P handler) ->
  obeys H P (try_except c h).
Proof.
  intros Hc Hh w T. rewrite try_run.
  destruct (Hc w T) as [L R].
  destruct (c w) as [[a|e] w1] eqn:E; cbn [fst snd] in *.
  - split; [exact L | discriminate].
  - destruct (h e) as [handler|] eqn:Eh.
    + destruct (Hh e handler Eh (ex_intro _ w (ex_intro _ w1 E)) w1
                  (tame_later _ _ L T)) as [L2 R2].
      split; [eapply later_trans; eauto | exact R2].
    + split; [exact L | exact R].
Qed.

Lemma obeys_perform op check effect :
  silent effect ->
  (forall v, P (op, v)) ->
  (forall w e, check w = Some e -> H e) ->
  obeys H P (perform op check effect).
Proof.
  intros Hs HP Hc w T. split; [now apply later_perform|].
  rewrite perform_run. unfold verdict.
  destruct (oracle w (trace w) op) as [e0|] eqn:Eo.
  - cbn. intros e [= <-]. eapply T; eauto.
  - destruct (check w) as [e0|] eqn:Ec.
    + cbn. intros e [= <-]. eapply Hc; eauto.
    + discriminate.
Qed.

Lemma obeys_for_each {A} (xs : list A) (body : A -> M unit) :
  (forall x, In x xs -> obeys H P (body x)) -> obeys H P (for_each xs body).
Proof.
  induction xs as [|x xs IH]; intros Hb; cbn [for_each].
  - apply obeys_ret.
  - apply obeys_bind.
    + apply Hb. now left.
    + intros _ _. apply IH. intros y Hy. apply Hb. now right.
Qed.

End Obeys.

(* ===================================================================== *)
(** * The partition of a batch *)
(* ===================================================================== *)

Section Partition.

Lemma partition_by_count batch outcomes :
  List.length outcomes = List.length batch ->
  List.length (fst (partition_by batch outcomes))
  + List.length (snd (partition_by batch outcomes)) = List.length batch.
Proof.
  revert outcomes; induction batch as [|row rest IH]; intros [|o os] Hl;
    cbn in *; try reflexivity; try discriminate.
  injection Hl as Hl. specialize (IH os Hl).
  destruct (partition_by rest os) as [s f].
  destruct o; cbn in *; lia.
Qed.

Lemma insert_rows_partition cols todo :
  forall s0 f0 w s f w',
    CED.insert_rows cols todo s0 f0 w = (Ok (s, f), w') ->
    exists outcomes,
      List.length outcomes = List.length todo
      /\ s = s0 ++ fst (partition_by todo outcomes)
      /\ f = f0 ++ snd (partition_by todo outcomes).
Proof.
  induction todo as [|row rest IH]; intros s0 f0 w s f w' Hrun.
  - cbn in Hrun. injection Hrun as <- <- _. exists [].
    now rewrite !app_nil_r.
  - cbn [CED.insert_rows] in Hrun. rewrite bind_run in Hrun.
    destruct (CED.build_data cols row CED.INSERT_COLUMN_ORDER w)
      as [[data|e] w1]; [|discriminate].
    rewrite bind_run in Hrun.
    destruct (CED.execute_insert data w1) as [[[msg|]|e] w2]; [| |discriminate].
    + destruct (IH _ _ _ _ _ _ Hrun) as [os [Hl [Hs Hf]]].
      exists (Some msg :: os). cbn [partition_by List.length].
      destruct (partition_by rest os) as [ps pf]. cbn [fst snd] in *.
      split; [now rewrite Hl|]. split; [exact Hs|].
      now rewrite Hf, <- app_assoc.
    + destruct (IH _ _ _ _ _ _ Hrun) as [os [Hl [Hs Hf]]].
      exists (None :: os). cbn [partition_by List.length].
      destruct (partition_by rest os) as [ps pf]. cbn [fst snd] in *.
      split; [now rewrite Hl|]. split; [|exact Hf].
      now rewrite Hs, <- app_assoc.
Qed.

Lemma submit_rows_partition todo :
  forall s0 f0 w s f w',
    XRT.submit_rows todo s0 f0 w = (Ok (s, f), w') ->
    exists outcomes,
      List.length outcomes = List.length todo
      /\ s = s0 ++ fst (partition_by todo outcomes)
      /\ f = f0 ++ snd (partition_by todo outcomes).
Proof.
  induction todo as [|row rest IH]; intros s0 f0 w s f w' Hrun.
  - cbn in Hrun. injection Hrun as <- <- _. exists [].
    now rewrite !app_nil_r.
  - cbn [XRT.submit_rows] in Hrun. rewrite bind_run in Hrun.
    destruct (XRT.call_exchange_rate_service (join "," (map str row)) w)
      as [[answer|e] w1]; [|discriminate].
    destruct (XRT.truthy answer).
    + destruct (IH _ _ _ _ _ _ Hrun) as [os [Hl [Hs Hf]]].
      eexists (Some _ :: os). cbn [partition_by List.length].
      destruct (partition_by rest os) as [ps pf]. cbn [fst snd] in *.
      split; [now rewrite Hl|]. split; [exact Hs|].
      rewrite Hf, <- app_assoc. reflexivity.
    + destruct (IH _ _ _ _ _ _ Hrun) as [os [Hl [Hs Hf]]].
      exists (None :: os). cbn [partition_by List.length].
      destruct (partition_by rest os) as [ps pf]. cbn [fst snd] in *.
      split; [now rewrite Hl|]. split; [|exact Hf].
      now rewrite Hs, <- app_assoc.
Qed.

End Partition.

(** C1. For either sink variant and every batch: when the record loop has
    gone through the batch, the two groups are the partition of the batch
    by one outcome per record, so every record is in exactly one of them,
    and the two counts add up to the size of the batch. *)
Theorem C1_partition_complete (v : Variant) (cols : list Label)
    (batch successes failures : list (list value)) (w w' : World) :
  submit_all v cols batch w = (Ok (successes, failures), w') ->
  (exists outcomes,
      List.length outcomes = List.length batch
      /\ (successes, failures) = partition_by batch outcomes)
  /\ List.length successes + List.length failures = List.length batch.
Proof.
  intros Hrun.
  assert (exists outcomes,
             List.length outcomes = List.length batch
             /\ (successes, failures) = partition_by batch outcomes) as Hp.
  { destruct v; cbn [submit_all] in Hrun.
    - destruct (insert_rows_partition _ _ _ _ _ _ _ _ Hrun) as [os [Hl [Hs Hf]]].
      exists os. split; [exact Hl|]. cbn in Hs, Hf. subst.
      now destruct (partition_by batch os).
    - destruct (submit_rows_partition _ _ _ _ _ _ _ Hrun) as [os [Hl [Hs Hf]]].
      exists os. split; [exact Hl|]. cbn in Hs, Hf. subst.
      now destruct (partition_by batch os). }
  split; [exact Hp|].
  destruct Hp as [os [Hl Heq]].
  pose proof (partition_by_count batch os Hl) as Hc.
  rewrite <- Heq in Hc. exact Hc.
Qed.

Lemma C1_partition_complete_witness :
  exists successes failures w',
    submit_all RemoteCall [] two_rates (empty_world gbp_times_out)
    = (Ok (successes, failures), w')
    /\ List.length successes + List.length failures = List.length two_rates.
Proof.
  eexists _, _, _.
  assert (forall s f w' (E : submit_all RemoteCall [] two_rates
                               (empty_world gbp_times_out) = (Ok (s, f), w')),
             submit_all RemoteCall [] two_rates (empty_world gbp_times_out)
             = (Ok (s, f), w')
             /\ List.length s + List.length f = List.length two_rates) as Hw.
  { intros s f w' E. split; [exact E|].
    exact (proj2 (C1_partition_complete RemoteCall [] two_rates s f _ w' E)). }
  apply Hw. vm_compute. reflexivity.
Defined.

(** ** What the operations of the sinks do *)

Section SinkRuns.

Lemma db_execute_run data w :
  db_execute data w
  = match oracle w (trace w) (DbExecute data) with
    | Some e => (Raise e, logged (DbExecute data) (Some e) w)
    | None =>
        (Ok tt,
         let w1 := logged (DbExecute data) None w in
         with_db w1 (db_pending w1 ++ [data]) (db_committed w1))
    end.
Proof.
  unfold db_execute. rewrite perform_run. unfold verdict, no_check.
  now destruct (oracle w (trace w) (DbExecute data)).
Qed.

Lemma ws_client_run w :
  ws_client w
  = match oracle w (trace w) WsClient with
    | Some e => (Raise e, logged WsClient (Some e) w)
    | None => (Ok tt, logged WsClient None w)
    end.
Proof.
  unfold ws_client. rewrite perform_run. unfold verdict, no_check.
  now destruct (oracle w (trace w) WsClient).
Qed.

Lemma ws_import_run r w :
  ws_importCSVRecords r w
  = match oracle w (trace w) (WsImport r) with
    | Some e => (Raise e, logged (WsImport r) (Some e) w)
    | None => (Ok tt, logged (WsImport r) None w)
    end.
Proof.
  unfold ws_importCSVRecords. rewrite perform_run. unfold verdict, no_check.
  now destruct (oracle w (trace w) (WsImport r)).
Qed.

End SinkRuns.

(* ===================================================================== *)
(** * The submit boundary *)
(* ===================================================================== *)

(** The failures that the handlers of the submit operation name become
    outcomes. For either variant: when the sink raises only a
    [pyodbc.Error], or a timeout or a connection error, or during the call
    of the service a fault that carries an explanation, the call returns
    an outcome; and after a timeout or a connection error the remote
    variant answers with its fixed message. *)
Lemma handled_failures_give_outcome (v : Variant) (record : list value) (w : World) :
  (forall tr op e, oracle w tr op = Some e -> caught v op e) ->
  exists outcome w' evs,
    submit v record w = (Ok outcome, w')
    /\ trace w' = trace w ++ evs
    /\ (v = RemoteCall ->
        forall op e, In (op, Some e) evs -> transport_failure e ->
                     outcome = Some XRT.connection_failed).
Proof.
  intros Hc. destruct v; cbn [submit].
  - unfold CED.execute_insert. rewrite try_run, bind_run, db_execute_run.
    destruct (oracle w (trace w) (DbExecute record)) as [e|] eqn:Eo.
    + destruct (Hc _ _ _ Eo) as [msg ->].
      eexists _, _, [_]. split; [reflexivity|]. split; [reflexivity|].
      discriminate.
    + eexists _, _, [_]. split; [reflexivity|]. split; [reflexivity|].
      discriminate.
  - unfold XRT.call_exchange_rate_service.
    rewrite bind_run, try_run, bind_run, ws_client_run.
    destruct (oracle w (trace w) WsClient) as [e|] eqn:Eo.
    + destruct (Hc _ _ _ Eo) as [-> | ->];
        (eexists _, _, [_]; split; [reflexivity|]; split; [reflexivity|];
         intros _ op e [[= <- <-]|[]] _; reflexivity).
    + cbn [ret]. rewrite try_run, bind_run, ws_import_run.
      set (w1 := logged WsClient None w).
      change (oracle w1) with (oracle w).
      destruct (oracle w (trace w1) (WsImport (join "," (map str record))))
        as [e|] eqn:Eo1.
      * destruct (Hc _ _ _ Eo1) as [-> | [-> | [text ->]]];
          (eexists _, _, [_; _]; split; [reflexivity|]; split;
           [cbn; rewrite <- app_assoc; reflexivity|]).
        -- intros _ op e [[= <- <-]|[[= <- <-]|[]]] _; reflexivity.
        -- intros _ op e [[= <- <-]|[[= <- <-]|[]]] _; reflexivity.
        -- intros _ op e [[= <- <-]|[[= <- <-]|[]]] [Ht|Ht]; discriminate.
      * eexists _, _, [_; _]. split; [reflexivity|]. split;
          [cbn; rewrite <- app_assoc; reflexivity|].
        intros _ op e [[= <- <-]|[[= <- <-]|[]]] _.
Qed.

(** C4. dataXRT.py raises past the submit boundary, against the docstring
    of [call_exchange_rate_service], which promises the error message as a
    string when the call failed. For the record [USD,EUR,0.92]: when the
    service answers with a fault that has no detail, the handler of the
    fault itself raises a [TypeError] at [fault.detail[0]]; when the
    server answers with an HTTP error page, the [TransportError] of zeep
    is caught by no handler. Either exception leaves the call, and the
    loop over the records ends with it: in a batch of two records the
    second one is never submitted. *)
Theorem C4_submit_raises_past_boundary :
  fst (submit RemoteCall [PStr "USD"; PStr "EUR"; PStr "0.92"]
         (empty_world fault_without_detail))
  = Raise (OtherException "TypeError" "fault.detail")
  /\ fst (submit RemoteCall [PStr "USD"; PStr "EUR"; PStr "0.92"]
            (empty_world http_500))
     = Raise (OtherException "zeep.exceptions.TransportError" "500")
  /\ fst (submit_all RemoteCall [] two_rates (empty_world fault_without_detail))
     = Raise (OtherException "TypeError" "fault.detail")
  /\ trace (snd (submit_all RemoteCall [] two_rates
                   (empty_world fault_without_detail)))
     = [(WsClient, None);
        (WsImport "USD,EUR,0.92", Some (ZeepFault NoExplanation))]
  /\ fst (submit_all RemoteCall [] two_rates (empty_world http_500))
     = Raise (OtherException "zeep.exceptions.TransportError" "500")
  /\ trace (snd (submit_all RemoteCall [] two_rates (empty_world http_500)))
     = [(WsClient, None);
        (WsImport "USD,EUR,0.92",
           Some (OtherException "zeep.exceptions.TransportError" "500"))].
Proof. repeat split; vm_compute; reflexivity. Qed.

(* ===================================================================== *)
(** * The reason recorded for a failed record *)
(* ===================================================================== *)

Section Reasons.

Lemma submit_rows_answered todo :
  forall s0 f0 w s f w',
    XRT.submit_rows todo s0 f0 w = (Ok (s, f), w') ->
    exists answers,
      answered todo answers w w'
      /\ s = s0 ++ fst (partition_by todo (map recorded_reason answers))
      /\ f = f0 ++ snd (partition_by todo (map recorded_reason answers)).
Proof.
  induction todo as [|row rest IH]; intros s0 f0 w s f w' Hrun.
  - cbn in Hrun. injection Hrun as <- <- <-. exists [].
    split; [constructor|]. cbn. now rewrite !app_nil_r.
  - cbn [XRT.submit_rows] in Hrun. rewrite bind_run in Hrun.
    destruct (XRT.call_exchange_rate_service (join "," (map str row)) w)
      as [[answer|e] w1] eqn:Ecall; [|discriminate].
    destruct (XRT.truthy answer) eqn:Et;
      destruct (IH _ _ _ _ _ _ Hrun) as [answers [Ha [Hs Hf]]];
      exists (answer :: answers);
      (split; [econstructor; eauto|]);
      cbn [map partition_by];
      destruct (partition_by rest (map recorded_reason answers)) as [ps pf];
      cbn [fst snd] in *.
    + destruct answer as [msg|]; [|discriminate]. cbn [XRT.truthy] in Et.
      cbn [recorded_reason]. rewrite Et. cbn [fst snd].
      split; [exact Hs|]. now rewrite Hf, <- app_assoc.
    + assert (recorded_reason answer = None) as ->.
      { destruct answer as [msg|]; [|reflexivity].
        cbn [XRT.truthy] in Et. cbn [recorded_reason]. now rewrite Et. }
      cbn [fst snd]. split; [|exact Hf]. now rewrite Hs, <- app_assoc.
Qed.

Lemma split_head_first_sentence (msg : string) :
  (exists rest, msg = (split_head ". " msg ++ rest)%string
                /\ (rest = EmptyString \/ startswith ". " rest = true))
  /\ (forall pre post, msg = (pre ++ ". " ++ post)%string ->
        String.length (split_head ". " msg) <= String.length pre).
Proof.
  rewrite split_head_until. split.
  - apply until_prefix.
  - intros pre post E. eapply until_leftmost; eauto.
Qed.

End Reasons.

(** C10. In the remote variant, when the loop has gone through a batch:
    the groups are the partition of the batch by the answers of the
    service call, and the reason appended to a record whose call answered
    with a message is the text of the message before its first [". "]:
    a prefix of the message that is followed by [". "] or by nothing, and
    no [". "] begins before it ends. The fixed message of a transport
    failure is recorded as its first sentence. *)
Theorem C10_reason_is_first_sentence
    (batch successes failures : list (list value)) (w w' : World) :
  XRT.submit_rows batch [] [] w = (Ok (successes, failures), w') ->
  (exists answers,
      answered batch answers w w'
      /\ (successes, failures) = partition_by batch (map recorded_reason answers)
      /\ forall msg, In (Some msg) answers -> msg <> EmptyString ->
           let reason := split_head ". " msg in
           recorded_reason (Some msg) = Some reason
           /\ (exists rest, msg = (reason ++ rest)%string
                  /\ (rest = EmptyString \/ startswith ". " rest = true))
           /\ (forall pre post, msg = (pre ++ ". " ++ post)%string ->
                 String.length reason <= String.length pre))
  /\ recorded_reason (Some XRT.connection_failed)
     = Some "SICS server connection attempt has failed"%string.
Proof.
  intros Hrun. split; [|reflexivity].
  destruct (submit_rows_answered _ _ _ _ _ _ _ Hrun) as [answers [Ha [Hs Hf]]].
  exists answers. split; [exact Ha|]. split.
  - cbn in Hs, Hf. subst.
    now destruct (partition_by batch (map recorded_reason answers)).
  - intros msg _ Hne reason. split; [|apply split_head_first_sentence].
    cbn [recorded_reason]. destruct msg; [congruence | reflexivity].
Qed.

Lemma C10_reason_is_first_sentence_witness :
  exists successes failures w',
    XRT.submit_rows two_rates [] [] (empty_world gbp_times_out)
    = (Ok (successes, failures), w')
    /\ failures = [[PStr "GBP"; PStr "EUR"; PStr "1.17";
                    PStr "SICS server connection attempt has failed"]]
    /\ recorded_reason (Some XRT.connection_failed)
       = Some "SICS server connection attempt has failed"%string.
Proof.
  eexists _, _, _.
  assert (forall s f w' (E : XRT.submit_rows two_rates [] []
                               (empty_world gbp_times_out) = (Ok (s, f), w')),
             f = [[PStr "GBP"; PStr "EUR"; PStr "1.17";
                   PStr "SICS server connection attempt has failed"]] ->
             XRT.submit_rows two_rates [] [] (empty_world gbp_times_out)
             = (Ok (s, f), w')
             /\ f = [[PStr "GBP"; PStr "EUR"; PStr "1.17";
                      PStr "SICS server connection attempt has failed"]]
             /\ recorded_reason (Some XRT.connection_failed)
                = Some "SICS server connection attempt has failed"%string) as Hw.
  { intros s f w' E Hf. split; [exact E|]. split; [exact Hf|].
    exact (proj2 (C10_reason_is_first_sentence two_rates s f _ w' E)). }
  apply Hw; vm_compute; reflexivity.
Defined.

(* ===================================================================== *)
(** * The transaction of the bulk variant *)
(* ===================================================================== *)

Section Transaction.

Lemma build_data_project cols row order w :
  forall data, project cols row order = Some data ->
               CED.build_data cols row order w = (Ok data, w).
Proof.
  induction order as [|col rest IH]; intros data Hp; cbn in *.
  - now injection Hp as <-.
  - destruct (row_get cols row col) as [v|]; [|discriminate].
    destruct (project cols row rest) as [vs|]; [|discriminate].
    injection Hp as <-. rewrite bind_run, (IH vs eq_refl). reflexivity.
Qed.

Lemma build_data_world cols row order w :
  snd (CED.build_data cols row order w) = w.
Proof.
  induction order as [|col rest IH]; cbn; [reflexivity|].
  destruct (row_get cols row col) as [v|]; [|reflexivity].
  rewrite bind_run.
  destruct (CED.build_data cols row rest w) as [[vs|e] w1]; cbn in *; exact IH.
Qed.

Lemma execute_insert_run data w :
  CED.execute_insert data w
  = match oracle w (trace w) (DbExecute data) with
    | Some (PyodbcError msg) =>
        (Ok (Some (CED.sanitize_error_message msg)),
         logged (DbExecute data) (Some (PyodbcError msg)) w)
    | Some e => (Raise e, logged (DbExecute data) (Some e) w)
    | None =>
        (Ok None,
         let w1 := logged (DbExecute data) None w in
         with_db w1 (db_pending w1 ++ [data]) (db_committed w1))
    end.
Proof.
  unfold CED.execute_insert. rewrite try_run, bind_run, db_execute_run.
  destruct (oracle w (trace w) (DbExecute data)) as [[]|]; reflexivity.
Qed.

(** The run of the record loop when every row has the columns of the
    statement and the driver raises nothing but [pyodbc.Error]: every
    row is tried, in order, and the loop returns. *)
Lemma insert_rows_run cols todo :
  forall s0 f0 w,
    (forall tr data e, oracle w tr (DbExecute data) = Some e ->
                       exists msg, e = PyodbcError msg) ->
    Forall (fun row => project cols row CED.INSERT_COLUMN_ORDER <> None) todo ->
    exists verdicts,
      List.length verdicts = List.length todo
      /\ CED.insert_rows cols todo s0 f0 w
         = (Ok (s0 ++ fst (partition_by todo (map outcome_of verdicts)),
                f0 ++ snd (partition_by todo (map outcome_of verdicts))),
            mkWorld (oracle w)
              (trace w ++ combine (map DbExecute (map (data_of cols) todo)) verdicts)
              (fs w) (s3 w)
              (db_pending w ++ accepted (map (data_of cols) todo) verdicts)
              (db_committed w)).
Proof.
  induction todo as [|row rest IH]; intros s0 f0 w Ho Hrows.
  - exists []. split; [reflexivity|]. cbn. rewrite !app_nil_r.
    now destruct w.
  - inversion Hrows as [|? ? Hrow Hrest]; subst.
    destruct (project cols row CED.INSERT_COLUMN_ORDER) as [data|] eqn:Ep;
      [|congruence].
    cbn [CED.insert_rows]. rewrite bind_run, (build_data_project _ _ _ w data Ep).
    rewrite bind_run, execute_insert_run.
    assert (data_of cols row = data) as Hd by (unfold data_of; now rewrite Ep).
    destruct (oracle w (trace w) (DbExecute data)) as [e|] eqn:Eo.
    + destruct (Ho _ _ _ Eo) as [msg ->].
      destruct (IH s0 (f0 ++ [row ++ [PStr (CED.sanitize_error_message msg)]])
                  (logged (DbExecute data) (Some (PyodbcError msg)) w) Ho Hrest)
        as [vs [Hl Hrun]].
      exists (Some (PyodbcError msg) :: vs). split; [cbn; now rewrite Hl|].
      rewrite Hrun. cbn [map combine accepted partition_by outcome_of].
      rewrite Hd.
      destruct (partition_by rest (map outcome_of vs)) as [ps pf].
      cbn [fst snd logged with_trace oracle trace fs s3 db_pending db_committed].
      now rewrite <- !app_assoc.
    + set (w1 := logged (DbExecute data) None w).
      destruct (IH (s0 ++ [row]) f0
                  (with_db w1 (db_pending w1 ++ [data]) (db_committed w1))
                  Ho Hrest) as [vs [Hl Hrun]].
      exists (None :: vs). split; [cbn; now rewrite Hl|].
      cbv zeta. rewrite Hrun. cbn [map combine accepted partition_by outcome_of].
      rewrite Hd.
      destruct (partition_by rest (map outcome_of vs)) as [ps pf].
      cbn [fst snd logged with_trace with_db oracle trace fs s3
           db_pending db_committed w1].
      now rewrite <- !app_assoc.
Qed.

End Transaction.

Section Connection.

Lemma db_connect_run w :
  db_connect w
  = match oracle w (trace w) DbConnect with
    | Some e => (Raise e, logged DbConnect (Some e) w)
    | None =>
        (Ok tt, let w1 := logged DbConnect None w in with_db w1 [] (db_committed w1))
    end.
Proof.
  unfold db_connect. rewrite perform_run. unfold verdict, no_check.
  now destruct (oracle w (trace w) DbConnect).
Qed.

Lemma db_commit_run w :
  db_commit w
  = match oracle w (trace w) DbCommit with
    | Some e => (Raise e, logged DbCommit (Some e) w)
    | None =>
        (Ok tt, let w1 := logged DbCommit None w in
                with_db w1 [] (db_committed w1 ++ db_pending w1))
    end.
Proof.
  unfold db_commit. rewrite perform_run. unfold verdict, no_check.
  now destruct (oracle w (trace w) DbCommit).
Qed.

Lemma db_exit_run clean w :
  db_exit clean w
  = match oracle w (trace w) (DbExit clean) with
    | Some e => (Raise e, logged (DbExit clean) (Some e) w)
    | None =>
        (Ok tt, let w1 := logged (DbExit clean) None w in
                if clean then with_db w1 [] (db_committed w1 ++ db_pending w1)
                else with_db w1 [] (db_committed w1))
    end.
Proof.
  unfold db_exit. rewrite perform_run. unfold verdict, no_check.
  now destruct (oracle w (trace w) (DbExit clean)).
Qed.

Lemma reraise_PyodbcError_run {A} (c : M A) w : CED.reraise_PyodbcError c w = c w.
Proof.
  unfold CED.reraise_PyodbcError. rewrite try_run.
  destruct (c w) as [[a|[]] w1]; reflexivity.
Qed.

End Connection.

(** C6. In the bulk variant, when every row has the columns of the
    statement and an insert raises nothing but [pyodbc.Error]:
    - if the batch comes back, then every record was tried in order, a
      record whose insert raised is in the failure group with the
      sanitized message and the loop went on, [commit] was called once,
      after the last record, and the rows whose insert went through are
      what the run has added to the durable rows;
    - if the batch raises, the exception comes from the connection: from
      [connect], from [commit] or from leaving the [with] block. *)
Theorem C6_best_effort_commit (df : DataFrame) (w : World) :
  (forall tr data e, oracle w tr (DbExecute data) = Some e ->
                     exists msg, e = PyodbcError msg) ->
  Forall (fun row => project (columns df) row CED.INSERT_COLUMN_ORDER <> None)
         (rows df) ->
  exists evs,
    trace (snd (CED.submit_batch df w)) = trace w ++ evs
    /\ match fst (CED.submit_batch df w) with
       | Ok (successes, failures) =>
           exists verdicts,
             List.length verdicts = List.length (rows df)
             /\ evs = (DbConnect, None)
                      :: combine (map DbExecute (map (data_of (columns df)) (rows df)))
                           verdicts
                      ++ [(DbCommit, None); (DbExit true, None)]
             /\ (successes, failures)
                = partition_by (rows df) (map outcome_of verdicts)
             /\ db_committed (snd (CED.submit_batch df w))
                = db_committed w
                  ++ accepted (map (data_of (columns df)) (rows df)) verdicts
       | Raise e => exists op, In (op, Some e) evs /\ connection_level op
       end.
Proof.
  intros Ho Hrows. unfold CED.submit_batch.
  rewrite reraise_PyodbcError_run. unfold with_connection.
  rewrite bind_run, db_connect_run.
  destruct (oracle w (trace w) DbConnect) as [e|] eqn:Ec.
  { exists [(DbConnect, Some e)]. split; [reflexivity|].
    exists DbConnect. split; [now left | now left]. }
  cbv zeta. set (w1 := with_db (logged DbConnect None w) [] _).
  rewrite bind_run.
  destruct (insert_rows_run (columns df) (rows df) [] [] w1 Ho Hrows)
    as [vs [Hl Hrun]].
  rewrite Hrun. clear Hrun. cbn [app].
  set (datas := map (data_of (columns df)) (rows df)).
  set (w2 := mkWorld _ _ _ _ _ _).
  rewrite bind_run, db_commit_run.
  change (oracle w2) with (oracle w).
  destruct (oracle w (trace w2) DbCommit) as [e|] eqn:Em.
  { rewrite db_exit_run.
    set (w3 := logged DbCommit (Some e) w2).
    change (oracle w3) with (oracle w).
    destruct (oracle w (trace w3) (DbExit false)) as [e'|] eqn:Ex.
    - exists ((DbConnect, None) :: combine (map DbExecute datas) vs
              ++ [(DbCommit, Some e); (DbExit false, Some e')]).
      split.
      + cbn. rewrite <- !app_assoc. reflexivity.
      + exists (DbExit false). split.
        * right. apply in_or_app. right. right. now left.
        * right. right. now exists false.
    - exists ((DbConnect, None) :: combine (map DbExecute datas) vs
              ++ [(DbCommit, Some e); (DbExit false, None)]).
      split.
      + cbn. rewrite <- !app_assoc. reflexivity.
      + exists DbCommit. split.
        * right. apply in_or_app. right. now left.
        * right. now left. }
  cbv zeta. cbn [ret]. rewrite db_exit_run.
  set (w3 := with_db (logged DbCommit None w2) _ _).
  change (oracle w3) with (oracle w).
  destruct (oracle w (trace w3) (DbExit true)) as [e'|] eqn:Ex.
  - exists ((DbConnect, None) :: combine (map DbExecute datas) vs
            ++ [(DbCommit, None); (DbExit true, Some e')]).
    split.
    + cbn. rewrite <- !app_assoc. reflexivity.
    + exists (DbExit true). split.
      * right. apply in_or_app. right. right. now left.
      * right. right. now exists true.
  - exists ((DbConnect, None) :: combine (map DbExecute datas) vs
            ++ [(DbCommit, None); (DbExit true, None)]).
    split.
    + cbn. rewrite <- !app_assoc. reflexivity.
    + cbn [fst snd]. exists vs. split; [exact Hl|]. split; [reflexivity|].
      split.
      * now destruct (partition_by (rows df) (map outcome_of vs)).
      * cbn. now rewrite !app_nil_r.
Qed.

Lemma C6_best_effort_commit_witness :
  exists evs,
    trace (snd (CED.submit_batch cede_frame (empty_world rejects_bad_pid)))
    = trace (empty_world rejects_bad_pid) ++ evs
    /\ match fst (CED.submit_batch cede_frame (empty_world rejects_bad_pid)) with
       | Ok (successes, failures) =>
           exists verdicts,
             List.length verdicts = List.length (rows cede_frame)
             /\ evs = (DbConnect, None)
                      :: combine (map DbExecute
                                    (map (data_of (columns cede_frame)) (rows cede_frame)))
                           verdicts
                      ++ [(DbCommit, None); (DbExit true, None)]
             /\ (successes, failures)
                = partition_by (rows cede_frame) (map outcome_of verdicts)
             /\ db_committed (snd (CED.submit_batch cede_frame
                                     (empty_world rejects_bad_pid)))
                = db_committed (empty_world rejects_bad_pid)
                  ++ accepted (map (data_of (columns cede_frame)) (rows cede_frame))
                       verdicts
       | Raise e => exists op, In (op, Some e) evs /\ connection_level op
       end.
Proof.
  apply (C6_best_effort_commit cede_frame (empty_world rejects_bad_pid)).
  - intros tr data e. unfold empty_world, rejects_bad_pid. cbn [oracle].
    destruct (existsb (value_eqb (PStr "BAD")) data); [|discriminate].
    intros [= <-]. now eexists.
  - repeat constructor; vm_compute; discriminate.
Defined.

(** The run of the witness: one row made durable, one row in the failure
    group with the sanitized message, one commit. *)
Example cede_frame_run :
  let '(r, w') := CED.submit_batch cede_frame (empty_world rejects_bad_pid) in
  (match r with
   | Ok (successes, failures) =>
       successes = [map (fun _ => PStr "1") CED.COLUMNS_TO_USE]
       /\ map (fun row => last row PNone) failures
          = [PStr "Conversion failed; pwd=[REDACTED]"]
   | Raise _ => False
   end)
  /\ List.length (db_committed w') = 1
  /\ List.length (filter (fun ev => match fst ev with DbCommit => true | _ => false end)
                    (trace w')) = 1.
Proof. vm_compute. repeat split. Qed.

(* ===================================================================== *)
(** * The schema check *)
(* ===================================================================== *)

Section SchemaCheck.

Lemma fs_read_run p w :
  fs_read p w
  = match oracle w (trace w) (FsRead p) with
    | Some e => (Raise e, logged (FsRead p) (Some e) w)
    | None =>
        match fs_lookup p (fs w) with
        | Some f => (Ok f, logged (FsRead p) None w)
        | None =>
            (Raise (OSError ("No such file or directory: " ++ snd p)),
             logged (FsRead p)
               (Some (OSError ("No such file or directory: " ++ snd p))) w)
        end
    end.
Proof.
  unfold fs_read. rewrite bind_run, perform_run. unfold verdict, missing_file.
  destruct (oracle w (trace w) (FsRead p)); [reflexivity|].
  destruct (fs_lookup p (fs w)) eqn:E; [|reflexivity].
  cbn. now rewrite E.
Qed.

Lemma in_insert_sorted x y l : In x (insert_sorted y l) <-> x = y \/ In x l.
Proof.
  induction l as [|z l IH]; cbn.
  - intuition.
  - destruct (String.eqb_spec y z) as [->|Hne].
    + cbn. intuition.
    + destruct (String.ltb y z); cbn; [intuition|].
      rewrite IH. intuition.
Qed.

Lemma in_sorted_set x l : In x (sorted_set l) <-> In x l.
Proof.
  induction l as [|y l IH]; cbn; [reflexivity|].
  rewrite in_insert_sorted, IH. intuition.
Qed.

Lemma join_names (sep : string) (q : string -> string) x xs :
  In x xs -> exists pre post, join sep (map q xs) = (pre ++ q x ++ post)%string.
Proof.
  induction xs as [|y [|z rest] IH]; intros Hin.
  - destruct Hin.
  - destruct Hin as [->|[]]. exists EmptyString, EmptyString.
    cbn. now rewrite sapp_nil_r.
  - destruct Hin as [->|Hin].
    + exists EmptyString. eexists. cbn [map join append]. reflexivity.
    + destruct (IH Hin) as [pre [post E]].
      exists (q y ++ sep ++ pre)%string, post.
      change (join sep (map q (y :: z :: rest)))
        with (q y ++ sep ++ join sep (map q (z :: rest)))%string.
      rewrite E. now rewrite !sapp_assoc.
Qed.

Lemma repr_list_names prefix cols c :
  In c cols -> names (prefix ++ CED.repr_list cols) c.
Proof.
  intros Hin. unfold CED.repr_list.
  destruct (join_names ", " (fun x => "'" ++ x ++ "'")%string c cols Hin)
    as [pre [post E]].
  rewrite E. exists (prefix ++ "[" ++ pre)%string, (post ++ "]")%string.
  now rewrite !sapp_assoc.
Qed.

Lemma read_csv_columns first body df :
  read_csv true (first :: body) = Ok df -> columns df = map Name first.
Proof.
  cbn. destruct (fit_all (List.length first) body); [|discriminate].
  now intros [= <-].
Qed.

Lemma has_column_mem first c :
  existsb (fun l => match l with Name n => String.eqb n c | Pos _ => false end)
    (map Name first) = mem c first.
Proof.
  unfold mem. induction first as [|x first IH]; cbn; [reflexivity|].
  now rewrite IH, String.eqb_sym.
Qed.

Lemma missing_columns_header (f : File) (df : DataFrame) (required : list string) :
  read_csv true (f_table f) = Ok df ->
  forall c, In c (CED.missing_columns df required) <-> In c (header_lacks required f).
Proof.
  intros Hread c. unfold CED.missing_columns, header_lacks.
  rewrite in_sorted_set.
  destruct (f_table f) as [|first body]; [discriminate|].
  rewrite (read_csv_columns _ _ _ Hread). cbn [hd].
  rewrite !filter_In. now rewrite has_column_mem.
Qed.

End SchemaCheck.

(** C5, as stated, fails for dataXRT.py: the file is read with
    [header=None] and no schema is checked; the first line and the data
    line both go to the service. *)
Lemma C5_counterexample :
  ~ (forall (required : list string) (p : LocalPath) (w : World) (f : File)
            (df : DataFrame),
        fs_lookup p (fs w) = Some f ->
        (forall tr, oracle w tr (FsRead p) = None) ->
        read_csv false (f_table f) = Ok df ->
        header_lacks required f <> [] ->
        rejected (fun q => XRT.process_exchange_rate_file q XRT.default_config)
          p w (header_lacks required f)).
Proof.
  intros Hall.
  destruct (Hall ["ID"; "AMOUNT"] (Pending, "rates.csv") id_only_world id_only
              (mkFrame [Pos 0] [[PStr "ID"]; [PStr "1"]])
              eq_refl (fun _ => eq_refl) eq_refl)
    as [msg [w' [evs [Hrun _]]]].
  - vm_compute. discriminate.
  - vm_compute in Hrun. discriminate.
Qed.

(** The run of the counterexample: both lines are sent. *)
Example id_only_run :
  let '(r, w') := XRT.process_exchange_rate_file (Pending, "rates.csv")
                    XRT.default_config id_only_world in
  (exists result, r = Ok result /\ XRT.success_count result = 2)
  /\ In (WsImport "ID", None) (trace w')
  /\ In (WsImport "1", None) (trace w').
Proof.
  vm_compute. split; [eexists; split; reflexivity|].
  split; [do 3 right; now left | do 5 right; now left].
Qed.

(** C5, amended to dataCED.py. For every input file that can be read and
    parsed and whose header lacks one or more columns of the INSERT
    statement: [process_file] raises the [ValueError] of
    [validate_csv_columns], whose message names every missing column;
    nothing comes back, and the run has made no call of the database. *)
Theorem C5_missing_columns_rejected (p : LocalPath) (w : World) (f : File)
    (df : DataFrame) :
  fs_lookup p (fs w) = Some f ->
  (forall tr, oracle w tr (FsRead p) = None) ->
  read_csv true (f_table f) = Ok df ->
  header_lacks CED.INSERT_COLUMN_ORDER f <> [] ->
  rejected CED.process_file p w (header_lacks CED.INSERT_COLUMN_ORDER f).
Proof.
  intros Hf Hquiet Hread Hlacks.
  pose proof (missing_columns_header f df CED.INSERT_COLUMN_ORDER Hread) as Hiff.
  destruct (CED.missing_columns df CED.INSERT_COLUMN_ORDER) as [|m ms] eqn:Em.
  { exfalso. destruct (header_lacks CED.INSERT_COLUMN_ORDER f) as [|c cs];
      [congruence|]. apply (proj2 (Hiff c)). now left. }
  exists ("CSV file is missing required columns: " ++ CED.repr_list (m :: ms))%string.
  exists (logged (FsRead p) None (logged (FsRead p) None w)).
  exists [(FsRead p, None); (FsRead p, None)].
  split; [|split; [|split]].
  - unfold CED.process_file, detect_file_encoding, pd_read_csv.
    rewrite !bind_run, fs_read_run, Hquiet, Hf. cbn [ret].
    rewrite !bind_run, fs_read_run.
    change (oracle (logged (FsRead p) None w)) with (oracle w).
    change (fs (logged (FsRead p) None w)) with (fs w).
    rewrite Hquiet, Hf. cbn [lift]. rewrite Hread.
    rewrite bind_run. unfold CED.validate_csv_columns. rewrite Em. reflexivity.
  - intros c Hc. apply repr_list_names. now apply Hiff.
  - cbn. now rewrite <- app_assoc.
  - repeat constructor.
Qed.

Lemma C5_missing_columns_rejected_witness :
  rejected CED.process_file (Pending, "rates.csv") id_only_world
    (header_lacks CED.INSERT_COLUMN_ORDER id_only).
Proof.
  apply (C5_missing_columns_rejected (Pending, "rates.csv") id_only_world id_only
           (mkFrame [Name "ID"] [[PStr "1"]])).
  - reflexivity.
  - intros tr. reflexivity.
  - reflexivity.
  - vm_compute. discriminate.
Defined.

(* ===================================================================== *)
(** * The operations, one by one *)
(* ===================================================================== *)

Section Primitives.

Variable H : exn -> Prop.
Variable P : Event -> Prop.

Lemma silent_id : silent no_effect.
Proof. intros w. now split. Qed.

Lemma silent_with_fs g : silent (fun w => with_fs w (g w)).
Proof. intros w. now split. Qed.

Lemma silent_with_s3 g : silent (fun w => with_s3 w (g w)).
Proof. intros w. now split. Qed.

Lemma silent_with_db g1 g2 : silent (fun w => with_db w (g1 w) (g2 w)).
Proof. intros w. now split. Qed.

Lemma obeys_path_exists p : obeys H P (path_exists p).
Proof. intros w _. split; [apply later_refl | discriminate]. Qed.

Lemma obeys_fs_mkdir d : (forall v, P (FsMkdir d, v)) -> obeys H P (fs_mkdir d).
Proof.
  intros HP. apply obeys_perform; [apply silent_id | exact HP | discriminate].
Qed.

Lemma missing_file_OSError p w e : missing_file p w = Some e -> exists m, e = OSError m.
Proof.
  unfold missing_file. destruct (fs_lookup p (fs w)); [discriminate|].
  intros [= <-]. now eexists.
Qed.

Lemma missing_key_ClientError k w e : missing_key k w = Some e -> exists m, e = ClientError m.
Proof.
  unfold missing_key. destruct (s3_lookup k (s3 w)); [discriminate|].
  intros [= <-]. now eexists.
Qed.

Lemma obeys_fs_read p :
  (forall v, P (FsRead p, v)) -> (forall m, H (OSError m)) -> obeys H P (fs_read p).
Proof.
  intros HP HO. unfold fs_read. apply obeys_bind.
  - apply obeys_perform; [apply silent_id | exact HP |].
    intros w e Hm. destruct (missing_file_OSError _ _ _ Hm) as [m ->]. apply HO.
  - intros _ _ w _.
    destruct (fs_lookup p (fs w)); cbn; (split; [apply later_refl|]).
    + discriminate.
    + intros e [= <-]. apply HO.
Qed.

Lemma obeys_fs_write p f : (forall v, P (FsWrite p f, v)) -> obeys H P (fs_write p f).
Proof.
  intros HP. apply obeys_perform; [|exact HP|discriminate].
  apply (silent_with_fs (fun w => fs_store p f (fs w))).
Qed.

Lemma obeys_fs_unlink p :
  (forall v, P (FsUnlink p, v)) -> (forall m, H (OSError m)) -> obeys H P (fs_unlink p).
Proof.
  intros HP HO. apply obeys_perform; [|exact HP|].
  - apply (silent_with_fs (fun w => fs_remove p (fs w))).
  - intros w e Hm. destruct (missing_file_OSError _ _ _ Hm) as [m ->]. apply HO.
Qed.

Lemma obeys_fs_move p d :
  (forall v, P (FsMove p d, v)) -> (forall m, H (OSError m)) -> obeys H P (fs_move p d).
Proof.
  intros HP HO. apply obeys_perform; [|exact HP|].
  - intros w. destruct (fs_lookup p (fs w)); now split.
  - intros w e Hm. destruct (missing_file_OSError _ _ _ Hm) as [m ->]. apply HO.
Qed.

Lemma obeys_s3_list_objects prefix :
  (forall v, P (S3List prefix, v)) -> obeys H P (s3_list_objects prefix).
Proof.
  intros HP. unfold s3_list_objects. apply obeys_bind.
  - apply obeys_perform; [apply silent_id | exact HP | discriminate].
  - intros _ _. apply (obeys_state H P (fun w => filter (startswith prefix) (map fst (s3 w)))).
Qed.

Lemma obeys_s3_download k p :
  (forall v, P (S3Download k p, v)) -> (forall m, H (ClientError m)) ->
  obeys H P (s3_download k p).
Proof.
  intros HP HC. apply obeys_perform; [|exact HP|].
  - intros w. destruct (s3_lookup k (s3 w)); now split.
  - intros w e Hm. destruct (missing_key_ClientError _ _ _ Hm) as [m ->]. apply HC.
Qed.

Lemma obeys_s3_upload p k :
  (forall v, P (S3Upload p k, v)) -> (forall m, H (OSError m)) ->
  obeys H P (s3_upload p k).
Proof.
  intros HP HO. apply obeys_perform; [|exact HP|].
  - intros w. destruct (fs_lookup p (fs w)); now split.
  - intros w e Hm. destruct (missing_file_OSError _ _ _ Hm) as [m ->]. apply HO.
Qed.

Lemma obeys_s3_delete k : (forall v, P (S3Delete k, v)) -> obeys H P (s3_delete k).
Proof.
  intros HP. apply obeys_perform; [|exact HP|discriminate].
  apply (silent_with_s3 (fun w => s3_remove k (s3 w))).
Qed.

Lemma obeys_db_connect : (forall v, P (DbConnect, v)) -> obeys H P db_connect.
Proof.
  intros HP. apply obeys_perform; [|exact HP|discriminate].
  apply (silent_with_db (fun _ => []) db_committed).
Qed.

Lemma obeys_db_execute data :
  (forall v, P (DbExecute data, v)) -> obeys H P (db_execute data).
Proof.
  intros HP. apply obeys_perform; [|exact HP|discriminate].
  apply (silent_with_db (fun w => db_pending w ++ [data]) db_committed).
Qed.

Lemma obeys_db_commit : (forall v, P (DbCommit, v)) -> obeys H P db_commit.
Proof.
  intros HP. apply obeys_perform; [|exact HP|discriminate].
  apply (silent_with_db (fun _ => []) (fun w => db_committed w ++ db_pending w)).
Qed.

Lemma obeys_db_exit clean :
  (forall v, P (DbExit clean, v)) -> obeys H P (db_exit clean).
Proof.
  intros HP. apply obeys_perform; [|exact HP|discriminate].
  intros w. destruct clean; now split.
Qed.

Lemma obeys_ws_client : (forall v, P (WsClient, v)) -> obeys H P ws_client.
Proof.
  intros HP. apply obeys_perform; [apply silent_id | exact HP | discriminate].
Qed.

Lemma obeys_ws_import r :
  (forall v, P (WsImport r, v)) -> obeys H P (ws_importCSVRecords r).
Proof.
  intros HP. apply obeys_perform; [apply silent_id | exact HP | discriminate].
Qed.

(** Entering and leaving the [with] block around a body. *)
Lemma obeys_with_connection {A} (body : M A) :
  (forall v, P (DbConnect, v)) ->
  (forall clean v, P (DbExit clean, v)) ->
  obeys H P body -> obeys H P (with_connection body).
Proof.
  intros HPc HPx Hb. unfold with_connection. apply obeys_bind.
  - now apply obeys_db_connect.
  - intros _ _ w T.
    destruct (Hb w T) as [L R].
    destruct (body w) as [[a|e] w1]; cbn [fst snd] in *.
    + destruct (obeys_db_exit true (HPx true) w1 (tame_later _ _ _ _ L T)) as [L2 R2].
      destruct (db_exit true w1) as [[u|e'] w2]; cbn [fst snd] in *.
      * split; [eapply later_trans; eauto | discriminate].
      * split; [eapply later_trans; eauto|]. intros e0 [= <-]. now apply R2.
    + destruct (obeys_db_exit false (HPx false) w1 (tame_later _ _ _ _ L T)) as [L2 R2].
      destruct (db_exit false w1) as [[u|e'] w2]; cbn [fst snd] in *.
      * split; [eapply later_trans; eauto|]. intros e0 [= <-]. now apply R.
      * split; [eapply later_trans; eauto|]. intros e0 [= <-]. now apply R2.
Qed.

End Primitives.

Lemma tame_any w : tame any_exn w.
Proof. intros tr op e _. exact I. Qed.

(* ===================================================================== *)
(** * Well-formed frames *)
(* ===================================================================== *)

Section Frames.

Lemma fit_width width line r : fit width line = Ok r -> List.length r = width.
Proof.
  unfold fit. destruct (Nat.ltb_spec width (List.length line)); [discriminate|].
  intros [= <-]. rewrite length_app, length_map, repeat_length. lia.
Qed.

Lemma fit_all_width width lines rs :
  fit_all width lines = Ok rs -> Forall (fun r => List.length r = width) rs.
Proof.
  revert rs; induction lines as [|l ls IH]; intros rs; cbn.
  - intros [= <-]. constructor.
  - destruct (fit width l) as [r|] eqn:Ef; [|discriminate].
    destruct (fit_all width ls) as [rs'|]; [|discriminate].
    intros [= <-]. constructor; [eapply fit_width; eauto | now apply IH].
Qed.

(** Every row of a frame that [read_csv] returns has one cell per column. *)
Lemma read_csv_rectangular header t df :
  read_csv header t = Ok df ->
  Forall (fun r => List.length r = List.length (columns df)) (rows df).
Proof.
  destruct t as [|first body]; [discriminate|]. cbn [read_csv].
  destruct header.
  - destruct (fit_all (List.length first) body) as [rs|] eqn:E; [|discriminate].
    intros [= <-]. cbn. rewrite length_map. eapply fit_all_width; eauto.
  - destruct (fit_all (List.length first) (first :: body)) as [rs|] eqn:E;
      [|discriminate].
    intros [= <-]. cbn [rows columns]. rewrite length_map, length_seq.
    eapply fit_all_width; eauto.
Qed.

Lemma row_get_found cols : forall row c,
  List.length row = List.length cols -> In (Name c) cols ->
  row_get cols row c <> None.
Proof.
  induction cols as [|l cols IH]; intros row c Hl Hin; [destruct Hin|].
  destruct row as [|v row]; [discriminate|]. injection Hl as Hl.
  cbn [row_get]. destruct l as [n|n].
  - destruct (String.eqb_spec n c) as [->|Hne]; [discriminate|].
    apply IH; [exact Hl|]. destruct Hin as [[= ->]|Hin]; [congruence | exact Hin].
  - apply IH; [exact Hl|]. destruct Hin as [Heq|Hin]; [discriminate | exact Hin].
Qed.

Lemma project_found cols row order :
  List.length row = List.length cols ->
  (forall c, In c order -> In (Name c) cols) ->
  project cols row order <> None.
Proof.
  intros Hl. induction order as [|c rest IH]; intros Hall; cbn; [discriminate|].
  pose proof (row_get_found cols row c Hl (Hall c (or_introl eq_refl))) as Hg.
  destruct (row_get cols row c); [|congruence].
  assert (project cols row rest <> None) as Hp
    by (apply IH; intros c' Hc'; apply Hall; now right).
  destruct (project cols row rest); [discriminate | congruence].
Qed.

Lemma sorted_set_nil l : sorted_set l = [] -> l = [].
Proof.
  destruct l as [|x l]; [reflexivity|]. intros E. exfalso.
  assert (In x (sorted_set (x :: l))) as Hin by (apply in_sorted_set; now left).
  rewrite E in Hin. destruct Hin.
Qed.

Lemma no_missing_columns df required :
  CED.missing_columns df required = [] ->
  forall c, In c required -> In (Name c) (columns df).
Proof.
  unfold CED.missing_columns. intros E c Hc. apply sorted_set_nil in E.
  assert (~ In c (filter (fun c0 => negb (existsb
            (fun l => match l with Name n => String.eqb n c0 | Pos _ => false end)
            (columns df))) required)) as Hnot by (rewrite E; intros []).
  rewrite filter_In in Hnot.
  destruct (existsb _ (columns df)) eqn:Ex.
  - apply existsb_exists in Ex. destruct Ex as [[n|n] [Hin Heq]]; [|discriminate].
    apply String.eqb_eq in Heq. now subst.
  - exfalso. apply Hnot. now split.
Qed.

(** The rows of a validated frame, after the replacement of [nan], have
    the values of the INSERT statement. *)
Lemma validated_rows header t df :
  read_csv header t = Ok df ->
  CED.missing_columns df CED.INSERT_COLUMN_ORDER = [] ->
  Forall (fun row => project (columns (replace_nan_none df)) row
                       CED.INSERT_COLUMN_ORDER <> None)
         (rows (replace_nan_none df)).
Proof.
  intros Hread Hmiss. cbn [replace_nan_none columns rows].
  apply Forall_map. eapply Forall_impl; [|eapply read_csv_rectangular; eauto].
  intros row Hl. apply project_found.
  - now rewrite length_map.
  - now apply no_missing_columns.
Qed.

End Frames.

(* ===================================================================== *)
(** * Walking through a program *)
(* ===================================================================== *)

(** Side conditions: an event or an exception is allowed. *)
Ltac allowed :=
  try (intros; exact I);
  try (intros; reflexivity);
  try (intros; hnf; discriminate);
  try (intros; cbn; auto; fail).

(** The handler table of a [try_except]: one case per exception class. *)
Ltac obey_handler tac :=
  let e := fresh "e" in
  let handler := fresh "handler" in
  let Hh := fresh "Hh" in
  intros e handler Hh _;
  destruct e; cbn in Hh;
  repeat match type of Hh with
         | context [match ?x with _ => _ end] => destruct x; cbn in Hh
         | context [if ?x then _ else _] => destruct x; cbn in Hh
         end;
  try discriminate;
  injection Hh as <-;
  tac.

Ltac obey :=
  repeat first
    [ apply obeys_ret
    | apply obeys_state
    | apply obeys_path_exists
    | apply obeys_raise; [solve [allowed]]
    | apply obeys_fs_mkdir; [solve [allowed]]
    | apply obeys_fs_read; [solve [allowed] | solve [allowed]]
    | apply obeys_fs_write; [solve [allowed]]
    | apply obeys_fs_unlink; [solve [allowed] | solve [allowed]]
    | apply obeys_fs_move; [solve [allowed] | solve [allowed]]
    | apply obeys_s3_list_objects; [solve [allowed]]
    | apply obeys_s3_download; [solve [allowed] | solve [allowed]]
    | apply obeys_s3_upload; [solve [allowed] | solve [allowed]]
    | apply obeys_s3_delete; [solve [allowed]]
    | apply obeys_db_connect; [solve [allowed]]
    | apply obeys_db_execute; [solve [allowed]]
    | apply obeys_db_commit; [solve [allowed]]
    | apply obeys_ws_client; [solve [allowed]]
    | apply obeys_ws_import; [solve [allowed]]
    | apply obeys_with_connection; [solve [allowed] | solve [allowed] |]
    | apply obeys_bind; [| intros ? _]
    | apply obeys_try; [| obey_handler obey]
    | match goal with
      | |- obeys _ _ (match ?x with _ => _ end) => destruct x
      | |- obeys _ _ (if ?x then _ else _) => destruct x
      end
    | progress cbv zeta ].

Section Growth.

(** The programs only add to the trace. *)

Lemma grows_to_csv p records enc : obeys any_exn any_event (to_csv p records enc).
Proof. unfold to_csv. obey. Qed.

Lemma grows_xrt_upload_file p folder : obeys any_exn any_event (XRT.upload_file p folder).
Proof. unfold XRT.upload_file, XRT.as_S3OperationError. obey. Qed.

Lemma grows_xrt_move_file p d : obeys any_exn any_event (XRT.move_file p d).
Proof. unfold XRT.move_file, XRT.as_FileProcessingError. obey. Qed.

Lemma grows_call_exchange_rate_service r :
  obeys any_exn any_event (XRT.call_exchange_rate_service r).
Proof. unfold XRT.call_exchange_rate_service, XRT.service_handler. obey. Qed.

End Growth.

(* ===================================================================== *)
(** * The layout of an artifact *)
(* ===================================================================== *)

Section Layout.

Lemma to_csv_run p records enc w :
  let f := mkFile enc (map (map write_cell) (frame_of_records records)) in
  to_csv p records enc w
  = match oracle w (trace w) (FsWrite p f) with
    | Some e => (Raise e, logged (FsWrite p f) (Some e) w)
    | None =>
        (Ok tt, let w1 := logged (FsWrite p f) None w in
                with_fs w1 (fs_store p f (fs w1)))
    end.
Proof.
  cbv zeta. unfold to_csv, fs_write. rewrite perform_run. unfold verdict, no_check.
  now destruct (oracle w (trace w) _).
Qed.

Lemma to_csv_trace p records enc w :
  exists v,
    trace (snd (to_csv p records enc w))
    = trace w ++ [(FsWrite p (mkFile enc (map (map write_cell)
                                            (frame_of_records records))), v)].
Proof.
  rewrite to_csv_run. cbv zeta.
  destruct (oracle w (trace w) _) as [e|]; eexists; reflexivity.
Qed.

Lemma write_cell_text (header : list string) :
  map write_cell (map PStr header) = header.
Proof. induction header as [|h t IH]; cbn; [reflexivity | now rewrite IH]. Qed.

Lemma write_cell_padding k : map write_cell (repeat PNone k) = repeat EmptyString k.
Proof. induction k as [|k IH]; cbn; [reflexivity | now rewrite IH]. Qed.

(** A frame whose first record is a row of names. *)
Lemma framed_header (header : list string) (records : list (list value)) :
  exists pad body,
    map (map write_cell) (frame_of_records (map PStr header :: records))
    = (header ++ pad) :: body
    /\ Forall (fun cell => cell = EmptyString) pad
    /\ List.length body = List.length records.
Proof.
  unfold frame_of_records.
  set (w := width_of (map PStr header :: records)).
  exists (repeat EmptyString (w - List.length (map PStr header))).
  exists (map (map write_cell)
            (map (fun r => r ++ repeat PNone (w - List.length r)) records)).
  split; [|split].
  - cbn [map]. now rewrite map_app, write_cell_text, write_cell_padding.
  - apply Forall_forall. intros cell Hin. now apply repeat_spec in Hin.
  - now rewrite !length_map.
Qed.

Lemma snd_bind_ret {A B} (c : M A) (g : A -> B) w :
  snd (bind c (fun a => ret (g a)) w) = snd (c w).
Proof. rewrite bind_run. now destruct (c w) as [[a|e] w1]. Qed.

Lemma write_success_header_first name enc r rs w :
  header_first_at CED.COLUMNS_TO_USE
    (fun records => CED._write_success_file name records enc) (r :: rs) w.
Proof.
  unfold header_first_at, CED._write_success_file. cbv zeta.
  rewrite (snd_bind_ret _ (fun _ => _)).
  destruct (to_csv_trace (Processed, CED.success_filename name)
              (map PStr CED.COLUMNS_TO_USE :: r :: rs) enc w) as [v Ht].
  destruct (framed_header CED.COLUMNS_TO_USE (r :: rs)) as [pad [body [Hf [Hp Hl]]]].
  eexists _, _, v, [], pad, body. split; [exact Ht|].
  split; [exact Hf|]. now split.
Qed.

Lemma write_error_header_first name enc r rs w :
  header_first_at (CED.COLUMNS_TO_USE ++ ["ERROR"])
    (fun records => CED._write_error_file name records enc) (r :: rs) w.
Proof.
  unfold header_first_at, CED._write_error_file. cbv zeta.
  rewrite (snd_bind_ret _ (fun _ => _)).
  destruct (to_csv_trace (ErrorDir, CED.error_filename name)
              (map PStr (CED.COLUMNS_TO_USE ++ ["ERROR"]) :: r :: rs) enc w)
    as [v Ht].
  destruct (framed_header (CED.COLUMNS_TO_USE ++ ["ERROR"]) (r :: rs))
    as [pad [body [Hf [Hp Hl]]]].
  eexists _, _, v, [], pad, body. split; [exact Ht|].
  split; [exact Hf|]. now split.
Qed.

Lemma save_group_headerless name suffix dest folder enc r rs w :
  headerless_at
    (fun records => XRT.save_group records name suffix dest folder enc) (r :: rs) w.
Proof.
  unfold headerless_at, XRT.save_group.
  rewrite (snd_bind_ret _ (fun f => (List.length (r :: rs), f))).
  unfold XRT._save_and_upload_results. rewrite bind_run, to_csv_run. cbv zeta.
  set (q := (Pending, XRT.output_filename name suffix)).
  set (f := mkFile enc _).
  destruct (oracle w (trace w) (FsWrite q f)) as [e|].
  - exists q, f, (Some e), []. split; reflexivity.
  - set (w1 := with_fs _ _).
    assert (later any_event w1
              (snd (bind (XRT.upload_file q folder)
                      (fun _ => XRT.move_file q dest) w1))) as [_ [evs [Ht _]]].
    { apply (obeys_bind any_exn any_event);
        [apply grows_xrt_upload_file | intros; apply grows_xrt_move_file
        | apply tame_any]. }
    exists q, f, None, evs. split; [|reflexivity].
    rewrite Ht. cbn. now rewrite <- app_assoc.
Qed.

End Layout.

(** C8, as stated, fails for dataXRT.py: the artifact of a group of one
    record has one line, the record; no column list makes it begin with a
    header row. *)
Lemma C8_counterexample :
  ~ exists header : list string,
      forall (records : list (list value)) (w : World),
        records <> [] ->
        header_first_at header
          (fun rs => XRT.save_group rs "rates.csv" "_ok" Processed
                       (XRT.s3_processed_folder XRT.default_config) "utf-8")
          records w.
Proof.
  intros [header Hall].
  destruct (Hall [[PStr "USD"; PStr "EUR"; PStr "0.92"]] (empty_world no_failure))
    as [p [f [v [rest [pad [body [Ht [Hf [_ Hl]]]]]]]]]; [discriminate|].
  vm_compute in Ht. injection Ht as <- <- _ _.
  cbn in Hf. injection Hf as _ <-. discriminate.
Qed.

(** C8, amended. For every non-empty group: in dataCED.py the artifact
    begins with a header row, the full column list for the success
    artifact and the full column list plus ERROR for the failure artifact
    (followed by empty fields when a record is wider than the list), and
    has one line per record after it; in dataXRT.py the artifact has the
    records as its lines and no header row. An empty group produces no
    file: the writers do nothing. *)
Theorem C8_artifact_layout (name suffix folder enc : string) (dest : Dir)
    (records : list (list value)) (w : World) :
  records <> [] ->
  header_first_at CED.COLUMNS_TO_USE
    (fun rs => CED._write_success_file name rs enc) records w
  /\ header_first_at (CED.COLUMNS_TO_USE ++ ["ERROR"])
       (fun rs => CED._write_error_file name rs enc) records w
  /\ headerless_at
       (fun rs => XRT.save_group rs name suffix dest folder enc) records w
  /\ CED._write_success_file name [] enc w = (Ok [], w)
  /\ CED._write_error_file name [] enc w = (Ok [], w)
  /\ XRT.save_group [] name suffix dest folder enc w = (Ok (0, None), w).
Proof.
  intros Hne. destruct records as [|r rs]; [congruence|].
  split; [apply write_success_header_first|].
  split; [apply write_error_header_first|].
  split; [apply save_group_headerless|].
  repeat split.
Qed.

Lemma C8_artifact_layout_witness :
  header_first_at CED.COLUMNS_TO_USE
    (fun rs => CED._write_success_file "data.csv" rs "utf-8")
    (rows cede_frame) (empty_world no_failure)
  /\ header_first_at (CED.COLUMNS_TO_USE ++ ["ERROR"])
       (fun rs => CED._write_error_file "data.csv" rs "utf-8")
       (rows cede_frame) (empty_world no_failure)
  /\ headerless_at
       (fun rs => XRT.save_group rs "data.csv" "_ok" Processed "processed/" "utf-8")
       (rows cede_frame) (empty_world no_failure)
  /\ CED._write_success_file "data.csv" [] "utf-8" (empty_world no_failure)
     = (Ok [], empty_world no_failure)
  /\ CED._write_error_file "data.csv" [] "utf-8" (empty_world no_failure)
     = (Ok [], empty_world no_failure)
  /\ XRT.save_group [] "data.csv" "_ok" Processed "processed/" "utf-8"
       (empty_world no_failure)
     = (Ok (0, None), empty_world no_failure).
Proof.
  apply (C8_artifact_layout "data.csv" "_ok" "processed/" "utf-8" Processed
           (rows cede_frame) (empty_world no_failure)).
  cbn. discriminate.
Defined.

(* ===================================================================== *)
(** * Missing values on their way to the sink *)
(* ===================================================================== *)

Section MissingValues.

Lemma nan_to_none_clean v : nan_to_none v <> PNaN.
Proof. destruct v; discriminate. Qed.

Lemma row_get_in cols : forall row c v, row_get cols row c = Some v -> In v row.
Proof.
  induction cols as [|l cols IH]; intros row c v; [discriminate|].
  destruct row as [|x row]; [destruct l; discriminate|].
  cbn [row_get]. destruct l as [n|n].
  - destruct (String.eqb n c).
    + intros [= ->]. now left.
    + intros Hg. right. eapply IH; eauto.
  - intros Hg. right. eapply IH; eauto.
Qed.

Lemma build_data_values cols row order :
  forall w data w', CED.build_data cols row order w = (Ok data, w') ->
                    forall v, In v data -> In v row.
Proof.
  induction order as [|c rest IH]; intros w data w'; cbn [CED.build_data].
  - intros [= <- _] v [].
  - destruct (row_get cols row c) as [x|] eqn:Eg; [|discriminate].
    rewrite bind_run.
    destruct (CED.build_data cols row rest w) as [[vs|e] w1] eqn:Eb; [|discriminate].
    intros [= <- _] v [<-|Hin].
    + eapply row_get_in; eauto.
    + eapply IH; eauto.
Qed.

Lemma obeys_build_data P cols row order :
  obeys any_exn P (CED.build_data cols row order).
Proof. induction order as [|c rest IH]; cbn [CED.build_data]; obey. exact IH. Qed.

Lemma insert_rows_clean cols todo :
  Forall (Forall (fun v => v <> PNaN)) todo ->
  forall s f, obeys any_exn clean_event (CED.insert_rows cols todo s f).
Proof.
  induction todo as [|row rest IH]; intros Hclean s f; cbn [CED.insert_rows].
  - apply obeys_ret.
  - inversion Hclean as [|? ? Hrow Hrest]; subst.
    apply obeys_bind; [apply obeys_build_data|].
    intros data [w [w' Eb]].
    assert (Forall (fun v => v <> PNaN) data) as Hdata.
    { apply Forall_forall. intros v Hin.
      eapply (proj1 (Forall_forall _ _) Hrow), build_data_values; eauto. }
    apply obeys_bind.
    + unfold CED.execute_insert. apply obeys_try.
      * apply obeys_bind; [|intros; apply obeys_ret].
        apply obeys_db_execute. intros v. exact Hdata.
      * obey_handler obey.
    + intros [msg|] _; now apply IH.
Qed.

(** dataCED.py: after [replace({np.nan: None})] no statement carries a
    [nan]. *)
Lemma ced_statements_clean df w :
  later clean_event w (snd (CED.submit_batch (replace_nan_none df) w)).
Proof.
  assert (obeys any_exn clean_event (CED.submit_batch (replace_nan_none df))) as Ho.
  { unfold CED.submit_batch, CED.reraise_PyodbcError.
    apply obeys_try; [|obey_handler obey].
    apply obeys_with_connection; allowed.
    apply obeys_bind.
    - apply insert_rows_clean. cbn [replace_nan_none rows].
      apply Forall_map, Forall_forall. intros row _.
      apply Forall_map, Forall_forall. intros v _. apply nan_to_none_clean.
    - intros groups _. obey. }
  exact (proj1 (Ho w (tame_any w))).
Qed.

End MissingValues.

(** C9. dataXRT.py at a file with the line [USD,,0.92]: the empty field is
    read as the float [nan] and stays so, nothing replaces it by [None] as
    dataCED.py does, and the record that reaches the service has the text
    [nan] in its place. *)
Theorem C9_xrt_sends_nan_text :
  read_csv false (f_table rate_with_gap)
  = Ok (mkFrame [Pos 0; Pos 1; Pos 2] [[PStr "USD"; PNaN; PStr "0.92"]])
  /\ is_numeric PNaN = true
  /\ In (WsImport "USD,nan,0.92", None)
        (trace (snd (XRT.process_exchange_rate_file (Pending, "rates.csv")
                       XRT.default_config gap_world)))
  /\ ~ In (WsImport "USD,,0.92", None)
          (trace (snd (XRT.process_exchange_rate_file (Pending, "rates.csv")
                         XRT.default_config gap_world))).
Proof.
  split; [reflexivity|]. split; [reflexivity|]. split.
  - vm_compute. do 3 right. now left.
  - vm_compute. intros Hin.
    repeat (destruct Hin as [Heq|Hin]; [discriminate|]). exact Hin.
Qed.

(* ===================================================================== *)
(** * One file does not stop the run *)
(* ===================================================================== *)

Ltac handled_ok := intros; cbn; discriminate.

Section Isolation.

Lemma read_csv_raises header t e :
  read_csv header t = Raise e -> exists m, e = ValueError m.
Proof.
  assert (forall width lines e0, fit_all width lines = Raise e0 ->
                                 exists m, e0 = ValueError m) as Hfit.
  { intros width lines. induction lines as [|l ls IH]; intros e0; cbn; [discriminate|].
    unfold fit at 1. destruct (Nat.ltb width (List.length l)).
    - intros [= <-]. now eexists.
    - destruct (fit_all width ls) as [rs|e1]; [discriminate|].
      intros [= <-]. now apply IH. }
  destruct t as [|first body]; cbn [read_csv].
  - intros [= <-]. now eexists.
  - destruct header.
    + destruct (fit_all (List.length first) body) as [rs|e1] eqn:E; [discriminate|].
      intros [= <-]. eapply Hfit; eauto.
    + destruct (fit_all (List.length first) (first :: body)) as [rs|e1] eqn:E;
        [discriminate|].
      intros [= <-]. eapply Hfit; eauto.
Qed.

Lemma pd_read_csv_ok p header w df w' :
  pd_read_csv p header w = (Ok df, w') -> exists t, read_csv header t = Ok df.
Proof.
  unfold pd_read_csv. rewrite bind_run.
  destruct (fs_read p w) as [[f|e] w1]; cbv beta iota; [|discriminate].
  cbv [lift]. intros E. apply (f_equal fst) in E. cbn [fst] in E.
  now exists (f_table f).
Qed.

Lemma validate_ok df required w w' :
  CED.validate_csv_columns df required w = (Ok tt, w') ->
  CED.missing_columns df required = [].
Proof.
  unfold CED.validate_csv_columns.
  destruct (CED.missing_columns df required); [reflexivity | discriminate].
Qed.

Lemma handled_detect p : obeys handled any_event (detect_file_encoding p).
Proof. unfold detect_file_encoding. obey; handled_ok. Qed.

Lemma handled_pd_read_csv p header : obeys handled any_event (pd_read_csv p header).
Proof.
  unfold pd_read_csv. apply obeys_bind.
  - apply obeys_fs_read; [allowed | handled_ok].
  - intros f _. apply obeys_lift. intros e He.
    destruct (read_csv_raises _ _ _ He) as [m ->]. cbn. discriminate.
Qed.

Lemma handled_validate df required :
  obeys handled any_event (CED.validate_csv_columns df required).
Proof.
  unfold CED.validate_csv_columns.
  destruct (CED.missing_columns df required); [apply obeys_ret|].
  apply obeys_raise. cbn. discriminate.
Qed.

Lemma handled_build_data cols row data :
  project cols row CED.INSERT_COLUMN_ORDER = Some data ->
  obeys handled any_event (CED.build_data cols row CED.INSERT_COLUMN_ORDER).
Proof.
  intros Hp w _. rewrite (build_data_project _ _ _ w data Hp). cbn [fst snd].
  split; [apply later_refl | discriminate].
Qed.

Lemma handled_execute_insert data : obeys handled any_event (CED.execute_insert data).
Proof. unfold CED.execute_insert. obey. Qed.

Lemma handled_insert_rows cols todo :
  Forall (fun row => project cols row CED.INSERT_COLUMN_ORDER <> None) todo ->
  forall s f, obeys handled any_event (CED.insert_rows cols todo s f).
Proof.
  induction todo as [|row rest IH]; intros Hrows s f; cbn [CED.insert_rows].
  - apply obeys_ret.
  - inversion Hrows as [|? ? Hrow Hrest]; subst.
    destruct (project cols row CED.INSERT_COLUMN_ORDER) as [data|] eqn:Ep;
      [|congruence].
    apply obeys_bind; [eapply handled_build_data; eauto|].
    intros d _. apply obeys_bind; [apply handled_execute_insert|].
    intros [msg|] _; now apply IH.
Qed.

Lemma handled_submit_batch df :
  Forall (fun row => project (columns df) row CED.INSERT_COLUMN_ORDER <> None)
         (rows df) ->
  obeys handled any_event (CED.submit_batch df).
Proof.
  intros Hrows. unfold CED.submit_batch, CED.reraise_PyodbcError.
  apply obeys_try; [|obey_handler obey; handled_ok].
  apply obeys_with_connection; allowed.
  apply obeys_bind; [now apply handled_insert_rows|].
  intros groups _. obey.
Qed.

Lemma handled_write_error_file name records enc :
  obeys handled any_event (CED._write_error_file name records enc).
Proof. unfold CED._write_error_file, to_csv. obey. Qed.

Lemma handled_write_success_file name records enc :
  obeys handled any_event (CED._write_success_file name records enc).
Proof. unfold CED._write_success_file, to_csv. obey. Qed.

Lemma handled_process_file p : obeys handled any_event (CED.process_file p).
Proof.
  unfold CED.process_file. cbv zeta.
  apply obeys_bind; [apply handled_detect|]. intros enc _.
  apply obeys_bind; [apply handled_pd_read_csv|]. intros df [w [w' Eread]].
  destruct (pd_read_csv_ok _ _ _ _ _ Eread) as [t Ht].
  apply obeys_bind; [apply handled_validate|]. intros [] [w1 [w1' Ev]].
  apply validate_ok in Ev.
  apply obeys_bind.
  { apply handled_submit_batch. eapply validated_rows; eauto. }
  intros [s f] _.
  apply obeys_bind; [apply handled_write_error_file|]. intros f' _.
  apply obeys_bind; [apply handled_write_success_file|]. intros s' _.
  apply obeys_ret.
Qed.

Lemma handled_upload_if_exists p is_error :
  obeys handled any_event (CED.upload_if_exists p is_error).
Proof.
  unfold CED.upload_if_exists, CED.upload_result_file, CED.upload_file,
    CED.reraise_ClientError.
  obey; handled_ok.
Qed.

Lemma handled_handle_file p key : obeys handled any_event (CED.handle_file p key).
Proof.
  unfold CED.handle_file. cbv zeta.
  apply obeys_bind; [apply handled_process_file|]. intros b _.
  apply obeys_bind; [apply handled_upload_if_exists|]. intros _ _.
  apply obeys_bind; [apply handled_upload_if_exists|]. intros _ _.
  apply obeys_bind.
  - unfold CED.delete_file, CED.reraise_ClientError. obey; handled_ok.
  - intros _ _. obey; handled_ok.
Qed.

(** The loop body of dataCED.py returns, whatever handled exception
    the file runs into. *)
Lemma loop_body_returns item w :
  tame handled w ->
  exists w', CED.loop_body item w = (Ok tt, w') /\ later any_event w w'.
Proof.
  intros T. unfold CED.loop_body. rewrite try_run.
  destruct (handled_handle_file (fst item) (snd item) w T) as [L R].
  destruct (CED.handle_file (fst item) (snd item) w) as [[[]|e] w1];
    cbn [fst snd] in *.
  - now exists w1.
  - specialize (R e eq_refl). unfold handled in R.
    destruct e; cbn in R; try congruence; cbn; now exists w1.
Qed.

Lemma for_each_loop_body items :
  forall w, tame handled w ->
    exists w', for_each items CED.loop_body w = (Ok tt, w')
               /\ ran_each CED.loop_body items w w'.
Proof.
  induction items as [|item rest IH]; intros w T.
  - exists w. split; [reflexivity | constructor].
  - destruct (loop_body_returns item w T) as [w1 [E L]].
    destruct (IH w1 (tame_later _ _ _ _ L T)) as [w2 [E2 R2]].
    exists w2. split.
    + cbn [for_each]. now rewrite (bind_ok _ _ _ _ _ E).
    + econstructor; eauto.
Qed.

End Isolation.

Lemma first_unreadable_tame : tame handled two_files_world.
Proof.
  intros tr op e. unfold two_files_world, first_unreadable. cbn [oracle].
  destruct op; try discriminate.
  destruct (LocalPath_eqb p (Pending, "a.csv")); [|discriminate].
  intros [= <-]. hnf. discriminate.
Qed.

(** C2, as stated, fails for dataXRT.py: a file that cannot be opened, a
    local file system error, ends the loop over the files. *)
Lemma C2_counterexample :
  ~ (forall (v : Variant) (config : XRT.AppConfig) (filenames : list string)
            (w : World),
        tame handled w ->
        exists w', process_all v config filenames w = (Ok tt, w')).
Proof.
  intros Hall.
  destruct (Hall RemoteCall XRT.default_config ["a.csv"; "b.csv"] two_files_world
              first_unreadable_tame) as [w' E].
  vm_compute in E. discriminate.
Qed.

(** The whole pipeline of dataXRT.py in that world: the error of the first
    file comes out of [run_exchange_rate_pipeline], the second file is
    never opened and stays in the pending prefix. *)
Example two_files_run :
  let '(r, w') := XRT.run_exchange_rate_pipeline XRT.default_config two_files_world in
  r = Raise (FileProcessingError "Failed to process a.csv")
  /\ existsb (fun ev => match fst ev with
                        | FsRead p => LocalPath_eqb p (Pending, "b.csv")
                        | _ => false
                        end) (trace w') = false
  /\ s3_lookup "noprod/inbound/exchange_rate/pending/b.csv" (s3 w') = Some one_rate.
Proof. vm_compute. repeat split. Qed.

(** C2, amended. In dataCED.py, for every list of downloaded files: when
    the exceptions that occur are of the classes that the loop names
    ([ValueError], [pyodbc.Error], [ClientError], [OSError]), the body of
    the loop runs and returns for every file, one after the other, and the
    loop ends normally. In dataXRT.py the loop has no handler: an
    exception in the body for one file comes out of the loop at once, and
    the files after it are not processed. *)
Theorem C2_per_file_isolation (items : list (LocalPath * string)) (w : World) :
  tame handled w ->
  (exists w', for_each items CED.loop_body w = (Ok tt, w')
              /\ ran_each CED.loop_body items w w')
  /\ (forall config item rest e w0 w1,
         XRT.handle_file config item w0 = (Raise e, w1) ->
         for_each (item :: rest) (XRT.handle_file config) w0 = (Raise e, w1)).
Proof.
  intros T. split; [now apply for_each_loop_body|].
  intros config item rest e w0 w1 E. cbn [for_each].
  now rewrite (bind_raise _ _ _ _ _ E).
Qed.

Lemma C2_per_file_isolation_witness :
  (exists w',
      for_each [((Pending, "a.csv"), "prod/inbound/cede_interface/pending/a.csv");
                ((Pending, "b.csv"), "prod/inbound/cede_interface/pending/b.csv")]
        CED.loop_body two_files_world = (Ok tt, w')
      /\ ran_each CED.loop_body
           [((Pending, "a.csv"), "prod/inbound/cede_interface/pending/a.csv");
            ((Pending, "b.csv"), "prod/inbound/cede_interface/pending/b.csv")]
           two_files_world w')
  /\ (forall config item rest e w0 w1,
         XRT.handle_file config item w0 = (Raise e, w1) ->
         for_each (item :: rest) (XRT.handle_file config) w0 = (Raise e, w1)).
Proof.
  apply (C2_per_file_isolation _ two_files_world). exact first_unreadable_tame.
Defined.

(* ===================================================================== *)
(** * The order of uploads and deletions *)
(* ===================================================================== *)

Section Files.

Lemma Dir_eqb_eq a b : Dir_eqb a b = true <-> a = b.
Proof. destruct a, b; cbn; split; congruence. Qed.

Lemma LocalPath_eqb_eq p q : LocalPath_eqb p q = true <-> p = q.
Proof.
  destruct p as [d n], q as [d' n']. unfold LocalPath_eqb. cbn [fst snd].
  rewrite andb_true_iff, Dir_eqb_eq, String.eqb_eq. split.
  - intros [-> ->]. reflexivity.
  - intros [= -> ->]. now split.
Qed.

Lemma LocalPath_eqb_refl p : LocalPath_eqb p p = true.
Proof. now apply LocalPath_eqb_eq. Qed.

Lemma LocalPath_eqb_neq p q : p <> q -> LocalPath_eqb p q = false.
Proof.
  intros Hne. destruct (LocalPath_eqb p q) eqn:E; [|reflexivity].
  apply LocalPath_eqb_eq in E. congruence.
Qed.

Lemma fs_lookup_remove_other p q l :
  q <> p -> fs_lookup q (fs_remove p l) = fs_lookup q l.
Proof.
  intros Hne. induction l as [|[r g] l IH]; [reflexivity|].
  cbn [fs_remove filter fst]. fold (fs_remove p l).
  destruct (LocalPath_eqb p r) eqn:Epr; cbn [negb].
  - apply LocalPath_eqb_eq in Epr. subst r.
    cbn [fs_lookup]. now rewrite (LocalPath_eqb_neq q p Hne).
  - cbn [fs_lookup]. now rewrite IH.
Qed.

Lemma fs_lookup_store_same p f l : fs_lookup p (fs_store p f l) = Some f.
Proof. unfold fs_store. cbn [fs_lookup]. now rewrite LocalPath_eqb_refl. Qed.

Lemma fs_lookup_store_other p q f l :
  q <> p -> fs_lookup q (fs_store p f l) = fs_lookup q l.
Proof.
  intros Hne. unfold fs_store. cbn [fs_lookup].
  rewrite (LocalPath_eqb_neq q p Hne). now apply fs_lookup_remove_other.
Qed.

End Files.

Section Covered.




End Covered.

Lemma bind_assoc {A B C} (c : M A) (k1 : A -> M B) (k2 : B -> M C) w :
  bind (bind c k1) k2 w = bind c (fun a => bind (k1 a) k2) w.
Proof. rewrite !bind_run. now destruct (c w) as [[a|e] w1]. Qed.

Section CEDOrder.



Lemma process_file_phases p w :
  CED.process_file p w = bind (ced_front p) (ced_writers (snd p)) w.
Proof.
  unfold CED.process_file, ced_front. cbv zeta.
  rewrite !bind_assoc. rewrite !bind_run.
  destruct (detect_file_encoding p w) as [[enc|e] w1]; [|reflexivity].
  rewrite !bind_assoc, !bind_run.
  destruct (pd_read_csv p true w1) as [[df|e] w2]; [|reflexivity].
  rewrite !bind_assoc, !bind_run.
  destruct (CED.validate_csv_columns df CED.INSERT_COLUMN_ORDER w2)
    as [[[]|e] w3]; [|reflexivity].
  rewrite !bind_assoc, !bind_run.
  destruct (CED.submit_batch (replace_nan_none df) w3) as [[[s f]|e] w4];
    [|reflexivity].
  reflexivity.
Qed.




End CEDOrder.

Section CEDPhases.





End CEDPhases.

Section CEDStaging.







End CEDStaging.

Section OutputNames.

Lemma length_substring s : forall a b,
  String.length (substring a b s) = Nat.min b (String.length s - a).
Proof.
  induction s as [|c s IH]; intros [|a] [|b]; cbn [substring String.length];
    try reflexivity.
  - rewrite IH. cbn. now rewrite Nat.sub_0_r.
  - rewrite IH. reflexivity.
  - rewrite IH. reflexivity.
Qed.

Lemma rfind_lt sep s i : rfind sep s = Some i -> i < String.length s.
Proof.
  revert i; induction s as [|c s IH]; intros i; cbn [rfind String.length];
    [discriminate|].
  destruct (rfind sep s) as [j|].
  - intros [= <-]. specialize (IH j eq_refl). lia.
  - destruct (startswith sep (String c s)); [|discriminate].
    intros [= <-]. lia.
Qed.

(** The output name is longer than the original name by the suffix. *)
Lemma output_filename_length name suffix :
  String.length (XRT.output_filename name suffix)
  = String.length name + String.length suffix.
Proof.
  unfold XRT.output_filename, rsplit1.
  destruct (rfind "." name) as [i|] eqn:Er.
  - apply rfind_lt in Er. rewrite !slength_app, !length_substring.
    cbn [String.length]. lia.
  - now rewrite slength_app.
Qed.


End OutputNames.

Section XRTStaging.

Lemma as_FileProcessingError_run {A} msg (c : M A) w :
  XRT.as_FileProcessingError msg c w
  = (match fst (c w) with
     | Ok a => Ok a
     | Raise _ => Raise (FileProcessingError msg)
     end, snd (c w)).
Proof.
  unfold XRT.as_FileProcessingError. rewrite try_run.
  now destruct (c w) as [[a|e] w1].
Qed.














End XRTStaging.


(** The operations of dataXRT.py for a file with one record, in a world
    where nothing fails. *)
Example staging_order_run :
  map fst (trace (snd (handle RemoteCall XRT.default_config "rates.csv" ""
                         gap_world)))
  = [FsRead (Pending, "rates.csv"); FsRead (Pending, "rates.csv");
     WsClient; WsImport "USD,nan,0.92";
     FsWrite (Pending, "rates_ok.csv") (mkFile "utf-8" [["USD"; ""; "0.92"]]);
     S3Upload (Pending, "rates_ok.csv")
       "noprod/inbound/exchange_rate/processed/rates_ok.csv";
     FsMkdir Processed; FsMove (Pending, "rates_ok.csv") Processed;
     S3Delete "noprod/inbound/exchange_rate/pending/rates.csv";
     FsUnlink (Pending, "rates.csv")].
Proof. vm_compute. reflexivity. Qed.

(* ===================================================================== *)
(** * The counts that dataXRT.py reports *)
(* ===================================================================== *)

Section ReportedCounts.

Lemma save_group_count records name suffix dest folder enc w r w' :
  XRT.save_group records name suffix dest folder enc w = (Ok r, w') ->
  fst r = List.length records.
Proof.
  unfold XRT.save_group. destruct records as [|r0 rs].
  - now intros [= <- _].
  - rewrite bind_run.
    destruct (XRT._save_and_upload_results _ _ _ _ _ _ _ w) as [[x|e] w1];
      [|discriminate].
    now intros [= <- _].
Qed.

(** The two counts of a [ProcessingResult] are the sizes of the two groups
    of the loop, and add up to the number of records read. *)
Lemma reported_counts p config w result w' :
  XRT.process_exchange_rate_file p config w = (Ok result, w') ->
  exists df w0 w1 successes failures w2,
    pd_read_csv p false w0 = (Ok df, w1)
    /\ XRT.submit_rows (rows df) [] [] w1 = (Ok (successes, failures), w2)
    /\ XRT.success_count result = List.length successes
    /\ XRT.error_count result = List.length failures
    /\ XRT.success_count result + XRT.error_count result = List.length (rows df).
Proof.
  unfold XRT.process_exchange_rate_file. rewrite as_FileProcessingError_run.
  rewrite bind_run.
  destruct (detect_file_encoding p w) as [[enc|e] w0]; [|discriminate].
  rewrite bind_run.
  destruct (pd_read_csv p false w0) as [[df|e] w1] eqn:Er; [|discriminate].
  rewrite bind_run.
  destruct (XRT.submit_rows (rows df) [] [] w1) as [[[s f]|e] w2] eqn:Es;
    [|discriminate].
  rewrite bind_run.
  destruct (XRT.save_group f (snd p) "_error" ErrorDir (XRT.s3_error_folder config)
              enc w2) as [[x1|e] w3] eqn:E1; [|discriminate].
  rewrite bind_run.
  destruct (XRT.save_group s (snd p) "_ok" Processed
              (XRT.s3_processed_folder config) enc w3) as [[x2|e] w4] eqn:E2;
    [|discriminate].
  cbn [ret fst snd]. intros [= <- _]. cbn [XRT.success_count XRT.error_count].
  apply save_group_count in E1, E2.
  exists df, w0, w1, s, f, w2. split; [exact Er|]. split; [exact Es|].
  split; [exact E2|]. split; [exact E1|].
  rewrite E1, E2.
  destruct (submit_rows_partition _ _ _ _ _ _ _ Es) as [os [Hl [Hs Hf]]].
  cbn [app] in Hs, Hf. subst s f. now apply partition_by_count.
Qed.

End ReportedCounts.

(* ===================================================================== *)
(** * Further properties of the code *)
(* ===================================================================== *)

(** Properties of functions that the claims do not reach, or reach only
    in part, read off the source. *)

Local Open Scope string_scope.
Local Open Scope list_scope.

Section Validation.

Lemma has_column_in cols c :
  existsb (fun l => match l with Name n => String.eqb n c | Pos _ => false end) cols
  = true <-> In (Name c) cols.
Proof.
  rewrite existsb_exists. split.
  - intros [[n|n] [Hin Heq]]; [|discriminate].
    apply String.eqb_eq in Heq. now subst.
  - intros Hin. exists (Name c). split; [exact Hin | apply String.eqb_refl].
Qed.

Lemma in_missing_columns df required c :
  In c (CED.missing_columns df required)
  <-> In c required /\ ~ In (Name c) (columns df).
Proof.
  unfold CED.missing_columns. rewrite in_sorted_set, filter_In.
  rewrite <- has_column_in.
  destruct (existsb _ (columns df)); cbn; intuition congruence.
Qed.

Lemma missing_columns_nil df required :
  CED.missing_columns df required = []
  <-> forall c, In c required -> In (Name c) (columns df).
Proof.
  split; [apply no_missing_columns|].
  intros Hall. destruct (CED.missing_columns df required) as [|x l] eqn:E;
    [reflexivity|].
  exfalso.
  assert (In x (CED.missing_columns df required)) as Hin by (rewrite E; now left).
  apply in_missing_columns in Hin. destruct Hin as [Hr Hn]. auto.
Qed.

Lemma str_lt_trans a b c : str_lt a b -> str_lt b c -> str_lt a c.
Proof.
  unfold str_lt, String.ltb. intros Hab Hbc.
  destruct (String.compare a b) eqn:Eab; try discriminate.
  destruct (String.compare b c) eqn:Ebc; try discriminate.
  apply OrderedTypeEx.String_as_OT.cmp_lt in Eab, Ebc.
  pose proof (OrderedTypeEx.String_as_OT.lt_trans _ _ _ Eab Ebc) as Hac.
  apply OrderedTypeEx.String_as_OT.cmp_lt in Hac. unfold OrderedTypeEx.String_as_OT.cmp in Hac.
  now rewrite Hac.
Qed.

Lemma str_lt_irrefl a : ~ str_lt a a.
Proof.
  unfold str_lt, String.ltb.
  pose proof (String.compare_antisym a a) as Hs.
  destruct (String.compare a a); cbn in Hs; discriminate.
Qed.

Lemma str_lt_total a b : a <> b -> String.ltb a b = false -> str_lt b a.
Proof.
  unfold str_lt, String.ltb. intros Hne Hnlt.
  rewrite String.compare_antisym.
  destruct (String.compare a b) eqn:E; cbn; try discriminate; [|reflexivity].
  apply String.compare_eq_iff in E. contradiction.
Qed.

Lemma insert_sorted_sorted x l :
  Sorted.StronglySorted str_lt l -> Sorted.StronglySorted str_lt (insert_sorted x l).
Proof.
  induction l as [|y ys IH]; intros Hs; cbn.
  - repeat constructor.
  - inversion Hs as [|? ? Hys Hall]; subst.
    destruct (String.eqb_spec x y) as [->|Hne]; [exact Hs|].
    destruct (String.ltb x y) eqn:Elt.
    + constructor; [exact Hs|]. constructor; [exact Elt|].
      eapply Forall_impl; [|exact Hall]. intros z Hz.
      eapply str_lt_trans; eauto.
    + constructor; [now apply IH|].
      apply Forall_forall. intros z Hz. apply in_insert_sorted in Hz.
      destruct Hz as [->|Hz]; [now apply str_lt_total|].
      rewrite Forall_forall in Hall. now apply Hall.
Qed.

Lemma sorted_set_sorted l : Sorted.StronglySorted str_lt (sorted_set l).
Proof.
  induction l as [|x l IH]; cbn; [constructor | now apply insert_sorted_sorted].
Qed.

Lemma sorted_nodup l : Sorted.StronglySorted str_lt l -> NoDup l.
Proof.
  induction 1 as [|x l Hs IH Hall]; constructor; [|exact IH].
  intros Hin. rewrite Forall_forall in Hall.
  exact (str_lt_irrefl x (Hall x Hin)).
Qed.

(** The statement has one question mark per column. *)
Lemma placeholders_count :
  count_char "?" CED.build_insert_statement = List.length CED.INSERT_COLUMN_ORDER.
Proof. vm_compute. reflexivity. Qed.

Lemma validate_fst_ok df required w :
  fst (CED.validate_csv_columns df required w) = Ok tt ->
  CED.missing_columns df required = [].
Proof.
  unfold CED.validate_csv_columns.
  destruct (CED.missing_columns df required); [reflexivity | discriminate].
Qed.

Lemma project_length cols row : forall order d,
  project cols row order = Some d -> List.length d = List.length order.
Proof.
  induction order as [|c rest IH]; intros d; cbn [project].
  - now intros [= <-].
  - destruct (row_get cols row c); [|discriminate].
    destruct (project cols row rest) as [vs|]; [|discriminate].
    intros [= <-]. cbn [List.length]. f_equal. now apply IH.
Qed.

End Validation.

(** X1. [validate_csv_columns] returns normally exactly when every required
    column is a column name of the frame, whatever the order of the
    columns and whatever other columns there are; it raises otherwise, and
    it changes nothing either way. *)
Theorem X1_validate_accepts_exactly (df : DataFrame) (required : list string)
    (w : World) :
  (fst (CED.validate_csv_columns df required w) = Ok tt
   <-> forall c, In c required -> In (Name c) (columns df))
  /\ (fst (CED.validate_csv_columns df required w) <> Ok tt ->
      exists msg, fst (CED.validate_csv_columns df required w) = Raise (ValueError msg))
  /\ snd (CED.validate_csv_columns df required w) = w.
Proof.
  rewrite <- missing_columns_nil. unfold CED.validate_csv_columns.
  destruct (CED.missing_columns df required) as [|x l]; cbn.
  - split; [tauto|]. split; [congruence | reflexivity].
  - split; [split; discriminate|]. split; [|reflexivity].
    intros _. eexists. reflexivity.
Qed.

(** X2. The columns that the message of [validate_csv_columns] lists are
    the required columns that the frame does not have, each of them once
    and in ascending order. *)
Theorem X2_missing_columns_sorted (df : DataFrame) (required : list string) :
  Sorted.StronglySorted str_lt (CED.missing_columns df required)
  /\ NoDup (CED.missing_columns df required)
  /\ forall c, In c (CED.missing_columns df required)
               <-> In c required /\ ~ In (Name c) (columns df).
Proof.
  split; [apply sorted_set_sorted|].
  split; [apply sorted_nodup, sorted_set_sorted|].
  apply in_missing_columns.
Qed.

(** X3. A row of a file that passed the column check has a value for
    every column of the INSERT statement: building the tuple does not
    fail and changes nothing, and the tuple has one value per question
    mark of the statement. *)
Theorem X3_validated_row_fills_statement (t : Table) (df : DataFrame)
    (row : list value) (w w' : World) :
  read_csv true t = Ok df ->
  fst (CED.validate_csv_columns df CED.INSERT_COLUMN_ORDER w) = Ok tt ->
  In row (rows (replace_nan_none df)) ->
  exists data,
    CED.build_data (columns (replace_nan_none df)) row CED.INSERT_COLUMN_ORDER w'
    = (Ok data, w')
    /\ List.length data = count_char "?" CED.build_insert_statement.
Proof.
  intros Hread Hval Hin.
  pose proof (validate_fst_ok _ _ _ Hval) as Hmiss.
  pose proof (validated_rows true t df Hread Hmiss) as Hall.
  rewrite Forall_forall in Hall. specialize (Hall row Hin).
  destruct (project (columns (replace_nan_none df)) row CED.INSERT_COLUMN_ORDER)
    as [data|] eqn:Ep; [|congruence].
  exists data. split; [now apply build_data_project|].
  rewrite (project_length _ _ _ _ Ep). symmetry. apply placeholders_count.
Qed.

Lemma X3_validated_row_fills_statement_witness :
  exists data,
    CED.build_data (map Name CED.COLUMNS_TO_USE)
      (map (fun _ => PStr "1") CED.COLUMNS_TO_USE) CED.INSERT_COLUMN_ORDER
      (empty_world no_failure) = (Ok data, empty_world no_failure)
    /\ List.length data = count_char "?" CED.build_insert_statement.
Proof.
  apply (X3_validated_row_fills_statement
           [CED.COLUMNS_TO_USE; map (fun _ => "1") CED.COLUMNS_TO_USE]
           (mkFrame (map Name CED.COLUMNS_TO_USE)
              [map (fun _ => PStr "1") CED.COLUMNS_TO_USE])
           (map (fun _ => PStr "1") CED.COLUMNS_TO_USE)
           (empty_world no_failure) (empty_world no_failure)).
  - vm_compute. reflexivity.
  - vm_compute. reflexivity.
  - left. vm_compute. reflexivity.
Defined.

Section Sanitizing.

Lemma has_char_app c a b :
  has_char c (a ++ b)%string = has_char c a || has_char c b.
Proof.
  induction a as [|x a IH]; cbn; [reflexivity|].
  now rewrite IH, orb_assoc.
Qed.

Lemma replace_char_gone c new s : forall skip,
  has_char c new = false ->
  has_char c (replace_from (String c EmptyString) new s skip) = false.
Proof.
  induction s as [|a s IH]; intros skip Hnew; [reflexivity|].
  cbn [replace_from]. destruct skip as [|k]; [|now apply IH].
  cbn [startswith String.length Nat.sub].
  destruct (Ascii.eqb_spec c a) as [->|Hne]; cbn [andb].
  - rewrite has_char_app, Hnew. now apply IH.
  - cbn [has_char]. destruct (Ascii.eqb_spec a c) as [->|_]; [congruence|].
    now apply IH.
Qed.

Lemma replace_char_absent c new s :
  has_char c s = false -> replace_from (String c EmptyString) new s 0 = s.
Proof.
  induction s as [|a s IH]; [reflexivity|]. cbn [has_char replace_from startswith].
  intros Hs. apply orb_false_iff in Hs. destruct Hs as [Ha Hs].
  rewrite Ascii.eqb_sym, Ha. cbn [andb]. now rewrite IH.
Qed.

Lemma sub_from_keeps_out c lit sep repl s : forall skip,
  has_char c repl = false -> has_char c s = false ->
  has_char c (CED.sub_from lit sep repl s skip) = false.
Proof.
  induction s as [|a s IH]; intros skip Hrepl Hs; [reflexivity|].
  cbn [has_char] in Hs. apply orb_false_iff in Hs. destruct Hs as [Ha Hs].
  cbn [CED.sub_from]. destruct skip as [|k]; [|now apply IH].
  destruct (CED.match_at lit sep (String a s)) as [n|].
  - rewrite has_char_app, Hrepl. now apply IH.
  - cbn [has_char]. rewrite Ha. now apply IH.
Qed.

Lemma has_char_drop c n : forall s r,
  CED.drop n s = String c r -> has_char c s = true.
Proof.
  induction n as [|n IH]; intros s r E.
  - destruct s; cbn in E; [discriminate|]. injection E as -> ->.
    cbn. now rewrite Ascii.eqb_refl.
  - destruct s as [|a s]; cbn in E; [discriminate|].
    cbn [has_char]. rewrite (IH _ _ E). apply orb_true_r.
Qed.

Lemma lower_colon b :
  Ascii.eqb (CED.lower ":"%char) (CED.lower b) = true -> b = ":"%char.
Proof.
  destruct b as [[] [] [] [] [] [] [] []]; vm_compute; intros E;
    first [reflexivity | discriminate].
Qed.

(** None of the three patterns matches in a text without a colon and
    without an equals sign. *)
Lemma match_at_needs_separator (lit : string) (sep : bool) (s : string) :
  (sep = true \/ lit = "C:/"%string) ->
  has_char ":" s = false -> has_char "=" s = false ->
  CED.match_at lit sep s = None.
Proof.
  intros Hpat Hc He. unfold CED.match_at.
  destruct (CED.istartswith lit s) eqn:Ei; [|reflexivity].
  destruct sep.
  - destruct (CED.drop (String.length lit) s) as [|c r] eqn:Ed; [reflexivity|].
    destruct (Ascii.eqb_spec c "="%char) as [->|_].
    + apply has_char_drop in Ed. congruence.
    + destruct (Ascii.eqb_spec c ":"%char) as [->|_]; [|reflexivity].
      apply has_char_drop in Ed. congruence.
  - destruct Hpat as [Hs | Hl]; [discriminate|]. subst lit. exfalso.
    destruct s as [|a [|b r]]; cbn in Ei; try discriminate.
    + now rewrite andb_false_r in Ei.
    + apply andb_true_iff in Ei. destruct Ei as [_ Ei].
      apply andb_true_iff in Ei. destruct Ei as [Eb _].
      apply lower_colon in Eb. subst b. cbn in Hc.
      now rewrite orb_true_r in Hc.
Qed.

Lemma sub_from_plain lit sep repl s :
  (sep = true \/ lit = "C:/"%string) ->
  has_char ":" s = false -> has_char "=" s = false ->
  CED.sub_from lit sep repl s 0 = s.
Proof.
  intros Hpat. induction s as [|a s IH]; intros Hc He; [reflexivity|].
  cbn [CED.sub_from]. rewrite (match_at_needs_separator _ _ _ Hpat Hc He).
  cbn [has_char] in Hc, He.
  apply orb_false_iff in Hc. apply orb_false_iff in He.
  rewrite IH; tauto.
Qed.

End Sanitizing.

(** X4. No backslash is left in a sanitized message, whatever the message
    was. *)
Theorem X4_sanitized_has_no_backslash (msg : string) :
  has_char "\" (CED.sanitize_error_message msg) = false.
Proof.
  unfold CED.sanitize_error_message, CED.re_sub.
  repeat apply sub_from_keeps_out; try reflexivity.
  unfold replace. now apply replace_char_gone.
Qed.

(** X5. A message with no backslash, no colon and no equals sign is left
    as it is: there is nothing in it that one of the three patterns could
    match. *)
Theorem X5_plain_message_unchanged (msg : string) :
  has_char "\" msg = false ->
  has_char ":" msg = false ->
  has_char "=" msg = false ->
  CED.sanitize_error_message msg = msg.
Proof.
  intros Hb Hc He. unfold CED.sanitize_error_message, CED.re_sub, replace.
  rewrite (replace_char_absent _ _ _ Hb).
  rewrite (sub_from_plain "C:/" false); [|now right|exact Hc|exact He].
  rewrite (sub_from_plain "password" true); [|now left|exact Hc|exact He].
  apply sub_from_plain; [now left|exact Hc|exact He].
Qed.

Lemma X5_plain_message_unchanged_witness :
  CED.sanitize_error_message "Conversion failed when converting date"
  = "Conversion failed when converting date"%string.
Proof.
  apply X5_plain_message_unchanged; reflexivity.
Defined.

Section Redaction.





























End Redaction.



Section NameLengths.

Lemma count_no_dot s : no_dot s = true <-> count_char "." s = 0.
Proof.
  induction s as [|c s IH]; cbn [no_dot count_char]; [tauto|].
  destruct (Ascii.eqb c "."); cbn [negb andb]; [split; [discriminate | lia]|].
  exact IH.
Qed.

Lemma replace_dot_length (new s : string) :
  String.length (replace "." new s)
  + count_char "." s
  = String.length s + count_char "." s * String.length new.
Proof.
  unfold replace. induction s as [|c s IH]; [reflexivity|].
  rewrite replace_dot_from. cbn [count_char String.length].
  destruct (Ascii.eqb c "."); [rewrite slength_app|cbn [String.length]]; lia.
Qed.

End NameLengths.

(** X7. The artifact name of dataXRT.py has the suffix once, whatever
    the name: it is longer than the name by the suffix; for a name with
    an extension the suffix stands before the last dot, however many dots
    come before it; and a name without a dot gets the suffix at its
    end. *)
Theorem X7_xrt_artifact_name (name suffix : string) :
  String.length (XRT.output_filename name suffix)
  = String.length name + String.length suffix
  /\ (forall base ext,
        name = (base ++ "." ++ ext)%string -> no_dot ext = true ->
        XRT.output_filename name suffix = (base ++ suffix ++ "." ++ ext)%string)
  /\ (no_dot name = true -> XRT.output_filename name suffix = (name ++ suffix)%string).
Proof.
  split; [apply output_filename_length|]. split.
  - intros base ext -> He. now apply output_filename_inserts_once.
  - intros Hn. unfold XRT.output_filename, rsplit1. now rewrite (rfind_no_dot _ Hn).
Qed.

(** X8. The artifact names of dataCED.py have the suffix once for every
    dot of the name: the success name is longer than the name by three
    characters per dot and the error name by six. So a name with one dot
    gets the suffix before its extension, and a name without a dot is
    left as it is: both artifacts then carry the name of the input
    file. *)
Theorem X8_ced_artifact_name (name : string) :
  String.length (CED.success_filename name)
  = String.length name + 3 * count_char "." name
  /\ String.length (CED.error_filename name)
     = String.length name + 6 * count_char "." name
  /\ (forall base ext,
        name = (base ++ "." ++ ext)%string ->
        no_dot base = true -> no_dot ext = true ->
        CED.success_filename name = (base ++ "_ok." ++ ext)%string
        /\ CED.error_filename name = (base ++ "_error." ++ ext)%string)
  /\ (no_dot name = true ->
      CED.success_filename name = name /\ CED.error_filename name = name).
Proof.
  unfold CED.success_filename, CED.error_filename.
  pose proof (replace_dot_length "_ok." name) as H1.
  pose proof (replace_dot_length "_error." name) as H2.
  cbn [String.length] in H1, H2.
  split; [lia|]. split; [lia|]. split.
  - intros base ext -> Hb He. now apply ced_name_one_dot.
  - intros Hn. now rewrite !(replace_no_dot _ _ Hn).
Qed.

Section Verdict.

Lemma quiet_none evs : Forall quiet evs -> filter rejection evs = [].
Proof.
  induction 1 as [|ev evs Hq _ IH]; [reflexivity|]. cbn [filter].
  unfold quiet in Hq. now rewrite Hq.
Qed.

Lemma quiet_detect p : obeys any_exn quiet (detect_file_encoding p).
Proof. unfold detect_file_encoding. obey. Qed.

Lemma quiet_pd_read_csv p header : obeys any_exn quiet (pd_read_csv p header).
Proof. unfold pd_read_csv. obey. apply obeys_lift. allowed. Qed.

Lemma quiet_write_error_file name records enc :
  obeys any_exn quiet (CED._write_error_file name records enc).
Proof. unfold CED._write_error_file, to_csv. obey. Qed.

Lemma quiet_write_success_file name records enc :
  obeys any_exn quiet (CED._write_success_file name records enc).
Proof. unfold CED._write_success_file, to_csv. obey. Qed.

(** The failed records of the loop are as many as the rejected inserts. *)
Lemma insert_rows_rejections cols todo : forall s f w s' f' w',
  CED.insert_rows cols todo s f w = (Ok (s', f'), w') ->
  exists evs,
    trace w' = trace w ++ evs
    /\ List.length f' = List.length f + List.length (filter rejection evs).
Proof.
  induction todo as [|row rest IH]; intros s f w s' f' w'.
  - cbn. intros [= <- <- <-]. exists []. now rewrite app_nil_r, Nat.add_0_r.
  - cbn [CED.insert_rows]. rewrite bind_run.
    pose proof (build_data_world cols row CED.INSERT_COLUMN_ORDER w) as Hw.
    destruct (CED.build_data cols row CED.INSERT_COLUMN_ORDER w) as [[data|e] w0];
      [|discriminate].
    cbn [snd] in Hw. subst w0.
    rewrite bind_run, execute_insert_run.
    destruct (oracle w (trace w) (DbExecute data)) as [[]|] eqn:Eo; try discriminate.
    + intros Hrun. apply IH in Hrun. destruct Hrun as [evs [Ht Hl]].
      exists ((DbExecute data, Some (PyodbcError msg)) :: evs).
      cbn [trace logged with_trace] in Ht. rewrite Ht, <- app_assoc.
      split; [reflexivity|]. rewrite Hl, length_app. cbn. lia.
    + cbv zeta. intros Hrun. apply IH in Hrun. destruct Hrun as [evs [Ht Hl]].
      exists ((DbExecute data, None) :: evs).
      cbn [trace logged with_trace with_db] in Ht. rewrite Ht, <- app_assoc.
      split; [reflexivity|]. rewrite Hl. reflexivity.
Qed.

Lemma submit_batch_rejections df w s f w' :
  CED.submit_batch df w = (Ok (s, f), w') ->
  exists evs,
    trace w' = trace w ++ evs
    /\ List.length f = List.length (filter rejection evs).
Proof.
  unfold CED.submit_batch. rewrite reraise_PyodbcError_run.
  unfold with_connection. rewrite bind_run, db_connect_run.
  destruct (oracle w (trace w) DbConnect) as [e|]; [discriminate|].
  cbv zeta. set (wa := with_db _ _ _).
  rewrite bind_run.
  destruct (CED.insert_rows (columns df) (rows df) [] [] wa) as [[[s0 f0]|e] wb] eqn:El.
  2:{ destruct (db_exit false wb) as [[u|e'] wc]; discriminate. }
  apply insert_rows_rejections in El. destruct El as [evs [Ht Hl]].
  rewrite bind_run, db_commit_run.
  destruct (oracle wb (trace wb) DbCommit) as [e|].
  { destruct (db_exit false _) as [[u|e'] wc]; discriminate. }
  cbv zeta. cbn [ret]. rewrite db_exit_run.
  destruct (oracle _ _ (DbExit true)) as [e|]; [discriminate|].
  intros [= <- <- <-].
  exists ([(DbConnect, None)] ++ evs ++ [(DbCommit, None); (DbExit true, None)]).
  cbn [trace logged with_trace with_db]. rewrite Ht.
  subst wa. cbn [trace logged with_trace with_db].
  split; [now rewrite <- !app_assoc|].
  rewrite Hl. cbn [app filter rejection List.length].
  rewrite filter_app. cbn. now rewrite app_nil_r.
Qed.

(** The two writers: they answer whether the failure group was empty,
    they log no insert, and they leave the error artifact when it was
    not. *)
Lemma ced_writers_verdict name enc s f w b w' :
  ced_writers name (enc, (s, f)) w = (Ok b, w') ->
  b = Nat.eqb (List.length f) 0
  /\ (exists evs, trace w' = trace w ++ evs /\ Forall quiet evs)
  /\ (b = false -> fs_lookup (ErrorDir, CED.error_filename name) (fs w') <> None).
Proof.
  unfold ced_writers. intros Hrun.
  assert (later quiet w w') as Hl.
  { assert (obeys any_exn quiet
              (failed_records <- CED._write_error_file name f enc ;;
               CED._write_success_file name s enc ;;;
               ret (Nat.eqb (List.length failed_records) 0))) as Hob.
    { apply obeys_bind; [apply quiet_write_error_file|].
      intros f' _. apply obeys_bind; [apply quiet_write_success_file|].
      intros; apply obeys_ret. }
    pose proof (proj1 (Hob w (tame_any w))) as H. now rewrite Hrun in H. }
  destruct Hl as [_ Hevs].
  revert Hrun. unfold CED._write_error_file, CED._write_success_file. cbv zeta.
  set (ep := (ErrorDir, CED.error_filename name)).
  set (sp := (Processed, CED.success_filename name)).
  assert (ep <> sp) as Hne by discriminate.
  destruct f as [|fr frs].
  - rewrite bind_run. cbn [ret]. destruct s as [|sr srs].
    + rewrite bind_run. cbn [ret]. intros [= <- <-].
      split; [reflexivity|]. split; [exact Hevs | discriminate].
    + rewrite !bind_run, to_csv_run. cbv zeta.
      destruct (oracle w (trace w) _) as [e|]; [discriminate|].
      cbv beta iota. cbn [ret]. intros [= <- <-].
      split; [reflexivity|]. split; [exact Hevs | discriminate].
  - rewrite !bind_run, to_csv_run. cbv zeta.
    set (ef := mkFile enc _).
    destruct (oracle w (trace w) (FsWrite ep ef)) as [e|]; [discriminate|].
    cbv beta iota. cbn [ret]. set (w1 := with_fs _ _).
    assert (fs_lookup ep (fs w1) = Some ef) as Hep
      by (subst w1; cbn [fs with_fs]; apply fs_lookup_store_same).
    clearbody w1. rewrite bind_run.
    destruct s as [|sr srs].
    + cbn [ret]. intros [= <- <-]. split; [reflexivity|].
      split; [exact Hevs|]. intros _. rewrite Hep. discriminate.
    + rewrite bind_run, to_csv_run. cbv zeta.
      set (sf := mkFile enc _).
      destruct (oracle w1 (trace w1) (FsWrite sp sf)) as [e|]; [discriminate|].
      cbv beta iota. cbn [ret]. intros [= <- <-]. split; [reflexivity|].
      split; [exact Hevs|]. intros _. cbn [fs with_fs logged with_trace].
      rewrite (fs_lookup_store_other sp ep _ _ Hne), Hep. discriminate.
Qed.

End Verdict.

(** X9. When [process_file] returns, it returns [True] exactly when the
    driver rejected no insert in this run; and when it returns [False],
    the error artifact is in the error directory. The header row that
    the writer puts in front of the failure group does not change the
    answer. *)
Theorem X9_process_file_verdict (p : LocalPath) (w w' : World) (b : bool) :
  CED.process_file p w = (Ok b, w') ->
  exists evs,
    trace w' = trace w ++ evs
    /\ (b = true <-> filter rejection evs = [])
    /\ (b = false ->
        fs_lookup (ErrorDir, CED.error_filename (snd p)) (fs w') <> None).
Proof.
  rewrite process_file_phases, bind_run. unfold ced_front at 1.
  rewrite bind_run.
  pose proof (proj1 (quiet_detect p w (tame_any w))) as [_ [evs0 [Ht0 Hq0]]].
  destruct (detect_file_encoding p w) as [[enc|e] w0]; [|discriminate].
  cbn [snd] in Ht0. rewrite bind_run.
  pose proof (proj1 (quiet_pd_read_csv p true w0 (tame_any w0))) as [_ [evs1 [Ht1 Hq1]]].
  destruct (pd_read_csv p true w0) as [[df|e] w1]; [|discriminate].
  cbn [snd] in Ht1. rewrite bind_run.
  destruct (CED.validate_csv_columns df CED.INSERT_COLUMN_ORDER w1)
    as [[u|e] w2] eqn:Ev; [|discriminate].
  assert (w2 = w1) as ->.
  { revert Ev. unfold CED.validate_csv_columns.
    destruct (CED.missing_columns df CED.INSERT_COLUMN_ORDER); [|discriminate].
    now intros [= _ <-]. }
  rewrite bind_run.
  destruct (CED.submit_batch (replace_nan_none df) w1) as [[[s f]|e] w3] eqn:Es;
    [|discriminate].
  destruct (submit_batch_rejections _ _ _ _ _ Es) as [evs2 [Ht2 Hl2]].
  cbn [ret]. intros Hw.
  destruct (ced_writers_verdict _ _ _ _ _ _ _ Hw) as [Hb [[evs3 [Ht3 Hq3]] Hfile]].
  exists (evs0 ++ evs1 ++ evs2 ++ evs3).
  split; [rewrite Ht3, Ht2, Ht1, Ht0; now rewrite <- !app_assoc|].
  split; [|exact Hfile].
  rewrite !filter_app, (quiet_none _ Hq0), (quiet_none _ Hq1), (quiet_none _ Hq3).
  cbn [app]. rewrite app_nil_r. rewrite Hb.
  destruct f as [|fr frs]; cbn [List.length Nat.eqb] in *.
  - destruct (filter rejection evs2); [tauto | discriminate].
  - destruct (filter rejection evs2); [discriminate|]. split; discriminate.
Qed.

Lemma X9_process_file_verdict_witness :
  exists w' evs,
    CED.process_file (Pending, "cede.csv") cede_world = (Ok false, w')
    /\ trace w' = trace cede_world ++ evs
    /\ filter rejection evs <> []
    /\ fs_lookup (ErrorDir, "cede_error.csv") (fs w') <> None.
Proof.
  assert (forall b w'
            (E : CED.process_file (Pending, "cede.csv") cede_world = (Ok b, w')),
             b = false ->
             exists evs,
               CED.process_file (Pending, "cede.csv") cede_world = (Ok false, w')
               /\ trace w' = trace cede_world ++ evs
               /\ filter rejection evs <> []
               /\ fs_lookup (ErrorDir, "cede_error.csv") (fs w') <> None) as Hw.
  { intros b w' E Hb.
    destruct (X9_process_file_verdict _ _ _ _ E) as [evs [Ht [Hiff Hfile]]].
    exists evs. subst b. split; [exact E|]. split; [exact Ht|]. split.
    - intros Hnil. apply Hiff in Hnil. discriminate.
    - now apply Hfile. }
  eexists. eapply Hw; vm_compute; reflexivity.
Defined.

Section LocalFiles.

Lemma fs_lookup_remove_same p l : fs_lookup p (fs_remove p l) = None.
Proof.
  induction l as [|[r g] l IH]; [reflexivity|].
  cbn [fs_remove filter fst]. fold (fs_remove p l).
  destruct (LocalPath_eqb p r) eqn:Epr; cbn [negb]; [exact IH|].
  cbn [fs_lookup]. now rewrite Epr.
Qed.

Lemma fs_mkdir_run d w :
  fs_mkdir d w
  = match oracle w (trace w) (FsMkdir d) with
    | Some e => (Raise e, logged (FsMkdir d) (Some e) w)
    | None => (Ok tt, logged (FsMkdir d) None w)
    end.
Proof.
  unfold fs_mkdir. rewrite perform_run. unfold verdict, no_check, no_effect.
  now destruct (oracle w (trace w) _).
Qed.

Lemma move_file_run p dest w :
  XRT.move_file p dest w
  = match oracle w (trace w) (FsMkdir dest) with
    | Some e => (Raise (FileProcessingError ("Failed to move " ++ snd p)),
                 logged (FsMkdir dest) (Some e) w)
    | None =>
        let w1 := logged (FsMkdir dest) None w in
        match fs_lookup p (fs w) with
        | None => (Ok None, w1)
        | Some f =>
            match oracle w (trace w1) (FsMove p dest) with
            | Some e => (Raise (FileProcessingError ("Failed to move " ++ snd p)),
                         logged (FsMove p dest) (Some e) w1)
            | None =>
                (Ok (Some (dest, snd p)),
                 let w2 := logged (FsMove p dest) None w1 in
                 with_fs w2 (fs_store (dest, snd p) f (fs_remove p (fs w))))
            end
        end
    end.
Proof.
  unfold XRT.move_file. rewrite as_FileProcessingError_run, bind_run, fs_mkdir_run.
  destruct (oracle w (trace w) (FsMkdir dest)) as [e|]; [reflexivity|].
  cbv zeta. rewrite bind_run. unfold path_exists.
  cbn [fs logged with_trace].
  destruct (fs_lookup p (fs w)) as [f|] eqn:Ef; [|reflexivity].
  rewrite bind_run. unfold fs_move. rewrite perform_run.
  unfold verdict, missing_file. cbn [oracle fs logged with_trace trace].
  rewrite Ef.
  destruct (oracle w _ (FsMove p dest)) as [e|]; [reflexivity|].
  cbn [ret fst snd fs logged with_trace]. reflexivity.
Qed.

Lemma delete_local_file_run p w :
  XRT.delete_local_file p w
  = match fs_lookup p (fs w) with
    | None => (Ok tt, w)
    | Some f =>
        match oracle w (trace w) (FsUnlink p) with
        | Some e => (Raise (FileProcessingError ("Failed to delete " ++ snd p)),
                     logged (FsUnlink p) (Some e) w)
        | None =>
            (Ok tt, let w1 := logged (FsUnlink p) None w in
                    with_fs w1 (fs_remove p (fs w)))
        end
    end.
Proof.
  unfold XRT.delete_local_file. rewrite as_FileProcessingError_run, bind_run.
  unfold path_exists.
  destruct (fs_lookup p (fs w)) as [f|] eqn:Ef; [|reflexivity].
  unfold fs_unlink. rewrite perform_run. unfold verdict, missing_file. rewrite Ef.
  destruct (oracle w (trace w) (FsUnlink p)) as [e|]; reflexivity.
Qed.

End LocalFiles.

(** X10. [move_file] either moves the file or leaves every local file as
    it is. When it returns a path, the file was there, the path is the
    file name in the destination directory, the content is now at that
    path and no longer at the source, and no other file has changed. It
    returns [None] exactly for a source that is not there. Whatever goes
    wrong comes out as a [FileProcessingError] that names the file, and
    nothing has been moved then. The bucket is never touched. *)
Theorem X10_move_file_moves (p : LocalPath) (dest : Dir) (w : World) :
  let q := (dest, snd p) in
  s3 (snd (XRT.move_file p dest w)) = s3 w
  /\ match XRT.move_file p dest w with
     | (Ok (Some r), w') =>
         r = q
         /\ fs_lookup p (fs w) <> None
         /\ fs_lookup q (fs w') = fs_lookup p (fs w)
         /\ (p <> q -> fs_lookup p (fs w') = None)
         /\ others_kept p q w w'
     | (Ok None, w') => fs_lookup p (fs w) = None /\ fs w' = fs w
     | (Raise e, w') =>
         e = FileProcessingError ("Failed to move " ++ snd p) /\ fs w' = fs w
     end.
Proof.
  cbv zeta. rewrite move_file_run.
  destruct (oracle w (trace w) (FsMkdir dest)) as [e|]; [now repeat split|].
  cbv zeta. destruct (fs_lookup p (fs w)) as [f|] eqn:Ef; [|now repeat split].
  destruct (oracle w _ (FsMove p dest)) as [e|]; [now repeat split|].
  cbn [snd s3 fs with_fs logged with_trace].
  split; [reflexivity|]. split; [reflexivity|]. split; [discriminate|].
  split; [apply fs_lookup_store_same|]. split.
  - intros Hne. rewrite fs_lookup_store_other by exact Hne.
    apply fs_lookup_remove_same.
  - intros r Hp Hq. cbn [fs with_fs logged with_trace].
    rewrite fs_lookup_store_other by exact Hq.
    now apply fs_lookup_remove_other.
Qed.

(** X11. After [delete_local_file] has returned, the file is not there,
    whether it was there before or not, and the other local files are as
    they were; for a file that was not there it does nothing at all. It
    raises only when the file was there and could not be removed, always
    a [FileProcessingError], and no file has changed then. *)
Theorem X11_delete_local_file_removes (p : LocalPath) (w : World) :
  match XRT.delete_local_file p w with
  | (Ok _, w') =>
      fs_lookup p (fs w') = None
      /\ (forall r, r <> p -> fs_lookup r (fs w') = fs_lookup r (fs w))
      /\ (fs_lookup p (fs w) = None -> w' = w)
  | (Raise e, w') =>
      (exists msg, e = FileProcessingError msg)
      /\ fs_lookup p (fs w) <> None
      /\ fs w' = fs w
  end.
Proof.
  rewrite delete_local_file_run.
  destruct (fs_lookup p (fs w)) as [f|] eqn:Ef.
  - destruct (oracle w (trace w) (FsUnlink p)) as [e|].
    + split; [now eexists|]. split; [discriminate | reflexivity].
    + cbn [fs with_fs logged with_trace]. split; [apply fs_lookup_remove_same|].
      split; [|discriminate]. intros r Hr. now apply fs_lookup_remove_other.
  - split; [exact Ef|]. split; reflexivity.
Qed.

Section SavedArtifacts.

Lemma s3_lookup_store_same k f l : s3_lookup k (s3_store k f l) = Some f.
Proof. unfold s3_store. cbn [s3_lookup]. now rewrite String.eqb_refl. Qed.

Lemma xrt_upload_file_run q folder w :
  XRT.upload_file q folder w
  = let key := (folder ++ snd q)%string in
    match oracle w (trace w) (S3Upload q key) with
    | Some e =>
        (Raise (match e with
                | ClientError _ => S3OperationError ("Failed to upload " ++ snd q)
                | _ => e
                end), logged (S3Upload q key) (Some e) w)
    | None =>
        match fs_lookup q (fs w) with
        | Some f =>
            (Ok key, with_s3 (logged (S3Upload q key) None w) (s3_store key f (s3 w)))
        | None =>
            (Raise (OSError ("No such file or directory: " ++ snd q)),
             logged (S3Upload q key)
               (Some (OSError ("No such file or directory: " ++ snd q))) w)
        end
    end.
Proof.
  unfold XRT.upload_file, XRT.as_S3OperationError. cbv zeta.
  rewrite try_run, bind_run. unfold s3_upload. rewrite perform_run.
  unfold verdict, missing_file.
  destruct (oracle w (trace w) _) as [e|].
  - now destruct e.
  - destruct (fs_lookup q (fs w)) as [f|] eqn:Ef; [|reflexivity].
    cbn [ret fst snd fs logged with_trace]. now rewrite Ef.
Qed.

Lemma save_and_upload_ok records name suffix pend dest folder enc w r w' :
  XRT._save_and_upload_results records name suffix pend dest folder enc w
  = (Ok r, w') ->
  let out := XRT.output_filename name suffix in
  r = Some (dest, out)
  /\ s3_lookup (folder ++ out) (s3 w') = Some (artifact records enc)
  /\ fs_lookup (dest, out) (fs w') = Some (artifact records enc)
  /\ (dest <> pend -> fs_lookup (pend, out) (fs w') = None).
Proof.
  unfold XRT._save_and_upload_results. cbv zeta.
  set (q := (pend, XRT.output_filename name suffix)).
  rewrite bind_run, to_csv_run. cbv zeta. fold (artifact records enc).
  set (f := artifact records enc).
  destruct (oracle w (trace w) (FsWrite q f)) as [e|]; [discriminate|].
  cbv beta iota. set (w1 := with_fs _ _).
  assert (fs_lookup q (fs w1) = Some f) as Hq
    by (subst w1; cbn [fs with_fs]; apply fs_lookup_store_same).
  clearbody w1.
  rewrite bind_run, xrt_upload_file_run. cbv zeta.
  destruct (oracle w1 (trace w1) _) as [e|]; [discriminate|].
  rewrite Hq. cbv beta iota. set (w2 := with_s3 _ _).
  assert (fs w2 = fs w1) as Hfs2 by reflexivity.
  assert (s3_lookup (folder ++ snd q) (s3 w2) = Some f) as Hs2
    by (subst w2; cbn [s3 with_s3]; apply s3_lookup_store_same).
  clearbody w2.
  rewrite move_file_run.
  destruct (oracle w2 (trace w2) (FsMkdir dest)) as [e|]; [discriminate|].
  cbv zeta. rewrite Hfs2, Hq.
  destruct (oracle w2 _ (FsMove q dest)) as [e|]; [discriminate|].
  intros [= <- <-]. cbn [fs s3 with_fs with_s3 logged with_trace snd].
  split; [reflexivity|]. split; [exact Hs2|].
  split; [apply fs_lookup_store_same|].
  intros Hne. rewrite fs_lookup_store_other.
  - apply fs_lookup_remove_same.
  - subst q. intros [= E]. congruence.
Qed.





End SavedArtifacts.

(** X12. When [_save_and_upload_results] returns, it returns the path of
    the artifact in the destination directory; the object in the bucket
    under the folder and the local file at that path are both the file
    written from the records, and the copy in the pending directory is
    gone. *)
Theorem X12_artifact_uploaded_and_moved
    (records : list (list value)) (name suffix folder enc : string)
    (pend dest : Dir) (w w' : World) (r : option LocalPath) :
  XRT._save_and_upload_results records name suffix pend dest folder enc w
  = (Ok r, w') ->
  let out := XRT.output_filename name suffix in
  r = Some (dest, out)
  /\ s3_lookup (folder ++ out) (s3 w') = Some (artifact records enc)
  /\ fs_lookup (dest, out) (fs w') = Some (artifact records enc)
  /\ (dest <> pend -> fs_lookup (pend, out) (fs w') = None).
Proof. apply save_and_upload_ok. Qed.

Lemma X12_artifact_uploaded_and_moved_witness :
  exists w',
    XRT._save_and_upload_results two_rates "rates.csv" "_ok" Pending Processed
      "processed/" "utf-8" (empty_world no_failure)
    = (Ok (Some (Processed, "rates_ok.csv"%string)), w')
    /\ s3_lookup "processed/rates_ok.csv" (s3 w') = Some (artifact two_rates "utf-8")
    /\ fs_lookup (Processed, "rates_ok.csv"%string) (fs w')
       = Some (artifact two_rates "utf-8")
    /\ fs_lookup (Pending, "rates_ok.csv"%string) (fs w') = None.
Proof.
  eexists.
  assert (forall r w' (E : XRT._save_and_upload_results two_rates "rates.csv" "_ok"
                             Pending Processed "processed/" "utf-8"
                             (empty_world no_failure) = (Ok r, w')),
             r = Some (Processed, "rates_ok.csv"%string) ->
             XRT._save_and_upload_results two_rates "rates.csv" "_ok" Pending
               Processed "processed/" "utf-8" (empty_world no_failure)
             = (Ok (Some (Processed, "rates_ok.csv"%string)), w')
             /\ s3_lookup "processed/rates_ok.csv" (s3 w')
                = Some (artifact two_rates "utf-8")
             /\ fs_lookup (Processed, "rates_ok.csv"%string) (fs w')
                = Some (artifact two_rates "utf-8")
             /\ fs_lookup (Pending, "rates_ok.csv"%string) (fs w') = None) as Hw.
  { intros r w' E Hr.
    destruct (X12_artifact_uploaded_and_moved _ _ _ _ _ _ _ _ _ _ E)
      as [_ [H1 [H2 H3]]].
    subst r. split; [exact E|]. split; [exact H1|]. split; [exact H2|].
    apply H3. discriminate. }
  eapply Hw; vm_compute; reflexivity.
Defined.



Section Listing.

Lemma replace_first_prefix (p r : string) : replace_first p "" (p ++ r) = r.
Proof.
  destruct (p ++ r)%string as [|c s] eqn:E.
  - destruct p; [|discriminate]. cbn in E. subst r. reflexivity.
  - cbn [replace_first]. rewrite <- E, startswith_app. cbn [append].
    rewrite <- (Nat.add_0_r (String.length p)), substring_skip.
    apply substring_all. rewrite slength_app. lia.
Qed.

Lemma sapp_same_prefix (p r : string) : (p ++ r)%string = p -> r = EmptyString.
Proof.
  induction p as [|c p IH]; cbn; [trivial|]. intros [= E]. now apply IH.
Qed.

Lemma s3_lookup_in k l : s3_lookup k l <> None <-> In k (map fst l).
Proof.
  induction l as [|[q f] l IH]; cbn [s3_lookup map fst In]; [tauto|].
  destruct (String.eqb_spec k q) as [->|Hne].
  - split; [now left | discriminate].
  - rewrite IH. split; [now right|]. intros [E|H]; [congruence | exact H].
Qed.

Lemma xrt_list_files_run prefix w :
  XRT.list_files prefix w
  = match oracle w (trace w) (S3List prefix) with
    | Some e =>
        (Raise (match e with
                | ClientError _ => S3OperationError ("Failed to list files in " ++ prefix)
                | _ => e
                end), logged (S3List prefix) (Some e) w)
    | None =>
        (Ok (filter XRT.nonempty
               (map (replace_first prefix "")
                  (filter (fun key => negb (String.eqb key prefix)
                                      && negb (endswith "/" key))
                     (filter (startswith prefix) (map fst (s3 w)))))),
         logged (S3List prefix) None w)
    end.
Proof.
  unfold XRT.list_files, XRT.as_S3OperationError. rewrite try_run, bind_run.
  unfold s3_list_objects. rewrite bind_run, perform_run. unfold verdict, no_check.
  destruct (oracle w (trace w) (S3List prefix)) as [e|]; [now destruct e|].
  reflexivity.
Qed.

Lemma ced_list_run w :
  CED.list_pending_files w
  = match oracle w (trace w) (S3List CED.s3_pending_folder) with
    | Some e => (Raise e, logged (S3List CED.s3_pending_folder) (Some e) w)
    | None => (Ok (pending_keys w), logged (S3List CED.s3_pending_folder) None w)
    end.
Proof.
  unfold CED.list_pending_files, CED.reraise_ClientError. rewrite try_run, bind_run.
  unfold s3_list_objects. rewrite bind_run, perform_run. unfold verdict, no_check.
  destruct (oracle w (trace w) (S3List _)) as [e|]; [now destruct e|].
  reflexivity.
Qed.

Lemma listed_names_spec prefix w names w' :
  XRT.list_files prefix w = (Ok names, w') ->
  w' = logged (S3List prefix) None w
  /\ forall name,
       In name names
       <-> name <> EmptyString
           /\ s3_lookup (prefix ++ name) (s3 w) <> None
           /\ endswith "/" (prefix ++ name) = false.
Proof.
  rewrite xrt_list_files_run.
  destruct (oracle w (trace w) (S3List prefix)) as [e|]; [discriminate|].
  intros [= <- <-]. split; [reflexivity|]. intros name.
  rewrite filter_In, in_map_iff, s3_lookup_in. split.
  - intros [[key [Hname Hkey]] Hne].
    rewrite !filter_In in Hkey. destruct Hkey as [[Hin Hsw] Hf].
    apply andb_true_iff in Hf. destruct Hf as [_ Hend].
    apply negb_true_iff in Hend.
    destruct (startswith_inv _ _ Hsw) as [r ->].
    rewrite replace_first_prefix in Hname. subst r.
    split; [now destruct name|]. now split.
  - intros [Hne [Hin Hend]]. split; [|now destruct name].
    exists (prefix ++ name)%string. split; [apply replace_first_prefix|].
    rewrite !filter_In. split; [split; [exact Hin | apply startswith_app]|].
    rewrite Hend. cbn [negb]. rewrite andb_true_r. apply negb_true_iff.
    apply String.eqb_neq. intros E. apply Hne. eapply sapp_same_prefix; eauto.
Qed.

End Listing.

(** X14. The names that [list_files] returns are the names of the
    objects under the prefix: a name is listed exactly when it is not
    empty and the prefix followed by the name is the key of an object
    that does not end with a slash. So the key that [download_file] and
    [delete_file] build from a listed name is the key of the object that
    was listed. A listing that returns has logged the one request and
    changed nothing else. *)
Theorem X14_listed_names_are_keys (prefix : string) (w w' : World)
    (names : list string) :
  XRT.list_files prefix w = (Ok names, w') ->
  w' = logged (S3List prefix) None w
  /\ forall name,
       In name names
       <-> name <> EmptyString
           /\ s3_lookup (prefix ++ name) (s3 w) <> None
           /\ endswith "/" (prefix ++ name) = false.
Proof. apply listed_names_spec. Qed.

Lemma X14_listed_names_are_keys_witness :
  exists w',
    XRT.list_files "noprod/inbound/exchange_rate/pending/" two_pending
    = (Ok ["a.csv"; "b.csv"], w')
    /\ (In "a.csv" ["a.csv"; "b.csv"]
        <-> "a.csv" <> EmptyString
            /\ s3_lookup ("noprod/inbound/exchange_rate/pending/" ++ "a.csv")
                 (s3 two_pending) <> None
            /\ endswith "/" ("noprod/inbound/exchange_rate/pending/" ++ "a.csv")
               = false).
Proof.
  eexists.
  assert (forall names w'
            (E : XRT.list_files "noprod/inbound/exchange_rate/pending/" two_pending
                 = (Ok names, w')),
             names = ["a.csv"; "b.csv"] ->
             XRT.list_files "noprod/inbound/exchange_rate/pending/" two_pending
             = (Ok ["a.csv"; "b.csv"], w')
             /\ (In "a.csv" ["a.csv"; "b.csv"]
                 <-> "a.csv" <> EmptyString
                     /\ s3_lookup ("noprod/inbound/exchange_rate/pending/" ++ "a.csv")
                          (s3 two_pending) <> None
                     /\ endswith "/"
                          ("noprod/inbound/exchange_rate/pending/" ++ "a.csv")
                        = false)) as Hw.
  { intros names w' E Hn.
    pose proof (proj2 (X14_listed_names_are_keys _ _ _ _ E) "a.csv") as H.
    subst names. split; [exact E | exact H]. }
  eapply Hw; vm_compute; reflexivity.
Defined.

Section Downloads.

Lemma ced_download_file_run key p w :
  CED.download_file key p w
  = match oracle w (trace w) (S3Download key p) with
    | Some e => (Raise e, logged (S3Download key p) (Some e) w)
    | None =>
        match s3_lookup key (s3 w) with
        | Some f =>
            (Ok tt, with_fs (logged (S3Download key p) None w) (fs_store p f (fs w)))
        | None =>
            (Raise (ClientError ("404 Not Found: " ++ key)),
             logged (S3Download key p) (Some (ClientError ("404 Not Found: " ++ key))) w)
        end
    end.
Proof.
  unfold CED.download_file, CED.reraise_ClientError. rewrite try_run.
  unfold s3_download. rewrite perform_run. unfold verdict, missing_key.
  destruct (oracle w (trace w) _) as [e|]; [now destruct e|].
  destruct (s3_lookup key (s3 w)) as [f|] eqn:Ef; [|reflexivity].
  cbn [s3 fs logged with_trace]. now rewrite Ef.
Qed.

(** The loop of the downloads: the pairs it returns, and the local files
    it leaves, when no two keys have the same file name. *)
Lemma ced_download_each_ok keys : forall acc w items w',
  CED.download_each keys acc w = (Ok items, w') ->
  items = acc ++ map (fun key => ((Pending, basename key), key)) keys
  /\ s3 w' = s3 w
  /\ (forall q, ~ In (snd q) (map basename keys) \/ fst q <> Pending ->
                fs_lookup q (fs w') = fs_lookup q (fs w))
  /\ (NoDup (map basename keys) ->
      forall key, In key keys ->
        s3_lookup key (s3 w) <> None
        /\ fs_lookup (Pending, basename key) (fs w') = s3_lookup key (s3 w)).
Proof.
  induction keys as [|key rest IH]; intros acc w items w'.
  - cbn. intros [= <- <-]. rewrite app_nil_r. repeat split; tauto.
  - cbn [CED.download_each]. cbv zeta. rewrite bind_run, ced_download_file_run.
    destruct (oracle w (trace w) _) as [e|]; [discriminate|].
    destruct (s3_lookup key (s3 w)) as [f|] eqn:Ef; [|discriminate].
    set (w1 := with_fs _ _). intros Hrun.
    destruct (IH _ _ _ _ Hrun) as [Hitems [Hs3 [Hkeep Hfiles]]].
    assert (s3 w1 = s3 w) as Hs1 by reflexivity.
    assert (forall q, q <> (Pending, basename key) ->
                      fs_lookup q (fs w1) = fs_lookup q (fs w)) as Hfs1.
    { intros q Hq. subst w1. cbn [fs with_fs]. now apply fs_lookup_store_other. }
    assert (fs_lookup (Pending, basename key) (fs w1) = Some f) as Hnew
      by (subst w1; cbn [fs with_fs]; apply fs_lookup_store_same).
    clearbody w1.
    split; [rewrite Hitems, <- app_assoc; reflexivity|].
    split; [congruence|]. split.
    + intros q Hq. rewrite Hkeep.
      * apply Hfs1. intros ->. cbn [fst snd map In] in Hq. destruct Hq as [Hq|Hq]; tauto.
      * cbn [map In] in Hq. tauto.
    + intros Hnd k Hk. cbn [map] in Hnd. inversion Hnd as [|? ? Hnot Hnd']; subst.
      destruct Hk as [<-|Hk].
      * rewrite Ef. split; [discriminate|].
        rewrite Hkeep; [exact Hnew | now left].
      * destruct (Hfiles Hnd' k Hk) as [H1 H2].
        rewrite Hs1 in H1, H2. now split.
Qed.

End Downloads.

(** X15. When [download_all_pending_files] returns, it returns one pair
    for every pending key, in the order of the listing, with the local
    path made of the pending directory and the last component of the
    key. The bucket is as it was, and when no two keys end in the same
    file name, every key is the key of an object and the local file of
    its pair has the content of that object. *)
Theorem X15_downloaded_pairs (w w' : World) (items : list (LocalPath * string)) :
  CED.download_all_pending_files w = (Ok items, w') ->
  items = map (fun key => ((Pending, basename key), key)) (pending_keys w)
  /\ s3 w' = s3 w
  /\ (NoDup (map basename (pending_keys w)) ->
      forall key, In key (pending_keys w) ->
        s3_lookup key (s3 w) <> None
        /\ fs_lookup (Pending, basename key) (fs w') = s3_lookup key (s3 w)).
Proof.
  unfold CED.download_all_pending_files. rewrite bind_run, ced_list_run.
  destruct (oracle w (trace w) (S3List _)) as [e|]; [discriminate|].
  set (w0 := logged _ None w).
  assert (pending_keys w = pending_keys w0) as Hpk by reflexivity.
  destruct (pending_keys w) as [|key keys] eqn:Ek.
  - intros [= <- <-]. split; [reflexivity|]. split; [reflexivity|]. intros _ k [].
  - rewrite bind_run, fs_mkdir_run.
    destruct (oracle w0 (trace w0) (FsMkdir Pending)) as [e|]; [discriminate|].
    intros Hrun. apply ced_download_each_ok in Hrun.
    destruct Hrun as [Hitems [Hs3 [_ Hfiles]]].
    split; [exact Hitems|]. split; [exact Hs3|]. exact Hfiles.
Qed.

Lemma X15_downloaded_pairs_witness :
  exists w',
    CED.download_all_pending_files two_pending
    = (Ok [((Pending, "a.csv"), "prod/inbound/cede_interface/pending/x/a.csv");
           ((Pending, "b.csv"), "prod/inbound/cede_interface/pending/b.csv")], w')
    /\ fs_lookup (Pending, "b.csv") (fs w') = Some one_rate.
Proof.
  eexists.
  assert (forall items w'
            (E : CED.download_all_pending_files two_pending = (Ok items, w')),
             items
             = [((Pending, "a.csv"), "prod/inbound/cede_interface/pending/x/a.csv");
                ((Pending, "b.csv"), "prod/inbound/cede_interface/pending/b.csv")] ->
             CED.download_all_pending_files two_pending
             = (Ok [((Pending, "a.csv"),
                     "prod/inbound/cede_interface/pending/x/a.csv");
                    ((Pending, "b.csv"),
                     "prod/inbound/cede_interface/pending/b.csv")], w')
             /\ fs_lookup (Pending, "b.csv") (fs w') = Some one_rate) as Hw.
  { intros items w' E Hi.
    destruct (X15_downloaded_pairs _ _ _ E) as [_ [_ Hfiles]].
    assert (NoDup (map basename (pending_keys two_pending))) as Hnd.
    { vm_compute. repeat constructor; cbn; intuition discriminate. }
    destruct (Hfiles Hnd "prod/inbound/cede_interface/pending/b.csv") as [_ Hb].
    { vm_compute. right. now left. }
    subst items. split; [exact E|].
    transitivity (s3_lookup "prod/inbound/cede_interface/pending/b.csv"
                    (s3 two_pending)); [exact Hb | reflexivity]. }
  eapply Hw; vm_compute; reflexivity.
Defined.

(** X16. With nothing to process, [main] of dataCED.py ends after the
    listing: when no pending key is listed, it returns with the one
    request logged, as it went, and nothing else done. *)
Theorem X16_ced_nothing_to_process (w : World) :
  pending_keys w = [] ->
  CED.main w
  = (Ok tt, logged (S3List CED.s3_pending_folder)
              (oracle w (trace w) (S3List CED.s3_pending_folder)) w).
Proof.
  intros H. unfold CED.main, CED.download_all_pending_files.
  rewrite try_run, !bind_run, ced_list_run.
  destruct (oracle w (trace w) (S3List CED.s3_pending_folder)) as [e|].
  - reflexivity.
  - rewrite H. reflexivity.
Qed.

Lemma X16_ced_nothing_to_process_witness :
  CED.main (empty_world no_failure)
  = (Ok tt, logged (S3List CED.s3_pending_folder) None (empty_world no_failure)).
Proof.
  apply (X16_ced_nothing_to_process (empty_world no_failure)). reflexivity.
Defined.

(** X17. With nothing to process, the pipeline of dataXRT.py ends after
    the listing too: when every object under the pending prefix is the
    prefix itself or ends with a slash, the one request is logged and
    nothing else is done. The pipeline returns when the listing went
    well; when it failed, the pipeline raises, an [S3OperationError] for
    a [ClientError] and the error of the listing otherwise. *)
Theorem X17_xrt_nothing_to_process (config : XRT.AppConfig) (w : World) :
  let prefix := XRT.s3_pending_folder config in
  (forall name, s3_lookup (prefix ++ name) (s3 w) <> None ->
                name = EmptyString \/ endswith "/" (prefix ++ name) = true) ->
  XRT.run_exchange_rate_pipeline config w
  = match oracle w (trace w) (S3List prefix) with
    | None => (Ok tt, logged (S3List prefix) None w)
    | Some e =>
        (Raise (match e with
                | ClientError _ => S3OperationError ("Failed to list files in " ++ prefix)
                | _ => e
                end), logged (S3List prefix) (Some e) w)
    end.
Proof.
  cbv zeta. intros Hnone.
  unfold XRT.run_exchange_rate_pipeline, XRT.report_and_reraise.
  rewrite try_run, bind_run.
  destruct (XRT.list_files (XRT.s3_pending_folder config) w) as [[names|e] w1] eqn:El.
  - destruct (listed_names_spec _ _ _ _ El) as [-> Hnames].
    rewrite xrt_list_files_run in El.
    destruct (oracle w (trace w) (S3List _)) as [e|]; [discriminate|].
    destruct names as [|name rest]; [reflexivity|]. exfalso.
    destruct (proj1 (Hnames name) (or_introl eq_refl)) as [Hne [Hin Hend]].
    destruct (Hnone name Hin); congruence.
  - rewrite xrt_list_files_run in El.
    destruct (oracle w (trace w) (S3List _)) as [e0|]; [|discriminate].
    injection El as <- <-. reflexivity.
Qed.

Lemma X17_xrt_nothing_to_process_witness :
  XRT.run_exchange_rate_pipeline XRT.default_config (empty_world no_failure)
  = (Ok tt, logged (S3List (XRT.s3_pending_folder XRT.default_config)) None
              (empty_world no_failure)).
Proof.
  apply (X17_xrt_nothing_to_process XRT.default_config (empty_world no_failure)).
  intros name H. exfalso. apply H. reflexivity.
Defined.

Section Fetching.

Lemma fetches_ret {A} (a : A) : fetches (ret a).
Proof.
  intros w. split; [reflexivity|]. exists []. rewrite app_nil_r.
  split; [reflexivity|]. split; constructor.
Qed.

Lemma fetches_state {A} (f : World -> A) : fetches (fun w => (Ok (f w), w)).
Proof.
  intros w. split; [reflexivity|]. exists []. rewrite app_nil_r.
  split; [reflexivity|]. split; constructor.
Qed.

Lemma fetches_bind {A B} (c : M A) (k : A -> M B) :
  fetches c -> (forall a, fetches (k a)) -> fetches (bind c k).
Proof.
  intros Hc Hk w. rewrite bind_run.
  destruct (Hc w) as [Ho [evs [Ht [Hf Hs]]]].
  destruct (c w) as [[a|e] w1]; cbn [fst snd] in *.
  - destruct (Hk a w1) as [Ho' [evs' [Ht' [Hf' Hs']]]].
    split; [congruence|]. exists (evs ++ evs').
    split; [now rewrite Ht', Ht, app_assoc|].
    split; [now apply Forall_app|].
    intros b Hb. apply Forall_app. split; [now apply (Hs a) | now apply (Hs' b)].
  - split; [exact Ho|]. exists evs. split; [exact Ht|]. split; [exact Hf|].
    discriminate.
Qed.

Lemma fetches_perform op check effect :
  fetch_op op = true -> silent effect -> fetches (perform op check effect).
Proof.
  intros Hop Hsil w. rewrite perform_run.
  destruct (verdict op check w) as [e|]; cbn [fst snd].
  - split; [reflexivity|]. exists [(op, Some e)]. split; [reflexivity|].
    split; [now constructor | discriminate].
  - destruct (Hsil (logged op None w)) as [Ho Ht].
    split; [now rewrite Ho|]. exists [(op, None)]. split; [now rewrite Ht|].
    split; [now constructor|]. intros _ _. now constructor.
Qed.

(** A handler that only raises again lets nothing return that had
    failed. *)
Lemma fetches_reraise {A} (c : M A) (h : exn -> option (M A)) :
  fetches c ->
  (forall e hd, h e = Some hd -> exists e', hd = raise e') ->
  fetches (try_except c h).
Proof.
  intros Hc Hh w. rewrite try_run.
  destruct (Hc w) as [Ho [evs [Ht [Hf Hs]]]].
  destruct (c w) as [[a|e] w1]; cbn [fst snd] in *.
  - split; [exact Ho|]. exists evs. split; [exact Ht|]. split; [exact Hf|].
    intros b _. now apply (Hs a).
  - destruct (h e) as [hd|] eqn:Ehe.
    + destruct (Hh e hd Ehe) as [e' ->]. cbn [raise fst snd].
      split; [exact Ho|]. exists evs. split; [exact Ht|]. split; [exact Hf|].
      discriminate.
    + cbn [fst snd]. split; [exact Ho|]. exists evs. split; [exact Ht|].
      split; [exact Hf | discriminate].
Qed.

Lemma silent_download key p :
  silent (fun w => match s3_lookup key (s3 w) with
                   | Some f => with_fs w (fs_store p f (fs w))
                   | None => w
                   end).
Proof. intros w. destruct (s3_lookup key (s3 w)); split; reflexivity. Qed.

Lemma fetches_list_objects prefix : fetches (s3_list_objects prefix).
Proof.
  unfold s3_list_objects. apply fetches_bind.
  - apply fetches_perform; [reflexivity | apply silent_id].
  - intros _. apply (fetches_state (fun w => filter (startswith prefix) (map fst (s3 w)))).
Qed.

Lemma fetches_ced_list : fetches CED.list_pending_files.
Proof.
  unfold CED.list_pending_files, CED.reraise_ClientError. apply fetches_reraise.
  - apply fetches_bind; [apply fetches_list_objects | intros; apply fetches_ret].
  - intros e hd. destruct e; try discriminate. intros [= <-]. now eexists.
Qed.

Lemma fetches_ced_download key p : fetches (CED.download_file key p).
Proof.
  unfold CED.download_file, CED.reraise_ClientError. apply fetches_reraise.
  - apply fetches_perform; [reflexivity | apply silent_download].
  - intros e hd. destruct e; try discriminate. intros [= <-]. now eexists.
Qed.

Lemma fetches_ced_download_each keys : forall acc, fetches (CED.download_each keys acc).
Proof.
  induction keys as [|key rest IH]; intros acc; cbn [CED.download_each].
  - apply fetches_ret.
  - cbv zeta. apply fetches_bind; [apply fetches_ced_download | intros; apply IH].
Qed.

Lemma fetches_ced_download_all : fetches CED.download_all_pending_files.
Proof.
  unfold CED.download_all_pending_files. apply fetches_bind; [apply fetches_ced_list|].
  intros [|key keys]; [apply fetches_ret|].
  apply fetches_bind; [|intros; apply fetches_ced_download_each].
  apply fetches_perform; [reflexivity | apply silent_id].
Qed.

Lemma fetches_xrt_list prefix : fetches (XRT.list_files prefix).
Proof.
  unfold XRT.list_files, XRT.as_S3OperationError. apply fetches_reraise.
  - apply fetches_bind; [apply fetches_list_objects | intros; apply fetches_ret].
  - intros e hd. destruct e; try discriminate. intros [= <-]. now eexists.
Qed.

Lemma fetches_xrt_download folder name : fetches (XRT.download_file folder name Pending).
Proof.
  unfold XRT.download_file, XRT.as_S3OperationError. cbv zeta. apply fetches_reraise.
  - apply fetches_bind; [apply fetches_perform; [reflexivity | apply silent_id]|].
    intros _. apply fetches_bind; [|intros; apply fetches_ret].
    apply fetches_perform; [reflexivity | apply silent_download].
  - intros e hd. destruct e; try discriminate. intros [= <-]. now eexists.
Qed.

Lemma fetches_xrt_download_each config names :
  forall acc, fetches (XRT.download_each config names acc).
Proof.
  induction names as [|name rest IH]; intros acc; cbn [XRT.download_each].
  - apply fetches_ret.
  - apply fetches_bind; [apply fetches_xrt_download | intros; apply IH].
Qed.

End Fetching.

Section Working.

Lemma work_build_data cols row order :
  obeys any_exn work_event (CED.build_data cols row order).
Proof.
  induction order as [|c rest IH]; cbn [CED.build_data]; [apply obeys_ret|].
  destruct (row_get cols row c); [|apply obeys_raise; exact I].
  apply obeys_bind; [exact IH | intros; apply obeys_ret].
Qed.

Lemma work_insert_rows cols todo :
  forall s f, obeys any_exn work_event (CED.insert_rows cols todo s f).
Proof.
  induction todo as [|row rest IH]; intros s f; cbn [CED.insert_rows].
  - apply obeys_ret.
  - apply obeys_bind; [apply work_build_data|]. intros data _.
    apply obeys_bind; [unfold CED.execute_insert; obey|].
    intros [msg|] _; apply IH.
Qed.

Lemma work_process_file p : obeys any_exn work_event (CED.process_file p).
Proof.
  unfold CED.process_file, detect_file_encoding, pd_read_csv. cbv zeta.
  apply obeys_bind; [obey|]. intros enc _.
  apply obeys_bind; [obey; apply obeys_lift; allowed|]. intros df _.
  apply obeys_bind.
  { unfold CED.validate_csv_columns.
    destruct (CED.missing_columns df CED.INSERT_COLUMN_ORDER); obey. }
  intros _ _. apply obeys_bind.
  { unfold CED.submit_batch, CED.reraise_PyodbcError.
    apply obeys_try; [|obey_handler obey].
    apply obeys_with_connection; allowed.
    apply obeys_bind; [apply work_insert_rows|]. intros groups _. obey. }
  intros [s f] _.
  unfold CED._write_error_file, CED._write_success_file, to_csv. obey.
Qed.

Lemma work_ced_handle_file p key : obeys any_exn work_event (CED.handle_file p key).
Proof.
  unfold CED.handle_file. cbv zeta.
  apply obeys_bind; [apply work_process_file|]. intros b _.
  unfold CED.upload_if_exists, CED.upload_result_file, CED.upload_file,
    CED.delete_file, CED.reraise_ClientError.
  obey.
Qed.

Lemma work_ced_loop items : obeys any_exn work_event (for_each items CED.loop_body).
Proof.
  apply obeys_for_each. intros item _. unfold CED.loop_body, CED.per_file_handler.
  apply obeys_try; [apply work_ced_handle_file | obey_handler obey].
Qed.

Lemma work_submit_rows todo :
  forall s f, obeys any_exn work_event (XRT.submit_rows todo s f).
Proof.
  induction todo as [|row rest IH]; intros s f; cbn [XRT.submit_rows].
  - apply obeys_ret.
  - apply obeys_bind.
    { unfold XRT.call_exchange_rate_service, XRT.service_handler. obey. }
    intros answer _. destruct (XRT.truthy answer); apply IH.
Qed.

Lemma work_save_group records name suffix dest folder enc :
  dest <> Pending ->
  obeys any_exn work_event (XRT.save_group records name suffix dest folder enc).
Proof.
  intros Hd. unfold XRT.save_group, XRT._save_and_upload_results, to_csv,
    XRT.upload_file, XRT.move_file, XRT.as_S3OperationError,
    XRT.as_FileProcessingError.
  destruct dest; [congruence| |]; obey.
Qed.

Lemma work_xrt_handle_file config item :
  obeys any_exn work_event (XRT.handle_file config item).
Proof.
  destruct item as [name p]. unfold XRT.handle_file.
  apply obeys_bind.
  { unfold XRT.process_exchange_rate_file, XRT.as_FileProcessingError,
      detect_file_encoding, pd_read_csv.
    apply obeys_try; [|obey_handler obey].
    apply obeys_bind; [obey|]. intros enc _.
    apply obeys_bind; [obey; apply obeys_lift; allowed|]. intros df _.
    apply obeys_bind; [apply work_submit_rows|]. intros [s f] _.
    apply obeys_bind; [apply work_save_group; discriminate|]. intros x1 _.
    apply obeys_bind; [apply work_save_group; discriminate|]. intros x2 _.
    apply obeys_ret. }
  intros r _.
  unfold XRT.delete_file, XRT.delete_local_file, XRT.as_S3OperationError,
    XRT.as_FileProcessingError.
  obey.
Qed.

End Working.

(** X18. In either program a run has two phases. First the pending
    prefix is listed and the files are downloaded, all of them; then the
    files are processed, and no listing and no download happens any
    more. The second phase begins only when the listing and every
    download have succeeded: when one of them fails, no file is read and
    no record is submitted. *)
Theorem X18_downloads_before_processing (v : Variant) (config : XRT.AppConfig)
    (w : World) :
  exists pre post,
    trace (snd (pipeline v config w)) = trace w ++ pre ++ post
    /\ Forall fetch_event pre
    /\ Forall work_event post
    /\ (Forall succeeded pre \/ post = []).
Proof.
  destruct v; cbn [pipeline].
  - (* dataCED.py *)
    unfold CED.main. rewrite try_run, bind_run.
    destruct (fetches_ced_download_all w) as [Ho [pre [Ht [Hf Hs]]]].
    destruct (CED.download_all_pending_files w) as [[items|e] w1];
      cbn [fst snd] in *.
    + assert (exists post, trace (snd (for_each items CED.loop_body w1))
                           = trace w1 ++ post /\ Forall work_event post)
        as [post [Ht' Hw]].
      { destruct (work_ced_loop items w1 (tame_any w1)) as [[_ Hl] _]. exact Hl. }
      exists pre, post.
      split.
      { destruct items as [|item rest].
        - cbn [for_each ret snd] in Ht'. cbn [ret snd].
          rewrite Ht' at 1. now rewrite Ht, app_assoc.
        - destruct (for_each (item :: rest) CED.loop_body w1) as [[u|e] w2];
            cbn [ret snd] in *; now rewrite Ht', Ht, app_assoc. }
      split; [exact Hf|]. split; [exact Hw|]. left. now apply (Hs items).
    + exists pre, []. cbn [ret snd]. rewrite app_nil_r.
      split; [exact Ht|]. split; [exact Hf|]. split; [constructor | now right].
  - (* dataXRT.py *)
    unfold XRT.run_exchange_rate_pipeline, XRT.report_and_reraise.
    assert (forall (c : M unit) w0,
               snd (try_except c (fun e => Some (raise e)) w0) = snd (c w0)) as Htry.
    { intros c w0. rewrite try_run. now destruct (c w0) as [[u|e] w1]. }
    rewrite Htry, bind_run.
    destruct (fetches_xrt_list (XRT.s3_pending_folder config) w)
      as [Ho [pre0 [Ht0 [Hf0 Hs0]]]].
    destruct (XRT.list_files (XRT.s3_pending_folder config) w) as [[names|e] w1];
      cbn [fst snd] in *.
    2:{ exists pre0, []. rewrite app_nil_r.
        split; [exact Ht0|]. split; [exact Hf0|]. split; [constructor | now right]. }
    destruct names as [|name rest].
    { exists pre0, []. cbn [ret snd]. rewrite app_nil_r.
      split; [exact Ht0|]. split; [exact Hf0|]. split; [constructor | now right]. }
    rewrite bind_run.
    destruct (fetches_xrt_download_each config (name :: rest) [] w1)
      as [Ho1 [pre1 [Ht1 [Hf1 Hs1]]]].
    destruct (XRT.download_each config (name :: rest) [] w1) as [[items|e] w2];
      cbn [fst snd] in *.
    2:{ exists (pre0 ++ pre1), []. rewrite app_nil_r.
        split; [now rewrite Ht1, Ht0, app_assoc|].
        split; [now apply Forall_app|]. split; [constructor | now right]. }
    assert (obeys any_exn work_event (for_each items (XRT.handle_file config))) as Hob
      by (apply obeys_for_each; intros item _; apply work_xrt_handle_file).
    destruct (Hob w2 (tame_any w2)) as [[_ [post [Ht2 Hw]]] _].
    exists (pre0 ++ pre1), post.
    split; [now rewrite Ht2, Ht1, Ht0, !app_assoc|].
    split; [now apply Forall_app|]. split; [exact Hw|].
    left. apply Forall_app. split; [now apply (Hs0 (name :: rest)) | now apply (Hs1 items)].
Qed.

(** X19. [main] of dataCED.py, from its [try] block on, returns normally
    in every world: whatever the listing, a download or the processing of
    a file raises, of whatever class, ends the run without an
    exception. *)
Theorem X19_ced_main_returns (w : World) : fst (CED.main w) = Ok tt.
Proof.
  unfold CED.main. rewrite try_run.
  destruct (bind CED.download_all_pending_files _ w) as [[[]|e] w1]; reflexivity.
Qed.

Section Attempts.

Lemma build_data_ok cols row order : forall w data w',
  CED.build_data cols row order w = (Ok data, w') ->
  project cols row order = Some data /\ w' = w.
Proof.
  induction order as [|c rest IH]; intros w data w'; cbn [CED.build_data project].
  - now intros [= <- <-].
  - destruct (row_get cols row c) as [x|]; [|discriminate].
    rewrite bind_run.
    destruct (CED.build_data cols row rest w) as [[vs|e] w1] eqn:E; [|discriminate].
    destruct (IH _ _ _ E) as [-> ->]. now intros [= <- <-].
Qed.

Lemma build_data_raise cols row order w e w' :
  CED.build_data cols row order w = (Raise e, w') -> w' = w.
Proof.
  intros E. pose proof (build_data_world cols row order w) as H.
  now rewrite E in H.
Qed.

Lemma call_service_attempt r w :
  exists evs,
    trace (snd (XRT.call_exchange_rate_service r w)) = trace w ++ evs
    /\ oracle (snd (XRT.call_exchange_rate_service r w)) = oracle w
    /\ ((exists e, evs = [(WsClient, Some e)])
        \/ (exists o, evs = [(WsClient, None); (WsImport r, o)])).
Proof.
  unfold XRT.call_exchange_rate_service.
  rewrite bind_run, try_run, bind_run, ws_client_run.
  destruct (oracle w (trace w) WsClient) as [e|] eqn:Eo.
  - exists [(WsClient, Some e)].
    destruct e; cbn; (split; [reflexivity|]); (split; [reflexivity|]);
      left; now eexists.
  - cbn [ret]. rewrite try_run, bind_run, ws_import_run.
    set (w1 := logged WsClient None w). change (oracle w1) with (oracle w).
    destruct (oracle w (trace w1) (WsImport r)) as [e|] eqn:Eo1.
    + exists [(WsClient, None); (WsImport r, Some e)].
      destruct e as [| | | | [t|] | | | | | |]; cbn;
        (split; [now rewrite <- app_assoc|]); (split; [reflexivity|]);
        right; now eexists.
    + exists [(WsClient, None); (WsImport r, None)]. cbn.
      split; [now rewrite <- app_assoc|]. split; [reflexivity|].
      right. now eexists.
Qed.

Lemma insert_rows_attempts cols todo : forall s f w,
  exists attempts,
    trace (snd (CED.insert_rows cols todo s f w)) = trace w ++ concat attempts
    /\ Forall2 (attempt BulkInsert cols) (firstn (List.length attempts) todo) attempts
    /\ (forall r, fst (CED.insert_rows cols todo s f w) = Ok r ->
                  List.length attempts = List.length todo).
Proof.
  induction todo as [|row rest IH]; intros s f w.
  - exists []. cbn. rewrite app_nil_r. split; [reflexivity|].
    split; [constructor | reflexivity].
  - cbn [CED.insert_rows]. rewrite bind_run.
    destruct (CED.build_data cols row CED.INSERT_COLUMN_ORDER w) as [[data|e] w0] eqn:Eb.
    2:{ apply build_data_raise in Eb. subst w0. exists []. cbn. rewrite app_nil_r.
        split; [reflexivity|]. split; [constructor | discriminate]. }
    destruct (build_data_ok _ _ _ _ _ _ Eb) as [Hp ->].
    rewrite bind_run, execute_insert_run.
    destruct (oracle w (trace w) (DbExecute data)) as [e|] eqn:Eo.
    + assert ((exists m, e = PyodbcError m)
              \/ CED.execute_insert data w
                 = (Raise e, logged (DbExecute data) (Some e) w)) as [[m ->]|Hr].
      { rewrite execute_insert_run, Eo. destruct e; try (now right). left. now eexists. }
      * destruct (IH s (f ++ [row ++ [PStr (CED.sanitize_error_message m)]])
                    (logged (DbExecute data) (Some (PyodbcError m)) w))
          as [attempts [Ht [Hf Hl]]].
        exists ([(DbExecute data, Some (PyodbcError m))] :: attempts).
        rewrite Ht. cbn [trace logged with_trace concat List.length firstn app].
        split; [now rewrite <- app_assoc|].
        split; [constructor; [eexists data, _; split; [exact Hp | reflexivity] | exact Hf]|].
        intros r Hr. f_equal. eapply Hl; eauto.
      * rewrite execute_insert_run, Eo in Hr.
        exists [[(DbExecute data, Some e)]]. rewrite Hr. cbn.
        split; [reflexivity|].
        split; [constructor; [eexists data, _; split; [exact Hp | reflexivity] | constructor] | discriminate].
    + cbv zeta.
      set (w1 := with_db _ _ _).
      destruct (IH (s ++ [row]) f w1) as [attempts [Ht [Hf Hl]]].
      exists ([(DbExecute data, None)] :: attempts).
      rewrite Ht. subst w1.
      cbn [trace logged with_trace with_db concat List.length firstn app].
      split; [now rewrite <- app_assoc|].
      split; [constructor; [eexists data, _; split; [exact Hp | reflexivity] | exact Hf]|].
      intros r Hr. f_equal. eapply Hl; eauto.
Qed.

Lemma submit_rows_attempts cols todo : forall s f w,
  exists attempts,
    trace (snd (XRT.submit_rows todo s f w)) = trace w ++ concat attempts
    /\ Forall2 (attempt RemoteCall cols) (firstn (List.length attempts) todo) attempts
    /\ (forall r, fst (XRT.submit_rows todo s f w) = Ok r ->
                  List.length attempts = List.length todo).
Proof.
  induction todo as [|row rest IH]; intros s f w.
  - exists []. cbn. rewrite app_nil_r. split; [reflexivity|].
    split; [constructor | reflexivity].
  - cbn [XRT.submit_rows]. cbv zeta. rewrite bind_run.
    destruct (call_service_attempt (join "," (map str row)) w) as [evs [Ht [Ho Ha]]].
    destruct (XRT.call_exchange_rate_service (join "," (map str row)) w)
      as [[answer|e] w1]; cbn [fst snd] in *.
    + assert (forall s' f',
                 exists attempts,
                   trace (snd (XRT.submit_rows rest s' f' w1))
                   = trace w ++ concat (evs :: attempts)
                   /\ Forall2 (attempt RemoteCall cols)
                        (firstn (List.length (evs :: attempts)) (row :: rest))
                        (evs :: attempts)
                   /\ (forall r, fst (XRT.submit_rows rest s' f' w1) = Ok r ->
                                 List.length (evs :: attempts)
                                 = List.length (row :: rest))) as Hstep.
      { intros s' f'. destruct (IH s' f' w1) as [attempts [Ht' [Hf Hl]]].
        exists attempts. rewrite Ht', Ht. cbn [concat List.length firstn].
        split; [now rewrite <- app_assoc|].
        split; [constructor; [exact Ha | exact Hf]|].
        intros r Hr. f_equal. eapply Hl; eauto. }
      destruct (XRT.truthy answer).
      * destruct (Hstep s (f ++ [row ++ [PStr (split_head ". "
                      match answer with Some s0 => s0 | None => "" end)]]))
          as [attempts H]. now exists (evs :: attempts).
      * destruct (Hstep (s ++ [row]) f) as [attempts H]. now exists (evs :: attempts).
    + exists [evs]. cbn [concat List.length firstn]. rewrite app_nil_r.
      split; [exact Ht|]. split; [constructor; [exact Ha | constructor]|].
      discriminate.
Qed.

End Attempts.

(** X20. The record loop of either variant makes one attempt per record,
    in the order of the batch, and never a second one: the events of the
    loop are the attempts for the records it got to, one after the other.
    In the bulk variant an attempt is one insert of the values of the row;
    in the remote variant it is the building of a new client and, when
    that went well, one call with the record. When the loop returns, it
    got to every record. *)
Theorem X20_one_attempt_per_record (v : Variant) (cols : list Label)
    (batch : list (list value)) (w : World) :
  exists attempts,
    trace (snd (submit_all v cols batch w)) = trace w ++ concat attempts
    /\ Forall2 (attempt v cols) (firstn (List.length attempts) batch) attempts
    /\ (forall groups, fst (submit_all v cols batch w) = Ok groups ->
                       List.length attempts = List.length batch).
Proof.
  destruct v; cbn [submit_all].
  - apply insert_rows_attempts.
  - apply submit_rows_attempts.
Qed.
